(** * MS Console main process: backend supervision, health probe, stream proxy

    A shallow embedding of [src/main/main.js]: the health checker
    ([checkBackendHealth]), the process supervisor ([startPythonBackend],
    [stopPythonBackend]), the stream proxy (the [chat:stream] IPC handler and
    the callbacks it registers) and the request registry ([chat:cancel]).

    The main process is single threaded and callback driven.  Every callback
    of the source is a function on an explicit state; the environment (Node's
    [http] and [child_process] modules) is the sequence of callbacks it
    delivers. *)

From Stdlib Require Import List NArith Bool Arith Lia.
From Stdlib Require Import Strings.String Strings.Ascii Strings.Byte.
Import ListNotations.

Local Open Scope N_scope.

(* ===================================================================== *)
(** ** JavaScript strings and buffers *)
(* ===================================================================== *)

Module JS.

(** A JavaScript string is a sequence of UTF-16 code units. *)
Definition jsstring := list N.

(** A Node [Buffer] is a sequence of bytes. *)
Definition buffer := list byte.

(** String literals of the source.  Inside a literal an apostrophe stands
    for the double quote character. *)
Definition unit_of_ascii (a : ascii) : N :=
  let n := N_of_ascii a in if n =? 39 then 34 else n.

Definition lit (s : string) : jsstring :=
  map unit_of_ascii (list_ascii_of_string s).

(** The bytes of an ASCII literal, as a server would put them on the wire. *)
Definition wire (s : string) : buffer :=
  map (fun a => byte_of_ascii (ascii_of_N (unit_of_ascii a)))
      (list_ascii_of_string s).

Arguments lit s%_string.
Arguments wire s%_string.

Definition LF : N := 10.

Fixpoint eqs (a b : jsstring) : bool :=
  match a, b with
  | [], [] => true
  | x :: a', y :: b' => (x =? y) && eqs a' b'
  | _, _ => false
  end.

(** [s.startsWith(p)] *)
Fixpoint startsWith (s p : jsstring) {struct p} : bool :=
  match p, s with
  | [], _ => true
  | c :: p', x :: s' => (x =? c) && startsWith s' p'
  | _ :: _, [] => false
  end.

(** [s.slice(n)] for [0 <= n] *)
Definition slice (n : nat) (s : jsstring) : jsstring := skipn n s.

(** [s.includes(p)] *)
Fixpoint includes (s p : jsstring) : bool :=
  startsWith s p ||
  match s with
  | [] => false
  | _ :: s' => includes s' p
  end.

(** [s.split(sep)] for a separator of one code unit: never empty, the last
    element is what follows the last separator. *)
Fixpoint split (sep : N) (s : jsstring) : list jsstring :=
  match s with
  | [] => [[]]
  | x :: r =>
      if x =? sep then [] :: split sep r
      else match split sep r with
           | [] => [[x]]
           | l :: ls => (x :: l) :: ls
           end
  end.

(** Join a text to the first segment of a split. *)
Definition prepend (b : jsstring) (segments : list jsstring) : list jsstring :=
  match segments with
  | [] => [b]
  | l :: ls => (b ++ l) :: ls
  end.

(** [a.pop()]: the last element (or [undefined]) and the array left behind. *)
Definition pop {A} (a : list A) : option A * list A :=
  match rev a with
  | [] => (None, [])
  | x :: r => (Some x, rev r)
  end.

(** [x || ''] for [x] a string or [undefined] *)
Definition or_empty (x : option jsstring) : jsstring :=
  match x with
  | Some (c :: s) => c :: s
  | _ => []
  end.

(** [x || y] on values that are a string or [undefined]: the empty string and
    [undefined] are falsy. *)
Definition truthy (x : option jsstring) : bool :=
  match x with
  | Some (_ :: _) => true
  | _ => false
  end.

Definition or_else (x y : option jsstring) : option jsstring :=
  if truthy x then x else y.

(** [String(n)] for a non-negative integer. *)
Fixpoint digits_of_uint (d : Decimal.uint) : jsstring :=
  match d with
  | Decimal.Nil => []
  | Decimal.D0 r => 48 :: digits_of_uint r
  | Decimal.D1 r => 49 :: digits_of_uint r
  | Decimal.D2 r => 50 :: digits_of_uint r
  | Decimal.D3 r => 51 :: digits_of_uint r
  | Decimal.D4 r => 52 :: digits_of_uint r
  | Decimal.D5 r => 53 :: digits_of_uint r
  | Decimal.D6 r => 54 :: digits_of_uint r
  | Decimal.D7 r => 55 :: digits_of_uint r
  | Decimal.D8 r => 56 :: digits_of_uint r
  | Decimal.D9 r => 57 :: digits_of_uint r
  end.

Definition String_of_N (n : N) : jsstring :=
  match n with
  | 0 => [48]
  | _ => digits_of_uint (N.to_uint n)
  end.

(** *** [Buffer.prototype.toString()]: UTF-8 decoding

    Node decodes a buffer as UTF-8 and replaces every maximal ill-formed
    subsequence by U+FFFD.  A multi-byte sequence cut off by the end of the
    buffer is ill-formed: each call decodes its own buffer only. *)

Definition REPLACEMENT : N := 0xFFFD.

(** A sequence under way: the bits read so far, the number of continuation
    bytes still expected after the next one, and the range allowed for the
    next byte. *)
Record pending := {
  bits : N;
  more : nat;
  lower : N;
  upper : N
}.

Definition utf8_lead (b : N) : list N * option pending :=
  if b <=? 0x7F then ([b], None)
  else if (0xC2 <=? b) && (b <=? 0xDF) then
    ([], Some {| bits := N.land b 0x1F; more := 0; lower := 0x80; upper := 0xBF |})
  else if (0xE0 <=? b) && (b <=? 0xEF) then
    ([], Some {| bits := N.land b 0xF; more := 1;
                 lower := if b =? 0xE0 then 0xA0 else 0x80;
                 upper := if b =? 0xED then 0x9F else 0xBF |})
  else if (0xF0 <=? b) && (b <=? 0xF4) then
    ([], Some {| bits := N.land b 0x7; more := 2;
                 lower := if b =? 0xF0 then 0x90 else 0x80;
                 upper := if b =? 0xF4 then 0x8F else 0xBF |})
  else ([REPLACEMENT], None).

Definition utf8_step (st : option pending) (b : N) : list N * option pending :=
  match st with
  | None => utf8_lead b
  | Some p =>
      if (lower p <=? b) && (b <=? upper p) then
        let cp := N.lor (N.shiftl (bits p) 6) (N.land b 0x3F) in
        match more p with
        | O => ([cp], None)
        | S k => ([], Some {| bits := cp; more := k; lower := 0x80; upper := 0xBF |})
        end
      else
        let (out, st') := utf8_lead b in (REPLACEMENT :: out, st')
  end.

(** The code points of a buffer. *)
Fixpoint utf8_decode (st : option pending) (bs : list N) : list N :=
  match bs with
  | [] => match st with None => [] | Some _ => [REPLACEMENT] end
  | b :: r => let (out, st') := utf8_step st b in out ++ utf8_decode st' r
  end.

(** A code point as UTF-16 code units. *)
Definition utf16_units (cp : N) : jsstring :=
  if cp <? 0x10000 then [cp]
  else let c := cp - 0x10000 in [0xD800 + c / 0x400; 0xDC00 + c mod 0x400].

Definition toString (chunk : buffer) : jsstring :=
  flat_map utf16_units (utf8_decode None (map Byte.to_N chunk)).

Definition is_ascii (b : byte) : bool := Byte.to_N b <=? 0x7F.

End JS.

(* ===================================================================== *)
(** ** JSON values, [JSON.parse] and [JSON.stringify] *)
(* ===================================================================== *)

Module Json.
Import JS.

(** The values [JSON.parse] builds.  A number keeps its lexeme (the double it
    denotes is not computed); an object keeps its members in source order. *)
#[warnings="-register-all"]
Inductive json :=
| JNull
| JBool (b : bool)
| JNumber (lexeme : jsstring)
| JString (s : jsstring)
| JArray (elements : list json)
| JObject (members : list (jsstring * json)).

Notation "x <- a ;; b" :=
  (match a with Some x => b | None => None end)
  (at level 61, a at next level, right associativity).
Notation "' ( x , y ) <- a ;; b" :=
  (match a with Some (x, y) => b | None => None end)
  (at level 61, x name, y name, a at next level, right associativity).

Definition is_ws (c : N) : bool :=
  (c =? 32) || (c =? 9) || (c =? 10) || (c =? 13).

Fixpoint skip_ws (s : jsstring) : jsstring :=
  match s with
  | c :: r => if is_ws c then skip_ws r else s
  | [] => []
  end.

(** Skip white space, then read the code unit [c]. *)
Definition expect (c : N) (s : jsstring) : option jsstring :=
  match skip_ws s with
  | x :: r => if x =? c then Some r else None
  | [] => None
  end.

Definition hex_value (c : N) : option N :=
  if (48 <=? c) && (c <=? 57) then Some (c - 48)
  else if (65 <=? c) && (c <=? 70) then Some (c - 55)
  else if (97 <=? c) && (c <=? 102) then Some (c - 87)
  else None.

Definition simple_escape (c : N) : option N :=
  if c =? 34 then Some 34          (* quotation mark *)
  else if c =? 92 then Some 92     (* reverse solidus *)
  else if c =? 47 then Some 47     (* solidus *)
  else if c =? 98 then Some 8      (* b *)
  else if c =? 102 then Some 12    (* f *)
  else if c =? 110 then Some 10    (* n *)
  else if c =? 114 then Some 13    (* r *)
  else if c =? 116 then Some 9     (* t *)
  else None.

(** The characters of a string literal after its opening quote, up to and
    including the closing quote. *)
Fixpoint string_body (s : jsstring) : option (jsstring * jsstring) :=
  match s with
  | [] => None
  | c :: r =>
      if c =? 34 then Some ([], r)
      else if c =? 92 then
        match r with
        | [] => None
        | e :: r1 =>
            if e =? 117 then
              match r1 with
              | h1 :: h2 :: h3 :: h4 :: r2 =>
                  a <- hex_value h1 ;; b <- hex_value h2 ;;
                  c <- hex_value h3 ;; d <- hex_value h4 ;;
                  '(body, rest) <- string_body r2 ;;
                  Some (((a * 16 + b) * 16 + c) * 16 + d :: body, rest)
              | _ => None
              end
            else
              x <- simple_escape e ;;
              '(body, rest) <- string_body r1 ;;
              Some (x :: body, rest)
        end
      else if c <? 32 then None
      else '(body, rest) <- string_body r ;; Some (c :: body, rest)
  end.

Definition is_digit (c : N) : bool := (48 <=? c) && (c <=? 57).

Fixpoint span_digits (s : jsstring) : jsstring * jsstring :=
  match s with
  | c :: r =>
      if is_digit c then let (ds, rest) := span_digits r in (c :: ds, rest)
      else ([], s)
  | [] => ([], [])
  end.

(** A number: an optional minus sign, an integer part without leading zero,
    an optional fraction, an optional exponent. *)
Definition number_int (s : jsstring) : option (jsstring * jsstring) :=
  match s with
  | c :: r =>
      if c =? 48 then Some ([48], r)
      else if is_digit c then let (ds, rest) := span_digits r in Some (c :: ds, rest)
      else None
  | [] => None
  end.

Definition number_frac (s : jsstring) : option (jsstring * jsstring) :=
  match s with
  | 46 :: r =>
      match span_digits r with
      | ([], _) => None
      | (ds, rest) => Some (46 :: ds, rest)
      end
  | _ => Some ([], s)
  end.

Definition number_exp (s : jsstring) : option (jsstring * jsstring) :=
  match s with
  | e :: r =>
      if (e =? 101) || (e =? 69) then
        let (sign, r1) :=
          match r with
          | c :: r' => if (c =? 43) || (c =? 45) then ([c], r') else ([], r)
          | [] => ([], r)
          end in
        match span_digits r1 with
        | ([], _) => None
        | (ds, rest) => Some (e :: sign ++ ds, rest)
        end
      else Some ([], s)
  | [] => Some ([], s)
  end.

Definition number (s : jsstring) : option (jsstring * jsstring) :=
  let (sign, r0) :=
    match s with
    | 45 :: r => ([45], r)
    | _ => ([], s)
    end in
  '(i, r1) <- number_int r0 ;;
  '(f, r2) <- number_frac r1 ;;
  '(e, r3) <- number_exp r2 ;;
  Some (sign ++ i ++ f ++ e, r3).

Definition keyword (k : jsstring) (v : json) (s : jsstring) : option (json * jsstring) :=
  if startsWith s k then Some (v, skipn (List.length k) s) else None.

Fixpoint value (fuel : nat) (s : jsstring) {struct fuel} : option (json * jsstring) :=
  match fuel with
  | O => None
  | S f =>
      match skip_ws s with
      | [] => None
      | c :: r =>
          if c =? 123 then                                   (* { *)
            match expect 125 r with
            | Some rest => Some (JObject [], rest)
            | None => '(ms, rest) <- members f r ;; Some (JObject ms, rest)
            end
          else if c =? 91 then                               (* [ *)
            match expect 93 r with
            | Some rest => Some (JArray [], rest)
            | None => '(vs, rest) <- elements f r ;; Some (JArray vs, rest)
            end
          else if c =? 34 then
            '(str, rest) <- string_body r ;; Some (JString str, rest)
          else if c =? 116 then keyword (lit "true") (JBool true) (c :: r)
          else if c =? 102 then keyword (lit "false") (JBool false) (c :: r)
          else if c =? 110 then keyword (lit "null") JNull (c :: r)
          else '(lexeme, rest) <- number (c :: r) ;; Some (JNumber lexeme, rest)
      end
  end
with elements (fuel : nat) (s : jsstring) {struct fuel} : option (list json * jsstring) :=
  match fuel with
  | O => None
  | S f =>
      '(v, r) <- value f s ;;
      match skip_ws r with
      | c :: r1 =>
          if c =? 44 then '(vs, rest) <- elements f r1 ;; Some (v :: vs, rest)
          else if c =? 93 then Some ([v], r1)
          else None
      | [] => None
      end
  end
with members (fuel : nat) (s : jsstring) {struct fuel}
  : option (list (jsstring * json) * jsstring) :=
  match fuel with
  | O => None
  | S f =>
      r0 <- expect 34 s ;;
      '(key, r1) <- string_body r0 ;;
      r2 <- expect 58 r1 ;;
      '(v, r3) <- value f r2 ;;
      match skip_ws r3 with
      | c :: r4 =>
          if c =? 44 then '(ms, rest) <- members f r4 ;; Some ((key, v) :: ms, rest)
          else if c =? 125 then Some ([(key, v)], r4)
          else None
      | [] => None
      end
  end.

(** [JSON.parse(text)]: [None] stands for the [SyntaxError] it throws.  The
    fuel bounds the nesting of the recursive calls; it is more than the
    text can use. *)
Definition JSON_parse (text : jsstring) : option json :=
  '(v, rest) <- value (2 * List.length text + 2) text ;;
  match skip_ws rest with
  | [] => Some v
  | _ :: _ => None
  end.

(** [o[key]] on a parsed object: the last member of that name wins. *)
Fixpoint get (key : jsstring) (ms : list (jsstring * json)) : option json :=
  match ms with
  | [] => None
  | (k, v) :: r =>
      match get key r with
      | Some v' => Some v'
      | None => if eqs k key then Some v else None
      end
  end.

Definition has_key (key : jsstring) (ms : list (jsstring * json)) : bool :=
  existsb (fun m => eqs (fst m) key) ms.

(** Does [String(v)] (the conversion a template literal applies) throw a
    [TypeError]?  A parsed object converts through [Object.prototype.toString]
    unless it has a member named [toString] of its own, which is never
    callable, and then its [valueOf] does not give a primitive either.  An
    array converts through [join], which converts every element. *)
Fixpoint String_throws (v : json) : bool :=
  match v with
  | JObject ms => has_key (lit "toString") ms
  | JArray vs => existsb String_throws vs
  | _ => false
  end.

(** Does evaluating the template literal with [eventData.type] throw?
    Reading a property of [null] does; on any other value the property is
    the member [type] of an object, or [undefined]. *)
Definition type_literal_throws (eventData : json) : bool :=
  match eventData with
  | JNull => true
  | JObject ms =>
      match get (lit "type") ms with
      | Some t => String_throws t
      | None => false
      end
  | _ => false
  end.

(** *** [JSON.stringify] *)

Definition hex_digit (n : N) : N := if n <? 10 then 48 + n else 87 + n.

Definition unicode_escape (c : N) : jsstring :=
  [92; 117; hex_digit (c / 4096 mod 16); hex_digit (c / 256 mod 16);
   hex_digit (c / 16 mod 16); hex_digit (c mod 16)].

Definition is_high (c : N) : bool := (0xD800 <=? c) && (c <=? 0xDBFF).
Definition is_low (c : N) : bool := (0xDC00 <=? c) && (c <=? 0xDFFF).

Fixpoint quote_body (s : jsstring) : jsstring :=
  match s with
  | [] => []
  | c :: r =>
      if c =? 34 then 92 :: 34 :: quote_body r
      else if c =? 92 then 92 :: 92 :: quote_body r
      else if c =? 8 then 92 :: 98 :: quote_body r
      else if c =? 12 then 92 :: 102 :: quote_body r
      else if c =? 10 then 92 :: 110 :: quote_body r
      else if c =? 13 then 92 :: 114 :: quote_body r
      else if c =? 9 then 92 :: 116 :: quote_body r
      else if c <? 32 then unicode_escape c ++ quote_body r
      else if is_high c then
        match r with
        | d :: r' =>
            if is_low d then c :: d :: quote_body r'
            else unicode_escape c ++ quote_body r
        | [] => unicode_escape c
        end
      else if is_low c then unicode_escape c ++ quote_body r
      else c :: quote_body r
  end.

Definition quote (s : jsstring) : jsstring := 34 :: quote_body s ++ [34].

Fixpoint join (sep : jsstring) (parts : list jsstring) : jsstring :=
  match parts with
  | [] => []
  | [p] => p
  | p :: ps => p ++ sep ++ join sep ps
  end.

Fixpoint JSON_stringify (v : json) : jsstring :=
  match v with
  | JNull => lit "null"
  | JBool true => lit "true"
  | JBool false => lit "false"
  | JNumber lexeme => lexeme
  | JString s => quote s
  | JArray vs => 91 :: join [44] (map JSON_stringify vs) ++ [93]
  | JObject ms =>
      123 :: join [44] (map (fun m => quote (fst m) ++ 58 :: JSON_stringify (snd m)) ms)
          ++ [125]
  end.

End Json.

(* ===================================================================== *)
(** ** Health checker: [checkBackendHealth(retries, delay)] *)
(* ===================================================================== *)

Module Health.
Import JS.

(** What the transport does with one GET request.  It answers with a
    status and the connection is closed before it has been idle for 5000 ms
    (the server closes it, as it does for a request that says
    [Connection: close]); it fails (connection refused, reset, ...); nothing
    happens on the socket for the 5000 ms of the request's [timeout] option;
    it answers with a status and the connection then stays open and idle
    for those 5000 ms (a keep-alive connection: the response callback does
    not read the response, so the client neither reuses nor closes the
    socket, and [timeout] is emitted on the request that was answered); or
    it answers with a status and the connection then breaks with an error
    (a reset, say), which is emitted on the request that was answered. *)
Inductive outcome :=
| Answered (latency : N) (statusCode : N)
| Failed (latency : N) (error : jsstring)
| Silent
| KeptAlive (latency : N) (statusCode : N)
| Reset (latency : N) (statusCode : N) (later : N) (error : jsstring).

(** What one call of [checkBackendHealth] does, in the order of the log. *)
Inductive action :=
| HttpGet                       (* http.request(options, ...) ... req.end() *)
| Wait (ms : N)                 (* time passes until a callback of the request *)
| ReqDestroy                    (* req.destroy() *)
| SetTimeout (ms : N)           (* setTimeout(() => attempt(attemptsLeft - 1), ms) *)
| Resolve                       (* resolve(true) *)
| Reject (message : jsstring).  (* reject(error) *)

Definition socket_timeout : N := 5000.

(** The error Node emits on a request destroyed before any response. *)
Definition hang_up : jsstring := lit "socket hang up".

Section Handlers.
Variable delay : N.
Variable attemptsLeft : nat.

(** The response callback of [http.request]. *)
Definition on_response (statusCode : N) : list action :=
  if statusCode =? 200 then [Resolve]
  else if (0 <? attemptsLeft)%nat then [SetTimeout delay]
  else [Reject (lit "Health check failed: " ++ String_of_N statusCode)].

(** [req.on('error', ...)] *)
Definition on_error (error : jsstring) : list action :=
  if (0 <? attemptsLeft)%nat then [SetTimeout delay]
  else [Reject error].

(** [req.on('timeout', ...)] *)
Definition on_timeout : list action :=
  ReqDestroy ::
  (if (0 <? attemptsLeft)%nat then [SetTimeout delay]
   else [Reject (lit "Health check timeout")]).

End Handlers.

Definition is_timer (a : action) : bool :=
  match a with SetTimeout _ => true | _ => false end.

Definition is_destroy (a : action) : bool :=
  match a with ReqDestroy => true | _ => false end.

Definition is_get (a : action) : bool :=
  match a with HttpGet => true | _ => false end.

(** The environment gives every request its outcome.  A request is named by
    the handlers that scheduled it and its ancestors: [false] for the first
    handler that runs on a request, [true] for the second one on the same
    request (the [error] handler run after the [req.destroy()] of a silent
    request, the [timeout] handler of a request answered on a connection
    that is kept alive, the [error] handler of a request answered on a
    connection that breaks).  No third handler runs on a request: after an
    [error] or a [req.destroy()] its socket is gone. *)
Definition environment := list bool -> outcome.

(** [attempt(attemptsLeft)].  A handler that has set a timer is followed by
    the attempt the timer starts.  The [timeout] event only reports an idle
    socket; the handler destroys the request itself, and Node's [http]
    module answers [req.destroy()] on a request without response by emitting
    [error] (socket hang up) and then [close] on it: the [error] handler of
    that same request runs next.  On a request that has its response
    [req.destroy()] emits no [error].  The log is in order of time as long
    as every request runs one handler; after a request that runs two, two
    chains of attempts run side by side and the log lists one after the
    other. *)
Fixpoint attempt (delay : N) (env : environment) (path : list bool)
         (attemptsLeft : nat) {struct attemptsLeft} : list action :=
  let handled (second : bool) (acts : list action) :=
    acts ++
    (if existsb is_timer acts then
       match attemptsLeft with
       | S n => attempt delay env (path ++ [second]) n
       | O => []
       end
     else []) in
  HttpGet ::
  match env path with
  | Answered latency statusCode =>
      Wait latency :: handled false (on_response delay attemptsLeft statusCode)
  | Failed latency error =>
      Wait latency :: handled false (on_error delay attemptsLeft error)
  | Silent =>
      let acts := on_timeout delay attemptsLeft in
      Wait socket_timeout :: handled false acts ++
      (if existsb is_destroy acts
       then handled true (on_error delay attemptsLeft hang_up)
       else [])
  | KeptAlive latency statusCode =>
      Wait latency :: handled false (on_response delay attemptsLeft statusCode) ++
      Wait socket_timeout :: handled true (on_timeout delay attemptsLeft)
  | Reset latency statusCode later error =>
      Wait latency :: handled false (on_response delay attemptsLeft statusCode) ++
      Wait later :: handled true (on_error delay attemptsLeft error)
  end.

(** [checkBackendHealth(retries = 1, delay = 500)] *)
Definition checkBackendHealth (retries : nat) (delay : N) (env : environment)
  : list action :=
  attempt delay env [] retries.

Inductive settlement :=
| Fulfilled
| Rejected (message : jsstring).

(** The first [resolve] or [reject] of a log.  It is what the promise takes
    when the log is in order of time; whether there is one at all does not
    depend on the order. *)
Fixpoint settled (log : list action) : option settlement :=
  match log with
  | [] => None
  | Resolve :: _ => Some Fulfilled
  | Reject e :: _ => Some (Rejected e)
  | _ :: r => settled r
  end.

(** [attempt(attemptsLeft)] called at the time [now], every action with the
    time at which it happens (in ms): a handler runs when its event comes,
    the attempt of a timer [delay] after the handler that set it.  The
    [error] of a destroyed request comes in the same millisecond as the
    [timeout] that made the handler destroy it. *)
Fixpoint attempt_at (delay : N) (env : environment) (path : list bool)
         (attemptsLeft : nat) (now : N) {struct attemptsLeft}
  : list (N * action) :=
  let handled (second : bool) (time : N) (acts : list action) :=
    map (pair time) acts ++
    (if existsb is_timer acts then
       match attemptsLeft with
       | S n => attempt_at delay env (path ++ [second]) n (time + delay)
       | O => []
       end
     else []) in
  (now, HttpGet) ::
  match env path with
  | Answered latency statusCode =>
      (now, Wait latency) ::
      handled false (now + latency) (on_response delay attemptsLeft statusCode)
  | Failed latency error =>
      (now, Wait latency) ::
      handled false (now + latency) (on_error delay attemptsLeft error)
  | Silent =>
      let acts := on_timeout delay attemptsLeft in
      (now, Wait socket_timeout) ::
      handled false (now + socket_timeout) acts ++
      (if existsb is_destroy acts
       then handled true (now + socket_timeout)
                    (on_error delay attemptsLeft hang_up)
       else [])
  | KeptAlive latency statusCode =>
      (now, Wait latency) ::
      handled false (now + latency) (on_response delay attemptsLeft statusCode) ++
      (now + latency, Wait socket_timeout) ::
      handled true (now + latency + socket_timeout)
              (on_timeout delay attemptsLeft)
  | Reset latency statusCode later error =>
      (now, Wait latency) ::
      handled false (now + latency) (on_response delay attemptsLeft statusCode) ++
      (now + latency, Wait later) ::
      handled true (now + latency + later) (on_error delay attemptsLeft error)
  end.

(** The actions of [checkBackendHealth(retries, delay)] with their times,
    the call being made at time 0. *)
Definition timeline (retries : nat) (delay : N) (env : environment)
  : list (N * action) :=
  attempt_at delay env [] retries 0.

Definition settlement_of (a : action) : option settlement :=
  match a with
  | Resolve => Some Fulfilled
  | Reject e => Some (Rejected e)
  | _ => None
  end.

(** The [resolve] or [reject] that comes first in time, with its time; of
    two in the same millisecond, the one listed first (the one of the chain
    of attempts that started first). *)
Fixpoint first_settled (log : list (N * action)) : option (N * settlement) :=
  match log with
  | [] => None
  | (time, a) :: r =>
      match settlement_of a, first_settled r with
      | Some s, Some (time', s') =>
          if time' <? time then Some (time', s') else Some (time, s)
      | Some s, None => Some (time, s)
      | None, later => later
      end
  end.

(** How the promise of [checkBackendHealth(retries, delay)] settles: the
    promise takes the first [resolve] or [reject] in time, later ones are
    ignored. *)
Definition promise (retries : nat) (delay : N) (env : environment)
  : option settlement :=
  option_map snd (first_settled (timeline retries delay env)).

Definition attempts (log : list action) : nat :=
  List.length (filter is_get log).

Fixpoint timers (log : list action) : list N :=
  match log with
  | [] => []
  | SetTimeout ms :: r => ms :: timers r
  | _ :: r => timers r
  end.

(** Time passed along a log that is in order of time. *)
Fixpoint elapsed (log : list action) : N :=
  match log with
  | [] => 0
  | Wait ms :: r => ms + elapsed r
  | SetTimeout ms :: r => ms + elapsed r
  | _ :: r => elapsed r
  end.

(** The [k]-th request of the chain of first handlers. *)
Definition nth_request (k : nat) : list bool := repeat false k.

(** Did the request get status 200? *)
Definition ok (o : outcome) : bool :=
  match o with
  | Answered _ statusCode | KeptAlive _ statusCode | Reset _ statusCode _ _ =>
      statusCode =? 200
  | _ => false
  end.

(** The error a failed last attempt rejects with first. *)
Definition reason (o : outcome) : jsstring :=
  match o with
  | Answered _ statusCode | KeptAlive _ statusCode | Reset _ statusCode _ _ =>
      lit "Health check failed: " ++ String_of_N statusCode
  | Failed _ error => error
  | Silent => lit "Health check timeout"
  end.

Definition is_silent (o : outcome) : bool :=
  match o with Silent => true | _ => false end.

(** The handler that runs first on a request. *)
Definition first_handler (delay : N) (attemptsLeft : nat) (o : outcome)
  : list action :=
  match o with
  | Answered _ statusCode | KeptAlive _ statusCode | Reset _ statusCode _ _ =>
      on_response delay attemptsLeft statusCode
  | Failed _ error => on_error delay attemptsLeft error
  | Silent => on_timeout delay attemptsLeft
  end.

(** Does exactly one handler run on the request? *)
Definition one_handler (o : outcome) : bool :=
  match o with
  | Answered _ _ | Failed _ _ => true
  | Silent | KeptAlive _ _ | Reset _ _ _ _ => false
  end.

(** The time from the request to its first handler. *)
Definition latency_of (o : outcome) : N :=
  match o with
  | Answered latency _ | Failed latency _ | KeptAlive latency _
  | Reset latency _ _ _ => latency
  | Silent => socket_timeout
  end.

(** Was the request answered on a connection that then broke? *)
Definition is_reset (o : outcome) : bool :=
  match o with Reset _ _ _ _ => true | _ => false end.

(** A healthy backend that keeps the connections alive. *)
Definition healthy (latency : list bool -> N) : environment :=
  fun path => KeptAlive (latency path) 200.

(** A target that is always unreachable: every request fails with a
    connection error, after some time. *)
Definition unreachable (latency : list bool -> N) (error : list bool -> jsstring)
  : environment :=
  fun path => Failed (latency path) (error path).

(** A target that never answers: every request runs into the socket
    timeout. *)
Definition mute : environment := fun _ => Silent.

End Health.

(* ===================================================================== *)
(** ** Process supervisor: [startPythonBackend], [stopPythonBackend] *)
(* ===================================================================== *)

Module Supervisor.
Import JS.

Inductive signal := SIGTERM.

(** The module-level variables, and the signals sent to child processes. *)
Record state := {
  pythonProcess : option nat;
  isBackendReady : bool;
  kills : list (nat * signal)
}.

Inductive promise :=
| Pending
| Resolved (value : bool)
| Rejected (error : jsstring).

(** One call of [startPythonBackend]: its promise, whether it got as far as
    spawning, the health checks it started and whether it is awaiting one. *)
Record start_call := {
  result : promise;
  spawned : bool;
  health_checks : list (nat * N);
  awaiting : bool
}.

Definition resolve (v : bool) (c : start_call) : start_call :=
  match result c with
  | Pending => {| result := Resolved v; spawned := spawned c;
                  health_checks := health_checks c; awaiting := awaiting c |}
  | _ => c
  end.

Definition reject (e : jsstring) (c : start_call) : start_call :=
  match result c with
  | Pending => {| result := Rejected e; spawned := spawned c;
                  health_checks := health_checks c; awaiting := awaiting c |}
  | _ => c
  end.

Definition set_ready (b : bool) (s : state) : state :=
  {| pythonProcess := pythonProcess s; isBackendReady := b; kills := kills s |}.

(** [stopPythonBackend()] *)
Definition stopPythonBackend (s : state) : state :=
  match pythonProcess s with
  | Some child =>
      {| pythonProcess := None;
         isBackendReady := false;
         kills := kills s ++ [(child, SIGTERM)] |}
  | None => s
  end.

(** [startPythonBackend()] up to the return of the promise executor:
    [scriptExists] is [fs.existsSync(scriptPath)], [child] the process
    [spawn] returns. *)
Definition startPythonBackend (scriptExists : bool) (scriptPath : jsstring)
           (child : nat) (s : state) : state * start_call :=
  if negb scriptExists then
    (s, {| result := Rejected (lit "Python script not found: " ++ scriptPath);
           spawned := false; health_checks := []; awaiting := false |})
  else
    ({| pythonProcess := Some child; isBackendReady := isBackendReady s;
        kills := kills s |},
     {| result := Pending; spawned := true; health_checks := [];
        awaiting := false |}).

Definition stdout_marker (message : jsstring) : bool :=
  includes message (lit "Server started")
  || includes message (lit "Uvicorn running")
  || includes message (lit "Application startup complete").

Definition stderr_marker (message : jsstring) : bool :=
  includes message (lit "Uvicorn running")
  || includes message (lit "Started server")
  || includes message (lit "Application startup complete").

(** The callbacks registered by one call, and the timer it sets. *)
Inductive event :=
| Stdout (data : buffer)
| Stderr (data : buffer)
| ProcessError (error : jsstring)
| Close
| StartupTimeout                              (* the 3000 ms timer fires *)
| HealthCheckSettled (failure : option jsstring).
    (* the awaited checkBackendHealth(5, 1000) fulfils ([None]) or rejects *)

Definition on_output (marker : jsstring -> bool) (data : buffer)
           (w : state * start_call) : state * start_call :=
  let (s, c) := w in
  let message := toString data in
  if marker message then (set_ready true s, resolve true c) else (s, c).

Definition on_close (w : state * start_call) : state * start_call :=
  let (s, c) := w in
  ({| pythonProcess := None; isBackendReady := false; kills := kills s |}, c).

Definition on_startup_timeout (w : state * start_call) : state * start_call :=
  let (s, c) := w in
  if negb (isBackendReady s) then
    (s, {| result := result c; spawned := spawned c;
           health_checks := health_checks c ++ [(5%nat, 1000)];
           awaiting := true |})
  else (s, c).

Definition on_health_settled (failure : option jsstring)
           (w : state * start_call) : state * start_call :=
  let (s, c) := w in
  if awaiting c then
    let c' := {| result := result c; spawned := spawned c;
                 health_checks := health_checks c; awaiting := false |} in
    match failure with
    | None => (set_ready true s, resolve true c')
    | Some _ => (s, resolve false c')
    end
  else (s, c).

Definition step (w : state * start_call) (e : event) : state * start_call :=
  if negb (spawned (snd w)) then w
  else
    match e with
    | Stdout data => on_output stdout_marker data w
    | Stderr data => on_output stderr_marker data w
    | ProcessError error => (fst w, reject error (snd w))
    | Close => on_close w
    | StartupTimeout => on_startup_timeout w
    | HealthCheckSettled failure => on_health_settled failure w
    end.

Definition run (evs : list event) (w : state * start_call) : state * start_call :=
  fold_left step evs w.

(** Events that neither show a readiness marker nor report a spawn failure. *)
Definition quiet (e : event) : bool :=
  match e with
  | Stdout data => negb (stdout_marker (toString data))
  | Stderr data => negb (stderr_marker (toString data))
  | Close => true
  | _ => false
  end.

End Supervisor.

(* ===================================================================== *)
(** ** Stream proxy and request registry: [chat:stream], [chat:cancel] *)
(* ===================================================================== *)

Module Stream.
Import JS Json.

(** The value the [chat:stream] promise resolves with. *)
Record chat_result := {
  success : bool;
  error : option jsstring
}.

(** The state shared by all handlers: the registry variable
    [currentChatRequest], the requests [destroy()] was called on, and the
    events sent to the renderer with [sender.send('chat:event', ...)]. *)
Record main := {
  currentChatRequest : option nat;
  destroyed : list nat;
  sent : list json
}.

(** Where the response callback of one request stands, with the variable of
    the branch it took: none yet, [errorData] when [statusCode !== 200],
    [buffer] otherwise. *)
Inductive response :=
| NoResponse
| ErrorBody (statusCode : N) (errorData : jsstring)
| Streaming (buffer : jsstring).

(** One call of the [chat:stream] handler. *)
Record session := {
  request : nat;
  postData : jsstring;
  res : response;
  settled : option chat_result
}.

Definition send (e : json) (m : main) : main :=
  {| currentChatRequest := currentChatRequest m;
     destroyed := destroyed m;
     sent := sent m ++ [e] |}.

Definition clear (m : main) : main :=
  {| currentChatRequest := None; destroyed := destroyed m; sent := sent m |}.

Definition resolve (r : chat_result) (c : session) : session :=
  match settled c with
  | None => {| request := request c; postData := postData c; res := res c;
               settled := Some r |}
  | Some _ => c
  end.

Definition with_res (r : response) (c : session) : session :=
  {| request := request c; postData := postData c; res := r;
     settled := settled c |}.

Definition error_event (message : jsstring) : json :=
  JObject [(lit "type", JString (lit "error")); (lit "message", JString message)].

Definition failure (message : jsstring) : chat_result :=
  {| success := false; error := Some message |}.

(** The arguments of [chat:stream]; [None] is [undefined]. *)
Record chat_request := {
  message : jsstring;
  conversationHistory : option (list json);
  model : option jsstring
}.

Definition default_model : jsstring := lit "gpt-5.2".

(** [model || store.get('model') || 'gpt-5.2'] *)
Definition chosen_model (stored : option jsstring) (q : chat_request)
  : option jsstring :=
  or_else (or_else (model q) stored) (Some default_model).

(** The object given to [JSON.stringify], which leaves out a member whose
    value is [undefined]. *)
Definition payload (stored : option jsstring) (q : chat_request) : json :=
  JObject
    ([(lit "message", JString (message q));
      (lit "conversation_history",
       JArray (match conversationHistory q with Some h => h | None => [] end))]
     ++ match chosen_model stored q with
        | Some m => [(lit "model", JString m)]
        | None => []
        end).

(** The [chat:stream] handler up to the return of the promise executor:
    [stored] is [store.get('model')], [req] the request [http.request]
    returns. *)
Definition chat_stream (stored : option jsstring) (q : chat_request) (req : nat)
           (m : main) : main * session :=
  ({| currentChatRequest := Some req; destroyed := destroyed m; sent := sent m |},
   {| request := req; postData := JSON_stringify (payload stored q);
      res := NoResponse; settled := None |}).

(** The body of the [for] loop over the complete lines. *)
Definition forward (m : main) (line : jsstring) : main :=
  if startsWith line (lit "data: ") then
    match JSON_parse (slice 6 line) with
    | Some eventData =>
        if type_literal_throws eventData then m   (* caught *)
        else send eventData m
    | None => m                                   (* caught *)
    end
  else m.

(** The events one complete line puts on the channel: none or one. *)
Definition decoded (line : jsstring) : list json :=
  sent (forward {| currentChatRequest := None; destroyed := []; sent := [] |} line).

(** The response callback of [http.request]. *)
Definition on_response (statusCode : N) (w : main * session) : main * session :=
  let (m, c) := w in
  match res c with
  | NoResponse =>
      if negb (statusCode =? 200) then (m, with_res (ErrorBody statusCode []) c)
      else (m, with_res (Streaming []) c)
  | _ => w
  end.

(** [res.on('data', ...)] of either branch. *)
Definition on_data (chunk : buffer) (w : main * session) : main * session :=
  let (m, c) := w in
  match res c with
  | NoResponse => w
  | ErrorBody statusCode errorData =>
      (m, with_res (ErrorBody statusCode (errorData ++ toString chunk)) c)
  | Streaming buffer =>
      let buffer := buffer ++ toString chunk in
      let lines := split LF buffer in
      let (last, lines) := pop lines in
      let buffer := or_empty last in
      (fold_left forward lines m, with_res (Streaming buffer) c)
  end.

(** [res.on('end', ...)] of either branch. *)
Definition on_end (w : main * session) : main * session :=
  let (m, c) := w in
  match res c with
  | NoResponse => w
  | ErrorBody statusCode errorData =>
      (send (error_event (lit "HTTP " ++ String_of_N statusCode ++ lit ": "
                          ++ errorData)) m,
       resolve (failure errorData) c)
  | Streaming _ =>
      (clear m, resolve {| success := true; error := None |} c)
  end.

(** [res.on('error', ...)]: registered in the streaming branch only. *)
Definition on_res_error (message : jsstring) (w : main * session)
  : main * session :=
  let (m, c) := w in
  match res c with
  | Streaming _ => (clear (send (error_event message) m), resolve (failure message) c)
  | _ => w
  end.

(** [currentChatRequest.on('error', ...)] *)
Definition on_req_error (message : jsstring) (w : main * session)
  : main * session :=
  let (m, c) := w in
  (clear (send (error_event message) m), resolve (failure message) c).

(** The [chat:cancel] handler. *)
Definition chat_cancel (m : main) : main * bool :=
  match currentChatRequest m with
  | Some req =>
      ({| currentChatRequest := None;
          destroyed := destroyed m ++ [req];
          sent := sent m |}, true)
  | None => (m, false)
  end.

(** What can happen to a session: a callback of its request or response, or
    a call of [chat:cancel]. *)
Inductive event :=
| Response (statusCode : N)
| Data (chunk : buffer)
| End
| ResError (message : jsstring)
| ReqError (message : jsstring)
| Cancel.

Definition step (w : main * session) (e : event) : main * session :=
  match e with
  | Response statusCode => on_response statusCode w
  | Data chunk => on_data chunk w
  | End => on_end w
  | ResError message => on_res_error message w
  | ReqError message => on_req_error message w
  | Cancel => (fst (chat_cancel (fst w)), snd w)
  end.

Definition run (evs : list event) (w : main * session) : main * session :=
  fold_left step evs w.

(** The complete lines of a text and what follows its last line feed. *)
Definition complete_lines (text : jsstring) : list jsstring :=
  snd (pop (split LF text)).

Definition remainder (text : jsstring) : jsstring :=
  or_empty (fst (pop (split LF text))).

Definition idle : main :=
  {| currentChatRequest := None; destroyed := []; sent := [] |}.

(** The text a sequence of chunks is decoded to: each chunk on its own. *)
Definition text_of (chunks : list buffer) : jsstring :=
  List.concat (map toString chunks).

(** A session whose response callback has run with status 200. *)
Definition streaming (m : main) (req : nat) (body : jsstring) : main * session :=
  (m, {| request := req; postData := body; res := Streaming []; settled := None |}).

Definition token (content : jsstring) : json :=
  JObject [(lit "type", JString (lit "token")); (lit "content", JString content)].

Definition done (content : jsstring) : json :=
  JObject [(lit "type", JString (lit "done")); (lit "content", JString content)].

End Stream.

(* ===================================================================== *)
(** ** The child's environment and the backend IPC handlers *)
(* ===================================================================== *)

Module Backend.
Import JS Json Supervisor.

(** An object with string values, read by name: [process.env], the string
    settings of the store, the [env] option of [spawn]. *)
Definition variables := jsstring -> option jsstring.

(** [{ ...o, name: value }] *)
Definition assign (name value : jsstring) (o : variables) : variables :=
  fun n => if eqs n name then Some value else o n.

(** [x || 'literal'] *)
Definition or_literal (x : option jsstring) (literal : jsstring) : jsstring :=
  match or_else x (Some literal) with
  | Some v => v
  | None => literal
  end.

Definition pythonPort : N := 8765.

(** The [env] built in [startPythonBackend]. *)
Definition child_env (store process_env : variables) : variables :=
  assign (lit "SERVER_PORT") (String_of_N pythonPort)
  (assign (lit "MYSQL_DATABASE") (or_literal (store (lit "mysqlDatabase")) (lit "imsms"))
  (assign (lit "MYSQL_PASSWORD")
     (or_literal (store (lit "mysqlPassword")) (lit "Medcp_aiqueries_123#@!"))
  (assign (lit "MYSQL_USERNAME") (or_literal (store (lit "mysqlUsername")) (lit "medcp"))
  (assign (lit "MYSQL_PORT") (or_literal (store (lit "mysqlPort")) (lit "3306"))
  (assign (lit "MYSQL_HOST") (or_literal (store (lit "mysqlHost")) (lit "queryms.ucsf.edu"))
  (assign (lit "OPENAI_MODEL") (or_literal (store (lit "model")) (lit "gpt-5.2"))
  (assign (lit "OPENAI_API_KEY") (or_literal (store (lit "openaiApiKey")) [])
     process_env))))))).

Definition child_variables : list jsstring :=
  [lit "OPENAI_API_KEY"; lit "OPENAI_MODEL"; lit "MYSQL_HOST"; lit "MYSQL_PORT";
   lit "MYSQL_USERNAME"; lit "MYSQL_PASSWORD"; lit "MYSQL_DATABASE";
   lit "SERVER_PORT"].

(** [a.includes(key)] on an array of strings. *)
Definition includes_key (a : list jsstring) (key : jsstring) : bool :=
  existsb (eqs key) a.

(** Events of a start call that are output of the child. *)
Definition is_output (e : event) : bool :=
  match e with
  | Stdout _ | Stderr _ => true
  | _ => false
  end.

(** Does this one output event hold a readiness marker of its stream? *)
Definition shows_marker (e : event) : bool :=
  match e with
  | Stdout data => stdout_marker (toString data)
  | Stderr data => stderr_marker (toString data)
  | _ => false
  end.

(** *** [settings:set] *)

Definition connection_keys : list jsstring :=
  [lit "openaiApiKey"; lit "model"; lit "mysqlHost"; lit "mysqlPort";
   lit "mysqlUsername"; lit "mysqlPassword"; lit "mysqlDatabase"].

(** What the handler leaves behind: the store, the supervisor state, the
    delays of the timers it set (each of them calls [startPythonBackend]),
    and its return value. *)
Record set_outcome (V : Type) := {
  store_after : jsstring -> option V;
  state_after : state;
  restart_timers : list N;
  returned : bool
}.
Arguments store_after {V}.
Arguments state_after {V}.
Arguments restart_timers {V}.
Arguments returned {V}.

Definition settings_set {V : Type} (key : jsstring) (value : V)
           (store : jsstring -> option V) (s : state) : set_outcome V :=
  let store := fun k => if eqs k key then Some value else store k in
  if includes_key connection_keys key then
    match pythonProcess s with
    | Some _ =>
        {| store_after := store; state_after := stopPythonBackend s;
           restart_timers := [1000]; returned := true |}
    | None =>
        {| store_after := store; state_after := s;
           restart_timers := []; returned := true |}
    end
  else
    {| store_after := store; state_after := s;
       restart_timers := []; returned := true |}.

(** *** [backend:status] *)

Record status_reply := {
  status : jsstring;
  status_message : jsstring;
  port : option N
}.

(** The reply ([None] as long as the awaited probe is not settled) and the
    log of the probe, which may go on after the reply. *)
Definition backend_status (s : state) (env : Health.environment)
  : option status_reply * list Health.action :=
  match pythonProcess s with
  | None =>
      (Some {| status := lit "stopped";
               status_message := lit "Python backend not running";
               port := None |}, [])
  | Some _ =>
      let log := Health.checkBackendHealth 1 500 env in
      (match Health.promise 1 500 env with
       | Some Health.Fulfilled =>
           Some {| status := lit "running";
                   status_message := lit "Backend is healthy";
                   port := Some pythonPort |}
       | Some (Health.Rejected message) =>
           Some {| status := lit "error"; status_message := message;
                   port := None |}
       | None => None
       end, log)
  end.

(** *** [test:connection] *)







(** *** [backend:restart] *)

(** [stopPythonBackend()], a second later [startPythonBackend()], whose
    promise is awaited while the events [evs] of the new call happen.  The
    reply is [None] while that promise is pending, the error it rejects
    with, or the [status] of the object returned. *)
Definition backend_restart (scriptExists : bool) (scriptPath : jsstring)
           (child : nat) (evs : list event) (s : state)
  : state * option (jsstring + jsstring) :=
  let w := run evs (startPythonBackend scriptExists scriptPath child
                                       (stopPythonBackend s)) in
  (fst w,
   match result (snd w) with
   | Pending => None
   | Resolved _ => Some (inl (lit "restarted"))
   | Rejected error => Some (inr error)
   end).

(** *** [settings:setAll] *)

(** [Object.entries(settings).forEach(([key, value]) => store.set(key, value))] *)
Definition set_entries {V : Type} (entries : list (jsstring * V))
           (store : jsstring -> option V) : jsstring -> option V :=
  fold_left (fun store kv k => if eqs k (fst kv) then Some (snd kv) else store k)
            entries store.

(** What the handler leaves behind: the store, the supervisor state, the
    delays it waited for, the log of its health probe and its return value
    ([None] while one of the awaited promises is pending). *)
Record set_all_outcome (V : Type) := {
  all_store : jsstring -> option V;
  all_state : state;
  all_waits : list N;
  all_health : list Health.action;
  all_returned : option bool
}.
Arguments all_store {V}.
Arguments all_state {V}.
Arguments all_waits {V}.
Arguments all_health {V}.
Arguments all_returned {V}.

(** The handler: [evs] are the events of its [startPythonBackend] call,
    [env] what the transport does with the requests of its health probe.
    Both [catch] blocks only log. *)
Definition settings_setAll {V : Type} (entries : list (jsstring * V))
           (store : jsstring -> option V) (scriptExists : bool)
           (scriptPath : jsstring) (child : nat) (evs : list event)
           (env : Health.environment) (s : state) : set_all_outcome V :=
  let store := set_entries entries store in
  let w := run evs (startPythonBackend scriptExists scriptPath child
                                       (stopPythonBackend s)) in
  match result (snd w) with
  | Pending =>
      {| all_store := store; all_state := fst w; all_waits := [2000];
         all_health := []; all_returned := None |}
  | Rejected _ =>
      {| all_store := store; all_state := fst w; all_waits := [2000];
         all_health := []; all_returned := Some true |}
  | Resolved _ =>
      let log := Health.checkBackendHealth 3 1000 env in
      {| all_store := store; all_state := fst w; all_waits := [2000; 1500];
         all_health := log;
         all_returned := match Health.settled log with
                         | Some _ => Some true
                         | None => None
                         end |}
  end.

End Backend.

(* ===================================================================== *)
(** ** Renderer: [sendMessage] of the chat view and its event listener *)
(* ===================================================================== *)

Module Renderer.
Import JS Json.

(** The white space and line terminators [String.prototype.trim] removes. *)
Definition is_space (c : N) : bool :=
  (c =? 9) || (c =? 10) || (c =? 11) || (c =? 12) || (c =? 13) || (c =? 32)
  || (c =? 0xA0) || (c =? 0x1680) || ((0x2000 <=? c) && (c <=? 0x200A))
  || (c =? 0x2028) || (c =? 0x2029) || (c =? 0x202F) || (c =? 0x205F)
  || (c =? 0x3000) || (c =? 0xFEFF).

Fixpoint trimStart (s : jsstring) : jsstring :=
  match s with
  | c :: r => if is_space c then trimStart r else s
  | [] => []
  end.

(** [s.trim()] *)
Definition trim (s : jsstring) : jsstring :=
  rev (trimStart (rev (trimStart s))).

(** A string used as a condition: the empty string is falsy. *)
Definition nonempty (s : jsstring) : bool :=
  match s with
  | [] => false
  | _ :: _ => true
  end.

Inductive role := User | Assistant.

Definition role_name (r : role) : jsstring :=
  match r with
  | User => lit "user"
  | Assistant => lit "assistant"
  end.

Inductive tool_status := Running | Complete.

Record tool_call := {
  call_id : jsstring;
  call_name : jsstring;
  call_arguments : json;
  call_result : option json;
  call_status : tool_status
}.

Record message := {
  msg_id : jsstring;
  msg_role : role;
  content : jsstring;
  isError : bool;
  msg_toolCalls : option (list tool_call);
  timestamp : N
}.

Record settings := {
  streamTokens : bool;
  showToolCalls : bool;
  settings_model : option jsstring
}.

(** The events of the channel [chat:event], by their [type]. *)
Inductive chat_event :=
| Token (text : jsstring)
| ToolCallStart (tool_id tool_name : jsstring) (arguments : json)
| ToolCallEnd (tool_id : jsstring) (result : json)
| Done (text : option jsstring)
| Error (error_text : jsstring)
| Unknown.

(** The state of the chat view, the messages of the conversation as last
    given to [onUpdateMessages], and the variables of the [sendMessage]
    call under way ([updatedMessages], [fullContent], [toolCalls],
    [hasError], and whether its listener is still registered). *)
Record view := {
  inputValue : jsstring;
  isStreaming : bool;
  streamingContent : jsstring;
  currentToolCalls : list tool_call;
  shown : list message;
  updatedMessages : list message;
  fullContent : jsstring;
  toolCalls : list tool_call;
  hasError : bool;
  listening : bool
}.

(** Two readings of [Date.now()] taken in one handler. *)
Definition clock := (N * N)%type.

Definition user_message (t : clock) (text : jsstring) : message :=
  {| msg_id := String_of_N (fst t); msg_role := User; content := text;
     isError := false; msg_toolCalls := None; timestamp := snd t |}.

Definition error_message (t : clock) (text : jsstring) : message :=
  {| msg_id := String_of_N (fst t + 1); msg_role := Assistant; content := text;
     isError := true; msg_toolCalls := None; timestamp := snd t |}.

Definition assistant_message (t : clock) (text : jsstring)
           (calls : list tool_call) : message :=
  {| msg_id := String_of_N (fst t + 1); msg_role := Assistant; content := text;
     isError := false;
     msg_toolCalls := match calls with [] => None | _ :: _ => Some calls end;
     timestamp := snd t |}.

Definition history_entry (m : message) : json :=
  JObject [(lit "role", JString (role_name (msg_role m)));
           (lit "content", JString (content m))].

(** [sendMessage] up to the call of [chatStream]: the new state and the
    arguments of the call, or nothing when the guard returns. *)
Definition sendMessage (st : settings) (t : clock) (v : view)
  : view * option Stream.chat_request :=
  let text := trim (inputValue v) in
  if negb (nonempty text) || isStreaming v then (v, None)
  else
    let updated := shown v ++ [user_message t text] in
    ({| inputValue := []; isStreaming := true; streamingContent := [];
        currentToolCalls := []; shown := updated; updatedMessages := updated;
        fullContent := []; toolCalls := []; hasError := false;
        listening := true |},
     Some {| Stream.message := text;
             Stream.conversationHistory := Some (map history_entry (shown v));
             Stream.model := settings_model st |}).

Definition error_text_shown (text : jsstring) : jsstring :=
  lit "Error: " ++ text ++ lit ". Please check your settings and try again.".

Definition end_call (e : chat_event) (tc : tool_call) : tool_call :=
  match e with
  | ToolCallEnd tool_id result =>
      if eqs (call_id tc) tool_id then
        {| call_id := call_id tc; call_name := call_name tc;
           call_arguments := call_arguments tc; call_result := Some result;
           call_status := Complete |}
      else tc
  | _ => tc
  end.

(** The listener given to [onChatEvent]. *)
Definition on_chat_event (st : settings) (t : clock) (v : view) (e : chat_event)
  : view :=
  if negb (listening v) then v
  else
    match e with
    | Token text =>
        let full := fullContent v ++ text in
        {| inputValue := inputValue v; isStreaming := isStreaming v;
           streamingContent := if streamTokens st then full else streamingContent v;
           currentToolCalls := currentToolCalls v; shown := shown v;
           updatedMessages := updatedMessages v; fullContent := full;
           toolCalls := toolCalls v; hasError := hasError v;
           listening := listening v |}
    | ToolCallStart tool_id tool_name arguments =>
        if showToolCalls st then
          let calls := toolCalls v ++
                       [{| call_id := tool_id; call_name := tool_name;
                           call_arguments := arguments; call_result := None;
                           call_status := Running |}] in
          {| inputValue := inputValue v; isStreaming := isStreaming v;
             streamingContent := streamingContent v;
             currentToolCalls := calls; shown := shown v;
             updatedMessages := updatedMessages v; fullContent := fullContent v;
             toolCalls := calls; hasError := hasError v;
             listening := listening v |}
        else v
    | ToolCallEnd tool_id result =>
        if showToolCalls st then
          let calls := map (end_call e) (toolCalls v) in
          {| inputValue := inputValue v; isStreaming := isStreaming v;
             streamingContent := streamingContent v;
             currentToolCalls := calls; shown := shown v;
             updatedMessages := updatedMessages v; fullContent := fullContent v;
             toolCalls := calls; hasError := hasError v;
             listening := listening v |}
        else v
    | Done text =>
        let full := match text with
                    | Some (c :: s) => c :: s
                    | _ => fullContent v
                    end in
        {| inputValue := inputValue v; isStreaming := isStreaming v;
           streamingContent := full;
           currentToolCalls := currentToolCalls v; shown := shown v;
           updatedMessages := updatedMessages v; fullContent := full;
           toolCalls := toolCalls v; hasError := hasError v;
           listening := listening v |}
    | Error text =>
        {| inputValue := inputValue v; isStreaming := false;
           streamingContent := []; currentToolCalls := [];
           shown := updatedMessages v ++ [error_message t (error_text_shown text)];
           updatedMessages := updatedMessages v; fullContent := fullContent v;
           toolCalls := toolCalls v; hasError := true; listening := false |}
    | Unknown => v
    end.

(** The events of one stream, each with the clock at its arrival. *)
Definition receive (st : settings) (evs : list (clock * chat_event)) (v : view)
  : view :=
  fold_left (fun v te => on_chat_event st (fst te) v (snd te)) evs v.

(** How the promise of [chatStream] settles: resolved (with a result that
    is only logged) or rejected with an error. *)
Inductive completion :=
| StreamResolved
| StreamRejected (error_text : jsstring).

(** The rest of [sendMessage], after the [await]. *)
Definition finish (t : clock) (c : completion) (v : view) : view :=
  let after :=
    match c with
    | StreamResolved =>
        if negb (hasError v) && nonempty (fullContent v) then
          updatedMessages v ++ [assistant_message t (fullContent v) (toolCalls v)]
        else if negb (hasError v) && negb (nonempty (fullContent v)) then
          updatedMessages v ++
          [error_message t
             (lit "No response received from the assistant. Please try again.")]
        else shown v
    | StreamRejected text =>
        updatedMessages v ++ [error_message t (error_text_shown text)]
    end in
  {| inputValue := inputValue v; isStreaming := false; streamingContent := [];
     currentToolCalls := []; shown := after;
     updatedMessages := updatedMessages v; fullContent := fullContent v;
     toolCalls := toolCalls v; hasError := hasError v; listening := false |}.

Definition is_error (e : chat_event) : bool :=
  match e with Error _ => true | _ => false end.

(** The identifiers of the tool calls the events start, in order. *)
Fixpoint started (evs : list (clock * chat_event)) : list jsstring :=
  match evs with
  | [] => []
  | (_, ToolCallStart tool_id _ _) :: r => tool_id :: started r
  | _ :: r => started r
  end.

(** The text the events leave in [fullContent], starting from [full]. *)
Fixpoint text_after (full : jsstring) (evs : list (clock * chat_event)) : jsstring :=
  match evs with
  | [] => full
  | (_, Token text) :: r => text_after (full ++ text) r
  | (_, Done (Some (c :: s))) :: r => text_after (c :: s) r
  | _ :: r => text_after full r
  end.

End Renderer.

(* ===================================================================== *)
(** ** Renderer: the list of conversations *)
(* ===================================================================== *)

Module App.
Import JS Json Renderer.

Record conversation := {
  conv_id : jsstring;
  conv_name : jsstring;
  conv_messages : list message;
  createdAt : N
}.

(** The state of [App] that the conversation handlers touch, and the list
    last given to [saveConversations]. *)
Record app := {
  conversations : list conversation;
  activeConversationId : jsstring;
  saved : option (list conversation)
}.

Definition initial : app :=
  {| conversations := [{| conv_id := lit "default"; conv_name := lit "MS Console";
                          conv_messages := []; createdAt := 0 |}];
     activeConversationId := lit "default"; saved := None |}.

(** What [loadData] does with the answer of [getConversations]: a stored
    list that is not empty replaces the list, and its first conversation
    becomes the active one. *)
Definition loadData (savedConvs : option (list conversation)) (a : app) : app :=
  match savedConvs with
  | Some (first :: rest) =>
      {| conversations := first :: rest; activeConversationId := conv_id first;
         saved := saved a |}
  | _ => a
  end.

(** [handleNewConversation]; [uuid] is what [uuidv4()] returns. *)
Definition handleNewConversation (uuid : jsstring) (now : N) (a : app) : app :=
  let newConv :=
    {| conv_id := uuid;
       conv_name := lit "Chat " ++ String_of_N (N.of_nat (List.length (conversations a)));
       conv_messages := []; createdAt := now |} in
  let updatedConvs := newConv :: conversations a in
  {| conversations := updatedConvs; activeConversationId := conv_id newConv;
     saved := Some updatedConvs |}.

(** [handleUpdateMessages] *)
Definition handleUpdateMessages (conversationId : jsstring)
           (messages : list message) (a : app) : app :=
  let updated :=
    map (fun conv =>
           if eqs (conv_id conv) conversationId
           then {| conv_id := conv_id conv; conv_name := conv_name conv;
                   conv_messages := messages; createdAt := createdAt conv |}
           else conv) (conversations a) in
  {| conversations := updated; activeConversationId := activeConversationId a;
     saved := Some updated |}.

(** [handleRenameConversation] *)
Definition handleRenameConversation (conversationId newName : jsstring)
           (a : app) : app :=
  let updated :=
    map (fun conv =>
           if eqs (conv_id conv) conversationId
           then {| conv_id := conv_id conv; conv_name := newName;
                   conv_messages := conv_messages conv; createdAt := createdAt conv |}
           else conv) (conversations a) in
  {| conversations := updated; activeConversationId := activeConversationId a;
     saved := Some updated |}.

(** [handleDeleteConversation]; [uuid] and [now] are used when the list
    becomes empty. *)
Definition handleDeleteConversation (conversationId uuid : jsstring) (now : N)
           (a : app) : app :=
  let updated :=
    filter (fun conv => negb (eqs (conv_id conv) conversationId))
           (conversations a) in
  match updated with
  | first :: _ =>
      if eqs conversationId (activeConversationId a) then
        {| conversations := updated; activeConversationId := conv_id first;
           saved := Some updated |}
      else
        {| conversations := updated;
           activeConversationId := activeConversationId a;
           saved := Some updated |}
  | [] =>
      let newDefault :=
        {| conv_id := uuid; conv_name := lit "MS Console"; conv_messages := [];
           createdAt := now |} in
      {| conversations := [newDefault]; activeConversationId := conv_id newDefault;
         saved := Some [newDefault] |}
  end.

(** [conversations.find(c => c.id === activeConversationId) || conversations[0]] *)
Definition activeConversation (a : app) : option conversation :=
  match find (fun c => eqs (conv_id c) (activeConversationId a)) (conversations a) with
  | Some c => Some c
  | None => hd_error (conversations a)
  end.

(** [handleSaveEdit] of the sidebar, as far as it reaches [App]. *)
Definition handleSaveEdit (editingId editName : jsstring) (a : app) : app :=
  if nonempty (trim editName)
  then handleRenameConversation editingId (trim editName) a
  else a.

(** The handlers above, as operations on the state. *)
Inductive action :=
| New (uuid : jsstring) (now : N)
| Update (conversationId : jsstring) (messages : list message)
| Rename (conversationId newName : jsstring)
| Delete (conversationId uuid : jsstring) (now : N)
| SaveEdit (editingId editName : jsstring)
| Select (conversationId : jsstring)
| Load (savedConvs : option (list conversation)).

Definition has_id (conversationId : jsstring) (l : list conversation) : bool :=
  existsb (fun c => eqs (conv_id c) conversationId) l.

(** The sidebar offers the conversations of the list only: selecting one
    that is not in the list does not happen. *)
Definition apply (a : app) (op : action) : app :=
  match op with
  | New uuid now => handleNewConversation uuid now a
  | Update conversationId messages => handleUpdateMessages conversationId messages a
  | Rename conversationId newName => handleRenameConversation conversationId newName a
  | Delete conversationId uuid now => handleDeleteConversation conversationId uuid now a
  | SaveEdit editingId editName => handleSaveEdit editingId editName a
  | Select conversationId =>
      if has_id conversationId (conversations a)
      then {| conversations := conversations a;
              activeConversationId := conversationId; saved := saved a |}
      else a
  | Load savedConvs => loadData savedConvs a
  end.

End App.

(* ===================================================================== *)
(** * Properties *)
(* ===================================================================== *)

(** ** Strings: [startsWith], [includes], [split], [pop] *)

Section StringFacts.
Import JS.

Lemma startsWith_app (p rest : jsstring) : startsWith (p ++ rest) p = true.
Proof.
  induction p as [|c p IH]; simpl; [reflexivity|].
  now rewrite N.eqb_refl, IH.
Qed.

Lemma includes_app (before p after : jsstring) :
  includes (before ++ p ++ after) p = true.
Proof.
  induction before as [|c before IH]; simpl.
  - assert (E : forall s, startsWith s p = true -> includes s p = true)
      by (intros [|x s] H; simpl; now rewrite H).
    apply E, startsWith_app.
  - rewrite IH. apply orb_true_r.
Qed.

Lemma pop_snoc {A} (a : list A) (x : A) : pop (a ++ [x]) = (Some x, a).
Proof.
  unfold pop. rewrite rev_app_distr. simpl. now rewrite rev_involutive.
Qed.

Lemma or_empty_Some (s : jsstring) : or_empty (Some s) = s.
Proof. now destruct s. Qed.

Lemma split_not_nil (sep : N) (s : jsstring) : split sep s <> [].
Proof.
  destruct s as [|x r]; simpl; [discriminate|].
  destruct (x =? sep); [discriminate|].
  destruct (split sep r); discriminate.
Qed.

End StringFacts.

(** ** [JSON.parse]: the fuel is enough *)

Section ParserFuel.
Import JS Json.

Lemma skip_ws_length (s : jsstring) : (List.length (skip_ws s) <= List.length s)%nat.
Proof.
  induction s as [|c s IH]; simpl; [lia|].
  destruct (is_ws c); simpl; lia.
Qed.

Lemma expect_length (c : N) (s r : jsstring) :
  expect c s = Some r -> (List.length r < List.length s)%nat.
Proof.
  unfold expect. pose proof (skip_ws_length s) as H.
  destruct (skip_ws s) as [|x r0]; [discriminate|].
  destruct (x =? c); [|discriminate]. intros E. injection E as <-. simpl in H. lia.
Qed.

Lemma string_body_length (s : jsstring) :
  forall body rest, string_body s = Some (body, rest) ->
                    (List.length rest < List.length s)%nat.
Proof.
  induction s as [s IH] using (induction_ltof1 _ (@List.length N)).
  unfold ltof in IH. intros body rest H.
  destruct s as [|c r]; [discriminate|]. simpl in H.
  destruct (c =? 34).
  { injection H as _ <-. simpl. lia. }
  destruct (c =? 92).
  - destruct r as [|e r1]; [discriminate|].
    destruct (e =? 117).
    + destruct r1 as [|h1 [|h2 [|h3 [|h4 r2]]]]; try discriminate.
      destruct (hex_value h1), (hex_value h2), (hex_value h3), (hex_value h4);
        try discriminate.
      destruct (string_body r2) as [[b rest']|] eqn:E; [|discriminate].
      injection H as _ <-. apply IH in E; simpl in *; lia.
    + destruct (simple_escape e); [|discriminate].
      destruct (string_body r1) as [[b rest']|] eqn:E; [|discriminate].
      injection H as _ <-. apply IH in E; simpl in *; lia.
  - destruct (c <? 32); [discriminate|].
    destruct (string_body r) as [[b rest']|] eqn:E; [|discriminate].
    injection H as _ <-. apply IH in E; simpl in *; lia.
Qed.

Lemma span_digits_length (s : jsstring) :
  (List.length (snd (span_digits s)) <= List.length s)%nat.
Proof.
  induction s as [|c s IH]; simpl; [lia|].
  destruct (is_digit c); simpl; [|lia].
  destruct (span_digits s); simpl in *; lia.
Qed.

Lemma number_length (s lexeme rest : jsstring) :
  number s = Some (lexeme, rest) -> (List.length rest < List.length s)%nat.
Proof.
  unfold number.
  set (p := match s with 45 :: r => ([45], r) | _ => ([], s) end).
  assert (Hp : (List.length (snd p) <= List.length s)%nat).
  { subst p. destruct s as [|c r]; simpl; [lia|].
    destruct c as [|c]; simpl; [lia|].
    do 6 (destruct c as [c|c|]; simpl; try lia). }
  destruct p as [sign r0]. simpl in Hp.
  destruct (number_int r0) as [[i r1]|] eqn:Ei; [|discriminate].
  destruct (number_frac r1) as [[f r2]|] eqn:Ef; [|discriminate].
  destruct (number_exp r2) as [[e r3]|] eqn:Ee; [|discriminate].
  intros H. injection H as _ <-.
  assert (List.length r1 < List.length r0)%nat.
  { unfold number_int in Ei. destruct r0 as [|c r]; [discriminate|].
    destruct (c =? 48); [injection Ei as _ <-; simpl; lia|].
    destruct (is_digit c); [|discriminate].
    pose proof (span_digits_length r). destruct (span_digits r).
    injection Ei as _ <-. simpl in *. lia. }
  assert (List.length r2 <= List.length r1)%nat.
  { unfold number_frac in Ef.
    destruct r1 as [|c r]; [injection Ef as _ <-; lia|].
    pose proof (span_digits_length r).
    destruct c as [|c]; [injection Ef as _ <-; lia|].
    do 6 (destruct c as [c|c|]; try (injection Ef as _ <-; lia)).
    destruct (span_digits r) as [[|d ds] rr]; [discriminate|].
    injection Ef as _ <-. simpl in *. lia. }
  assert (List.length r3 <= List.length r2)%nat.
  { unfold number_exp in Ee.
    destruct r2 as [|c r]; [injection Ee as _ <-; lia|].
    destruct ((c =? 101) || (c =? 69)); [|injection Ee as _ <-; lia].
    set (q := match r with
              | c0 :: r' => if (c0 =? 43) || (c0 =? 45) then ([c0], r') else ([], r)
              | [] => ([], r) end) in Ee.
    assert (Hq : (List.length (snd q) <= List.length r)%nat).
    { subst q. destruct r as [|c0 r']; simpl; [lia|].
      destruct ((c0 =? 43) || (c0 =? 45)); simpl; lia. }
    destruct q as [sg r1']. simpl in Hq.
    pose proof (span_digits_length r1').
    destruct (span_digits r1') as [[|d ds] rr]; [discriminate|].
    injection Ee as _ <-. simpl in *. lia. }
  lia.
Qed.

Lemma keyword_length (k : jsstring) (v v' : json) (s rest : jsstring) :
  k <> [] -> keyword k v s = Some (v', rest) ->
  (List.length rest < List.length s)%nat.
Proof.
  unfold keyword. intros Hk. destruct (startsWith s k) eqn:E; [|discriminate].
  intros H. injection H as _ <-.
  assert (Hl : forall (p s : jsstring), startsWith s p = true ->
                 (List.length p <= List.length s)%nat).
  { induction p as [|c p IH]; intros s' Hs; [simpl; lia|].
    destruct s' as [|x s']; simpl in Hs; [discriminate|].
    apply andb_prop in Hs as [_ Hs]. apply IH in Hs. simpl. lia. }
  apply Hl in E. rewrite length_skipn. destruct k; [contradiction|]. simpl in *. lia.
Qed.

Lemma value_S (f : nat) (s : jsstring) :
  value (S f) s =
  match skip_ws s with
  | [] => None
  | c :: r =>
      if c =? 123 then
        match expect 125 r with
        | Some rest => Some (JObject [], rest)
        | None => match members f r with
                  | Some (ms, rest) => Some (JObject ms, rest)
                  | None => None
                  end
        end
      else if c =? 91 then
        match expect 93 r with
        | Some rest => Some (JArray [], rest)
        | None => match elements f r with
                  | Some (vs, rest) => Some (JArray vs, rest)
                  | None => None
                  end
        end
      else if c =? 34 then
        match string_body r with
        | Some (str, rest) => Some (JString str, rest)
        | None => None
        end
      else if c =? 116 then keyword (lit "true") (JBool true) (c :: r)
      else if c =? 102 then keyword (lit "false") (JBool false) (c :: r)
      else if c =? 110 then keyword (lit "null") JNull (c :: r)
      else match number (c :: r) with
           | Some (lexeme, rest) => Some (JNumber lexeme, rest)
           | None => None
           end
  end.
Proof. reflexivity. Qed.

Lemma elements_S (f : nat) (s : jsstring) :
  elements (S f) s =
  match value f s with
  | Some (v, r) =>
      match skip_ws r with
      | c :: r1 =>
          if c =? 44 then
            match elements f r1 with
            | Some (vs, rest) => Some (v :: vs, rest)
            | None => None
            end
          else if c =? 93 then Some ([v], r1)
          else None
      | [] => None
      end
  | None => None
  end.
Proof. reflexivity. Qed.

Lemma members_S (f : nat) (s : jsstring) :
  members (S f) s =
  match expect 34 s with
  | Some r0 =>
      match string_body r0 with
      | Some (key, r1) =>
          match expect 58 r1 with
          | Some r2 =>
              match value f r2 with
              | Some (v, r3) =>
                  match skip_ws r3 with
                  | c :: r4 =>
                      if c =? 44 then
                        match members f r4 with
                        | Some (ms, rest) => Some ((key, v) :: ms, rest)
                        | None => None
                        end
                      else if c =? 125 then Some ([(key, v)], r4)
                      else None
                  | [] => None
                  end
              | None => None
              end
          | None => None
          end
      | None => None
      end
  | None => None
  end.
Proof. reflexivity. Qed.

(** A parse that succeeds has read at least one code unit, and succeeds
    with the same result on any fuel that is at least the number of code
    units read. *)
Lemma fuel_stable (f : nat) :
  (forall s v r, value f s = Some (v, r) ->
     (List.length r < List.length s)%nat
     /\ forall f', (List.length s - List.length r <= f')%nat ->
                   value f' s = Some (v, r))
  /\ (forall s vs r, elements f s = Some (vs, r) ->
     (List.length r < List.length s)%nat
     /\ forall f', (List.length s - List.length r <= f')%nat ->
                   elements f' s = Some (vs, r))
  /\ (forall s ms r, members f s = Some (ms, r) ->
     (List.length r < List.length s)%nat
     /\ forall f', (List.length s - List.length r <= f')%nat ->
                   members f' s = Some (ms, r)).
Proof.
  induction f as [|f (IHv & IHe & IHm)]; [repeat split; discriminate|].
  split; [|split].
  - intros s v r H. rewrite value_S in H.
    pose proof (skip_ws_length s) as Hws.
    destruct (skip_ws s) as [|c r0] eqn:Ews; [discriminate|]. simpl in Hws.
    destruct (c =? 123) eqn:E1.
    { destruct (expect 125 r0) as [rest|] eqn:Ex.
      - injection H as <- <-. pose proof (expect_length _ _ _ Ex).
        split; [lia|]. intros [|f'] Hf; [lia|].
        now rewrite value_S, Ews, E1, Ex.
      - destruct (members f r0) as [[ms rest]|] eqn:Em; [|discriminate].
        injection H as <- <-. destruct (IHm _ _ _ Em) as [Hl Hst].
        split; [lia|]. intros [|f'] Hf; [lia|].
        rewrite value_S, Ews, E1, Ex, (Hst f'); [reflexivity|lia]. }
    destruct (c =? 91) eqn:E2.
    { destruct (expect 93 r0) as [rest|] eqn:Ex.
      - injection H as <- <-. pose proof (expect_length _ _ _ Ex).
        split; [lia|]. intros [|f'] Hf; [lia|].
        now rewrite value_S, Ews, E1, E2, Ex.
      - destruct (elements f r0) as [[vs rest]|] eqn:Em; [|discriminate].
        injection H as <- <-. destruct (IHe _ _ _ Em) as [Hl Hst].
        split; [lia|]. intros [|f'] Hf; [lia|].
        rewrite value_S, Ews, E1, E2, Ex, (Hst f'); [reflexivity|lia]. }
    destruct (c =? 34) eqn:E3.
    { destruct (string_body r0) as [[str rest]|] eqn:Es; [|discriminate].
      injection H as <- <-. pose proof (string_body_length _ _ _ Es).
      split; [lia|]. intros [|f'] Hf; [lia|].
      now rewrite value_S, Ews, E1, E2, E3, Es. }
    destruct (c =? 116) eqn:E4.
    { assert (Hl := keyword_length (lit "true") _ _ _ _ ltac:(discriminate) H).
      simpl in Hl. split; [lia|]. intros [|f'] Hf; [lia|].
      now rewrite value_S, Ews, E1, E2, E3, E4. }
    destruct (c =? 102) eqn:E5.
    { assert (Hl := keyword_length (lit "false") _ _ _ _ ltac:(discriminate) H).
      simpl in Hl. split; [lia|]. intros [|f'] Hf; [lia|].
      now rewrite value_S, Ews, E1, E2, E3, E4, E5. }
    destruct (c =? 110) eqn:E6.
    { assert (Hl := keyword_length (lit "null") _ _ _ _ ltac:(discriminate) H).
      simpl in Hl. split; [lia|]. intros [|f'] Hf; [lia|].
      now rewrite value_S, Ews, E1, E2, E3, E4, E5, E6. }
    destruct (number (c :: r0)) as [[lexeme rest]|] eqn:En; [|discriminate].
    injection H as <- <-. pose proof (number_length _ _ _ En) as Hl. simpl in Hl.
    split; [lia|]. intros [|f'] Hf; [lia|].
    now rewrite value_S, Ews, E1, E2, E3, E4, E5, E6, En.
  - intros s vs r H. rewrite elements_S in H.
    destruct (value f s) as [[v r0]|] eqn:Ev; [|discriminate].
    destruct (IHv _ _ _ Ev) as [Hl Hst].
    pose proof (skip_ws_length r0) as Hws.
    destruct (skip_ws r0) as [|c r1] eqn:Ews; [discriminate|]. simpl in Hws.
    destruct (c =? 44) eqn:E1.
    { destruct (elements f r1) as [[vs' rest]|] eqn:Ee; [|discriminate].
      injection H as <- <-. destruct (IHe _ _ _ Ee) as [Hl' Hst'].
      split; [lia|]. intros [|f'] Hf; [lia|].
      rewrite elements_S, (Hst f'), Ews, E1, (Hst' f'); [reflexivity|lia|lia]. }
    destruct (c =? 93) eqn:E2; [|discriminate].
    injection H as <- <-. split; [lia|]. intros [|f'] Hf; [lia|].
    rewrite elements_S, (Hst f'), Ews, E1, E2; [reflexivity|lia].
  - intros s ms r H. rewrite members_S in H.
    destruct (expect 34 s) as [r0|] eqn:Ex; [|discriminate].
    pose proof (expect_length _ _ _ Ex).
    destruct (string_body r0) as [[key r1]|] eqn:Es; [|discriminate].
    pose proof (string_body_length _ _ _ Es).
    destruct (expect 58 r1) as [r2|] eqn:Ec; [|discriminate].
    pose proof (expect_length _ _ _ Ec).
    destruct (value f r2) as [[v r3]|] eqn:Ev; [|discriminate].
    destruct (IHv _ _ _ Ev) as [Hl Hst].
    pose proof (skip_ws_length r3) as Hws.
    destruct (skip_ws r3) as [|c r4] eqn:Ews; [discriminate|]. simpl in Hws.
    destruct (c =? 44) eqn:E1.
    { destruct (members f r4) as [[ms' rest]|] eqn:Em; [|discriminate].
      injection H as <- <-. destruct (IHm _ _ _ Em) as [Hl' Hst'].
      split; [lia|]. intros [|f'] Hf; [lia|].
      rewrite members_S, Ex, Es, Ec, (Hst f'), Ews, E1, (Hst' f');
        [reflexivity|lia|lia]. }
    destruct (c =? 125) eqn:E2; [|discriminate].
    injection H as <- <-. split; [lia|]. intros [|f'] Hf; [lia|].
    rewrite members_S, Ex, Es, Ec, (Hst f'), Ews, E1, E2; [reflexivity|lia].
Qed.

(** The fuel of [JSON_parse] is enough: no larger fuel parses a text that
    it rejects, or parses it to another value. *)
Lemma JSON_parse_fuel (text : jsstring) (f : nat) (v : json) (rest : jsstring) :
  value f text = Some (v, rest) ->
  value (2 * List.length text + 2) text = Some (v, rest).
Proof.
  intros H. destruct (fuel_stable f) as (Hv & _ & _).
  destruct (Hv _ _ _ H) as [_ Hst]. apply Hst. lia.
Qed.

End ParserFuel.

(** ** Lines across chunk boundaries *)

Section Lines.
Import JS Json Stream.

Lemma split_snoc (text : jsstring) :
  split LF text = complete_lines text ++ [remainder text].
Proof.
  unfold complete_lines, remainder.
  destruct (exists_last (split_not_nil LF text)) as (ls & l & E).
  rewrite E, pop_snoc. cbn [fst snd]. now rewrite or_empty_Some.
Qed.

Lemma lines_of_snoc (text : jsstring) (ls : list jsstring) (l : jsstring) :
  split LF text = ls ++ [l] -> complete_lines text = ls /\ remainder text = l.
Proof.
  intros E. unfold complete_lines, remainder. rewrite E, pop_snoc.
  cbn [fst snd]. now rewrite or_empty_Some.
Qed.

Lemma lines_nil : complete_lines [] = [] /\ remainder [] = [].
Proof. now apply (lines_of_snoc [] [] []). Qed.

Lemma lines_cons_LF (text : jsstring) :
  complete_lines (LF :: text) = [] :: complete_lines text
  /\ remainder (LF :: text) = remainder text.
Proof.
  apply lines_of_snoc. simpl. now rewrite split_snoc.
Qed.

Lemma lines_cons_other (c : N) (text : jsstring) :
  c <> LF ->
  complete_lines (c :: text) =
    match complete_lines text with
    | [] => []
    | l :: ls => (c :: l) :: ls
    end
  /\ remainder (c :: text) =
    match complete_lines text with
    | [] => c :: remainder text
    | _ :: _ => remainder text
    end.
Proof.
  intros Hc. apply lines_of_snoc. simpl.
  apply N.eqb_neq in Hc. rewrite Hc, split_snoc.
  now destruct (complete_lines text).
Qed.

Lemma split_app (x y : jsstring) :
  split LF (x ++ y) = complete_lines x ++ prepend (remainder x) (split LF y).
Proof.
  induction x as [|c x IH].
  - destruct lines_nil as [-> ->]. simpl.
    destruct (split LF y) eqn:E; [now destruct (split_not_nil _ _ E)|reflexivity].
  - destruct (N.eq_dec c LF) as [->|Hc].
    + destruct (lines_cons_LF x) as [-> ->]. simpl. now rewrite IH.
    + destruct (lines_cons_other c x Hc) as [-> ->]. simpl.
      apply N.eqb_neq in Hc. rewrite Hc, IH.
      destruct (complete_lines x) as [|l ls]; simpl; [|reflexivity].
      now destruct (split LF y).
Qed.

Lemma remainder_no_LF (text : jsstring) : ~ In LF (remainder text).
Proof.
  induction text as [|c text IH].
  - destruct lines_nil as [_ ->]. intros [].
  - destruct (N.eq_dec c LF) as [->|Hc].
    + now destruct (lines_cons_LF text) as [_ ->].
    + destruct (lines_cons_other c text Hc) as [_ ->].
      destruct (complete_lines text); [|assumption].
      intros [E|H]; [now apply Hc|now apply IH].
Qed.

Lemma split_no_LF (b : jsstring) : ~ In LF b -> split LF b = [b].
Proof.
  induction b as [|c b IH]; intros H; simpl; [reflexivity|].
  destruct (N.eqb_spec c LF) as [->|_]; [exfalso; apply H; now left|].
  rewrite IH; [reflexivity|]. intros Hin. apply H. now right.
Qed.

Lemma split_remainder_app (x y : jsstring) :
  split LF (remainder x ++ y) = prepend (remainder x) (split LF y).
Proof.
  rewrite split_app.
  destruct (lines_of_snoc (remainder x) [] (remainder x)) as [-> ->];
    [apply split_no_LF, remainder_no_LF|reflexivity].
Qed.

(** The lines completed by a text that arrives in two parts are the lines
    of the first part followed by those of what it left behind joined to
    the second part; nothing else is kept. *)
Lemma lines_app (x y : jsstring) :
  complete_lines (x ++ y) = complete_lines x ++ complete_lines (remainder x ++ y)
  /\ remainder (x ++ y) = remainder (remainder x ++ y).
Proof.
  apply lines_of_snoc.
  rewrite split_app, <- split_remainder_app, split_snoc.
  now rewrite app_assoc.
Qed.

(** No code unit is lost: the completed lines, each with its line feed,
    followed by the remainder, are the text. *)
Lemma lines_round_trip (text : jsstring) :
  flat_map (fun l => l ++ [LF]) (complete_lines text) ++ remainder text = text.
Proof.
  induction text as [|c text IH].
  - now destruct lines_nil as [-> ->].
  - destruct (N.eq_dec c LF) as [->|Hc].
    + destruct (lines_cons_LF text) as [-> ->]. simpl. now rewrite IH.
    + destruct (lines_cons_other c text Hc) as [-> ->].
      destruct (complete_lines text) as [|l ls]; simpl in *; now rewrite IH.
Qed.

End Lines.

(** ** Stream proxy: what a sequence of chunks forwards *)

Section Chunks.
Import JS Json Stream.

Lemma forward_sent (m : main) (line : jsstring) :
  forward m line =
  {| currentChatRequest := currentChatRequest m; destroyed := destroyed m;
     sent := sent m ++ decoded line |}.
Proof.
  unfold decoded, forward.
  destruct (startsWith line (lit "data: ")).
  - destruct (JSON_parse (slice 6 line)) as [eventData|].
    + destruct (type_literal_throws eventData); simpl;
        destruct m; simpl; now rewrite ?app_nil_r.
    + destruct m; simpl; now rewrite app_nil_r.
  - destruct m; simpl; now rewrite app_nil_r.
Qed.

Lemma decoded_at_most_one (line : jsstring) : (List.length (decoded line) <= 1)%nat.
Proof.
  unfold decoded, forward.
  destruct (startsWith line (lit "data: ")); [|simpl; lia].
  destruct (JSON_parse (slice 6 line)) as [eventData|]; [|simpl; lia].
  destruct (type_literal_throws eventData); simpl; lia.
Qed.

Lemma fold_forward (lines : list jsstring) (m : main) :
  fold_left forward lines m =
  {| currentChatRequest := currentChatRequest m; destroyed := destroyed m;
     sent := sent m ++ flat_map decoded lines |}.
Proof.
  revert m. induction lines as [|l lines IH]; intros m; simpl.
  - destruct m; simpl; now rewrite app_nil_r.
  - rewrite IH, forward_sent. simpl. now rewrite <- app_assoc.
Qed.

(** One [data] callback in the streaming branch. *)
Lemma on_data_streaming (chunk : buffer) (m : main) (c : session) (b : jsstring) :
  res c = Streaming b ->
  on_data chunk (m, c) =
  (fold_left forward (complete_lines (b ++ toString chunk)) m,
   with_res (Streaming (remainder (b ++ toString chunk))) c).
Proof.
  intros E. unfold on_data, complete_lines, remainder. rewrite E.
  now destruct (pop (split LF (b ++ toString chunk))).
Qed.

(** Whatever the chunks, the proxy forwards the events of the complete lines
    of the decoded text, in the order of the lines, and keeps the
    incomplete last line in the buffer. *)
Lemma run_chunks (chunks : list buffer) :
  forall (m : main) (c : session) (b : jsstring),
    res c = Streaming b -> ~ In LF b ->
    run (map Data chunks) (m, c) =
    (fold_left forward (complete_lines (b ++ text_of chunks)) m,
     with_res (Streaming (remainder (b ++ text_of chunks))) c).
Proof.
  induction chunks as [|chunk chunks IH]; intros m c b E Hb.
  - unfold text_of. simpl. rewrite app_nil_r.
    destruct (lines_of_snoc b [] b (split_no_LF b Hb)) as [-> ->].
    simpl. destruct c; simpl in *; now subst.
  - change (run (map Data (chunk :: chunks)) (m, c))
      with (run (map Data chunks) (on_data chunk (m, c))).
    rewrite (on_data_streaming chunk m c b E).
    rewrite (IH _ _ (remainder (b ++ toString chunk)));
      [|reflexivity|apply remainder_no_LF].
    unfold text_of. simpl. fold (text_of chunks).
    destruct (lines_app (b ++ toString chunk) (text_of chunks)) as [HL HR].
    rewrite <- app_assoc in HL, HR. rewrite HL, HR, fold_left_app.
    reflexivity.
Qed.

End Chunks.

(** ** Stream proxy: chunk boundaries *)

Section ChunkBoundaries.
Import JS Json Stream.

Lemma utf8_decode_ascii (bs : list N) :
  Forall (fun b => b <= 0x7F) bs -> utf8_decode None bs = bs.
Proof.
  induction 1 as [|b bs Hb _ IH]; simpl; [reflexivity|].
  unfold utf8_lead. apply N.leb_le in Hb. rewrite Hb. simpl. now rewrite IH.
Qed.

Lemma toString_ascii (chunk : buffer) :
  forallb is_ascii chunk = true -> toString chunk = map Byte.to_N chunk.
Proof.
  intros H. unfold toString. rewrite utf8_decode_ascii.
  - induction chunk as [|b chunk IH]; simpl in *; [reflexivity|].
    apply andb_prop in H as [Hb H]. rewrite (IH H).
    unfold utf16_units. unfold is_ascii in Hb. apply N.leb_le in Hb.
    destruct (N.ltb_spec (Byte.to_N b) 0x10000); [reflexivity|lia].
  - apply Forall_forall. intros n Hn. apply in_map_iff in Hn as (b & <- & Hb).
    rewrite forallb_forall in H. apply N.leb_le. now apply H.
Qed.

Lemma text_of_ascii (chunks : list buffer) :
  forallb is_ascii (List.concat chunks) = true ->
  text_of chunks = map Byte.to_N (List.concat chunks).
Proof.
  unfold text_of. induction chunks as [|chunk chunks IH]; simpl; [reflexivity|].
  rewrite forallb_app, map_app. intros H. apply andb_prop in H as [H1 H2].
  now rewrite (toString_ascii _ H1), (IH H2).
Qed.

(** Two deliveries that decode to the same text forward the same events
    and leave the same buffer. *)
Lemma same_text_same_run (cs ds : list buffer) (m : main) (c : session)
      (b : jsstring) :
  res c = Streaming b -> ~ In LF b ->
  text_of cs = text_of ds ->
  run (map Data cs) (m, c) = run (map Data ds) (m, c).
Proof.
  intros E Hb H. rewrite (run_chunks cs m c b E Hb), (run_chunks ds m c b E Hb).
  now rewrite H.
Qed.

(** For a body of ASCII bytes the split into chunks does not matter. *)
Lemma ascii_split_invariance (cs ds : list buffer) (m : main) (req : nat)
      (body : jsstring) :
  List.concat cs = List.concat ds ->
  forallb is_ascii (List.concat cs) = true ->
  run (map Data cs) (streaming m req body) = run (map Data ds) (streaming m req body).
Proof.
  intros E H. apply (same_text_same_run cs ds m _ []); [reflexivity|intros []|].
  rewrite (text_of_ascii cs H). rewrite E in H. rewrite (text_of_ascii ds H).
  now rewrite E.
Qed.

(** What the events and the buffer are, for a body of ASCII bytes split in
    any way: those of the lines of the whole body. *)
Lemma ascii_chunks_forwarded (cs : list buffer) (m : main) (req : nat)
      (body : jsstring) :
  forallb is_ascii (List.concat cs) = true ->
  let text := map Byte.to_N (List.concat cs) in
  let w := run (map Data cs) (streaming m req body) in
  sent (fst w) = sent m ++ flat_map decoded (complete_lines text)
  /\ res (snd w) = Streaming (remainder text)
  /\ flat_map (fun l => l ++ [LF]) (complete_lines text) ++ remainder text = text.
Proof.
  intros H text w. subst w. unfold streaming.
  rewrite (run_chunks cs m {| request := req; postData := body;
                              res := Streaming []; settled := None |} []
             eq_refl (fun F => F)).
  simpl. rewrite (text_of_ascii cs H), fold_forward. simpl.
  repeat split. apply lines_round_trip.
Qed.

(** Scenario B: the second frame is cut by the chunk boundary. *)
Example scenario_B :
  let chunk1 := wire "data: {'type':'token','content':'Hi'}" ++ [x0a; x0a]
                ++ wire "data: {'typ" in
  let chunk2 := wire "e':'done','content':'Hi'}" ++ [x0a; x0a] in
  let w := run [Data chunk1; Data chunk2] (streaming idle 1 []) in
  sent (fst w) = [token (lit "Hi"); done (lit "Hi")]
  /\ res (snd w) = Streaming [].
Proof. vm_compute. split; reflexivity. Qed.

(** A frame whose payload is the JSON text [null] parses, but reading
    [eventData.type] throws inside the [try] block: nothing is forwarded. *)
Example null_frame_not_forwarded :
  JSON_parse (slice 6 (lit "data: null")) = Some JNull
  /\ sent (fst (run [Data (wire "data: null" ++ [x0a])] (streaming idle 1 []))) = [].
Proof. vm_compute. split; reflexivity. Qed.

(** C1 (failing input).  The bytes of one frame whose content is the letter
    e with acute accent (C3 A9 in UTF-8), delivered whole and delivered in two
    chunks that part between C3 and A9: the same bytes, but each chunk is
    decoded on its own, so the split delivery forwards an event whose content
    is two replacement characters instead of the letter. *)
Theorem C1_split_inside_character_changes_event :
  let bytes := wire "data: {'type':'token','content':'" ++ [xc3; xa9]
               ++ wire "'}" ++ [x0a] in
  let chunk1 := firstn 34 bytes in
  let chunk2 := skipn 34 bytes in
  chunk1 ++ chunk2 = bytes
  /\ sent (fst (run [Data bytes] (streaming idle 1 []))) = [token [0xE9]]
  /\ sent (fst (run [Data chunk1; Data chunk2] (streaming idle 1 [])))
     = [token [0xFFFD; 0xFFFD]].
Proof. vm_compute. repeat split; reflexivity. Qed.

End ChunkBoundaries.

(** ** Health checker *)

Section HealthFacts.
Import JS Health.

Lemma attempt_failed (delay : N) (env : environment) (path : list bool)
      (n : nat) (latency : N) (error : jsstring) :
  env path = Failed latency error ->
  attempt delay env path n =
  HttpGet :: Wait latency ::
  match n with
  | O => [Reject error]
  | S k => SetTimeout delay :: attempt delay env (path ++ [false]) k
  end.
Proof. intros E. destruct n; simpl; now rewrite E. Qed.

Lemma attempt_answered (delay : N) (env : environment) (path : list bool)
      (n : nat) (latency statusCode : N) :
  env path = Answered latency statusCode ->
  attempt delay env path n =
  HttpGet :: Wait latency ::
  if statusCode =? 200 then [Resolve]
  else match n with
       | O => [Reject (lit "Health check failed: " ++ String_of_N statusCode)]
       | S k => SetTimeout delay :: attempt delay env (path ++ [false]) k
       end.
Proof.
  intros E. destruct n; simpl; rewrite E; unfold on_response;
    now destruct (statusCode =? 200).
Qed.

Lemma attempt_silent (delay : N) (env : environment) (path : list bool) (n : nat) :
  env path = Silent ->
  attempt delay env path n =
  HttpGet :: Wait socket_timeout :: ReqDestroy ::
  match n with
  | O => [Reject (lit "Health check timeout"); Reject hang_up]
  | S k => (SetTimeout delay :: attempt delay env (path ++ [false]) k)
           ++ SetTimeout delay :: attempt delay env (path ++ [true]) k
  end.
Proof. intros E. destruct n; simpl; now rewrite E. Qed.

Lemma attempts_app (a b : list action) :
  attempts (a ++ b) = (attempts a + attempts b)%nat.
Proof. unfold attempts. now rewrite filter_app, length_app. Qed.

Lemma timers_app (a b : list action) : timers (a ++ b) = timers a ++ timers b.
Proof.
  induction a as [|x a IH]; simpl; [reflexivity|].
  destruct x; simpl; now rewrite IH.
Qed.

Lemma elapsed_app (a b : list action) : elapsed (a ++ b) = elapsed a + elapsed b.
Proof.
  induction a as [|x a IH]; simpl; [reflexivity|].
  destruct x; simpl; rewrite IH; lia.
Qed.

Lemma settled_app_None (a b : list action) :
  settled a = None -> settled (a ++ b) = settled b.
Proof.
  induction a as [|x a IH]; simpl; [reflexivity|].
  destruct x; simpl; auto; discriminate.
Qed.

(** Against a target that refuses every connection, [attempt n] makes
    [n + 1] requests, sets a timer of [delay] between two consecutive ones,
    and rejects after the last with that request's error. *)
Lemma attempt_unreachable (delay : N) (latency : list bool -> N)
      (error : list bool -> jsstring) (n : nat) :
  forall path,
  exists before,
    attempt delay (unreachable latency error) path n
      = before ++ [Reject (error (path ++ repeat false n))]
    /\ settled before = None
    /\ attempts before = S n
    /\ timers before = repeat delay n
    /\ N.of_nat n * delay <= elapsed before.
Proof.
  induction n as [|k IH]; intros path.
  - exists [HttpGet; Wait (latency path)].
    rewrite (attempt_failed _ _ _ _ (latency path) (error path) eq_refl).
    simpl. rewrite app_nil_r. repeat split; lia.
  - destruct (IH (path ++ [false])) as (before & E & Hs & Ha & Ht & He).
    exists (HttpGet :: Wait (latency path) :: SetTimeout delay :: before).
    rewrite (attempt_failed _ _ _ _ (latency path) (error path) eq_refl), E.
    rewrite <- app_assoc. simpl.
    repeat split; try assumption.
    + unfold attempts in *. simpl. now rewrite Ha.
    + now rewrite Ht.
    + change (N.of_nat (S k) * delay <= latency path + (delay + elapsed before)).
      rewrite Nat2N.inj_succ, N.mul_succ_l. lia.
Qed.

Lemma flat_map_after_map {A B C} (f : B -> list C) (g : A -> B) (l : list A) :
  flat_map f (map g l) = flat_map (fun x => f (g x)) l.
Proof. induction l as [|x l IH]; simpl; [reflexivity|now rewrite IH]. Qed.

(** The whole log against such a target: [n] times request, wait, timer,
    then the last request and the rejection. *)
Lemma unreachable_log (delay : N) (latency : list bool -> N)
      (error : list bool -> jsstring) (n : nat) :
  forall path,
    attempt delay (unreachable latency error) path n =
    flat_map (fun k => [HttpGet; Wait (latency (path ++ repeat false k));
                        SetTimeout delay]) (seq 0 n)
    ++ [HttpGet; Wait (latency (path ++ repeat false n));
        Reject (error (path ++ repeat false n))].
Proof.
  induction n as [|k IH]; intros path.
  - rewrite (attempt_failed _ _ _ _ (latency path) (error path) eq_refl).
    simpl. now rewrite app_nil_r.
  - rewrite (attempt_failed _ _ _ _ (latency path) (error path) eq_refl), IH.
    rewrite <- cons_seq, <- seq_shift. cbn [flat_map repeat app].
    rewrite app_nil_r, flat_map_after_map, <- !app_assoc. cbn [app].
    do 4 f_equal. apply flat_map_ext. intros a. now rewrite <- app_assoc.
Qed.

(** C2.  With [retries = n] and a target that is always unreachable, the
    probe makes exactly [n + 1] GET requests and rejects only after the last
    of them; consecutive requests are separated by one timer of the fixed
    [delay] (so [n] timers, all of [delay]: no backoff), and at least
    [n * delay] passes before the rejection. *)
Theorem C2_unreachable_probe (n : nat) (delay : N) (latency : list bool -> N)
        (error : list bool -> jsstring) :
  let log := checkBackendHealth n delay (unreachable latency error) in
  let reason := error (nth_request n) in
  log = flat_map (fun k => [HttpGet; Wait (latency (nth_request k));
                            SetTimeout delay]) (seq 0 n)
        ++ [HttpGet; Wait (latency (nth_request n)); Reject reason]
  /\ attempts log = S n
  /\ timers log = repeat delay n
  /\ N.of_nat n * delay <= elapsed log
  /\ settled log = Some (Rejected reason)
  /\ exists before,
       log = before ++ [Reject reason]
       /\ settled before = None /\ attempts before = S n.
Proof.
  intros log reason. subst log reason. unfold checkBackendHealth, nth_request.
  split; [apply (unreachable_log delay latency error n [])|].
  destruct (attempt_unreachable delay latency error n [])
    as (before & E & Hs & Ha & Ht & He).
  change ([] ++ repeat false n) with (repeat false n) in E. rewrite E.
  rewrite attempts_app, timers_app, elapsed_app, (settled_app_None _ _ Hs), Ha, Ht.
  split; [unfold attempts; simpl; lia|].
  split; [simpl; apply app_nil_r|].
  split; [change (elapsed [Reject (error (repeat false n))]) with 0; lia|].
  split; [reflexivity|].
  exists before. auto.
Qed.

(** Scenario A: three retries, 100 ms apart, against an unreachable target. *)
Example scenario_A :
  let log := checkBackendHealth 3 100 (unreachable (fun _ => 1) (fun _ => lit "ECONNREFUSED")) in
  attempts log = 4%nat /\ 300 <= elapsed log
  /\ settled log = Some (Rejected (lit "ECONNREFUSED")).
Proof. vm_compute. repeat split; discriminate. Qed.

End HealthFacts.

(** ** Health checker: chains of attempts, and the socket timeout *)

Section HealthSequential.
Import JS Health.
Variable delay : N.
Variable env : environment.

(** When one handler runs on the request at hand and on each of its
    successors (each is answered on a connection that is then closed, or
    fails), the attempts form one chain.  The probe
    fulfils exactly when one of the requests it made got status 200. *)
Lemma sequential_fulfilled_iff (n : nat) :
  forall path,
    (forall k, (k <= n)%nat -> one_handler (env (path ++ repeat false k)) = true) ->
    let log := attempt delay env path n in
    settled log = Some Fulfilled <->
    exists k, (k < attempts log)%nat /\ ok (env (path ++ repeat false k)) = true.
Proof.
  induction n as [|m IH]; intros path Hq log; subst log;
    pose proof (Hq O (Nat.le_0_l _)) as H0; simpl in H0; rewrite app_nil_r in H0;
    destruct (env path) as [latency statusCode|latency error| |latency' statusCode'
                             |latency' statusCode' later' error'] eqn:E;
    try discriminate.
  - rewrite (attempt_answered _ _ _ _ _ _ E).
    destruct (statusCode =? 200) eqn:Es; simpl; split.
    + intros _. exists O. split; [unfold attempts; simpl; lia|].
      simpl. rewrite app_nil_r, E. exact Es.
    + reflexivity.
    + discriminate.
    + intros (k & Hk & Hok). unfold attempts in Hk. simpl in Hk.
      assert (k = O) by lia. subst k. simpl in Hok.
      rewrite app_nil_r, E in Hok. simpl in Hok. congruence.
  - rewrite (attempt_failed _ _ _ _ _ _ E). simpl. split; [discriminate|].
    intros (k & Hk & Hok). unfold attempts in Hk. simpl in Hk.
    assert (k = O) by lia. subst k. simpl in Hok.
    rewrite app_nil_r, E in Hok. discriminate.
  - rewrite (attempt_answered _ _ _ _ _ _ E).
    destruct (statusCode =? 200) eqn:Es.
    + simpl. split; [|reflexivity].
      intros _. exists O. split; [unfold attempts; simpl; lia|].
      simpl. rewrite app_nil_r, E. exact Es.
    + specialize (IH (path ++ [false])).
      assert (Hq' : forall k, (k <= m)%nat ->
                one_handler (env ((path ++ [false]) ++ repeat false k)) = true).
      { intros k Hk. rewrite <- app_assoc. apply (Hq (S k)). lia. }
      specialize (IH Hq'). cbv zeta in IH.
      change (settled (HttpGet :: Wait latency :: SetTimeout delay ::
                       attempt delay env (path ++ [false]) m))
        with (settled (attempt delay env (path ++ [false]) m)).
      rewrite IH. unfold attempts. simpl. split.
      * intros (k & Hk & Hok). exists (S k). split; [lia|].
        simpl. now rewrite <- app_assoc in Hok.
      * intros ([|k] & Hk & Hok).
        -- simpl in Hok. rewrite app_nil_r, E in Hok. simpl in Hok. congruence.
        -- exists k. split; [lia|]. now rewrite <- app_assoc.
  - rewrite (attempt_failed _ _ _ _ _ _ E).
    specialize (IH (path ++ [false])).
    assert (Hq' : forall k, (k <= m)%nat ->
              one_handler (env ((path ++ [false]) ++ repeat false k)) = true).
    { intros k Hk. rewrite <- app_assoc. apply (Hq (S k)). lia. }
    specialize (IH Hq'). cbv zeta in IH.
    change (settled (HttpGet :: Wait latency :: SetTimeout delay ::
                     attempt delay env (path ++ [false]) m))
      with (settled (attempt delay env (path ++ [false]) m)).
    rewrite IH. unfold attempts. simpl. split.
    * intros (k & Hk & Hok). exists (S k). split; [lia|].
      simpl. now rewrite <- app_assoc in Hok.
    * intros ([|k] & Hk & Hok).
      -- simpl in Hok. rewrite app_nil_r, E in Hok. discriminate.
      -- exists k. split; [lia|]. now rewrite <- app_assoc.
Qed.

(** In such a chain, when no request gets status 200 all [n + 1] attempts
    are made, one retry each, and the probe rejects with the reason of the
    last. *)
Lemma sequential_exhausted (n : nat) :
  forall path,
    (forall k, (k <= n)%nat -> one_handler (env (path ++ repeat false k)) = true) ->
    (forall k, (k <= n)%nat -> ok (env (path ++ repeat false k)) = false) ->
    let log := attempt delay env path n in
    attempts log = S n
    /\ timers log = repeat delay n
    /\ settled log = Some (Rejected (reason (env (path ++ repeat false n)))).
Proof.
  induction n as [|m IH]; intros path Hq Hno log; subst log;
    pose proof (Hq O (Nat.le_0_l _)) as H0;
    pose proof (Hno O (Nat.le_0_l _)) as H1;
    simpl in H0, H1; rewrite app_nil_r in H0, H1;
    destruct (env path) as [latency statusCode|latency error| |latency' statusCode'
                             |latency' statusCode' later' error'] eqn:E;
    try discriminate; simpl in H1.
  - rewrite (attempt_answered _ _ _ _ _ _ E), H1. simpl.
    now rewrite app_nil_r, E.
  - rewrite (attempt_failed _ _ _ _ _ _ E). simpl. now rewrite app_nil_r, E.
  - rewrite (attempt_answered _ _ _ _ _ _ E), H1.
    destruct (IH (path ++ [false])) as (Ha & Ht & Hs).
    + intros k Hk. rewrite <- app_assoc. apply (Hq (S k)). lia.
    + intros k Hk. rewrite <- app_assoc. apply (Hno (S k)). lia.
    + unfold attempts in *. simpl. rewrite Ha, Ht, Hs.
      now rewrite <- app_assoc.
  - rewrite (attempt_failed _ _ _ _ _ _ E).
    destruct (IH (path ++ [false])) as (Ha & Ht & Hs).
    + intros k Hk. rewrite <- app_assoc. apply (Hq (S k)). lia.
    + intros k Hk. rewrite <- app_assoc. apply (Hno (S k)). lia.
    + unfold attempts in *. simpl. rewrite Ha, Ht, Hs.
      now rewrite <- app_assoc.
Qed.

End HealthSequential.

Section HealthTimeout.
Import JS Health.

(** Against a target that never answers, every timed-out request is
    followed by two attempts, one set up by the [timeout] handler and one by
    the [error] handler its [req.destroy()] triggers: [2^(n+1) - 1] requests
    for [retries = n]. *)
Lemma mute_attempts (delay : N) (n : nat) :
  forall path, attempts (attempt delay mute path n) = (2 ^ (n + 1) - 1)%nat.
Proof.
  induction n as [|k IH]; intros path.
  - reflexivity.
  - rewrite (attempt_silent delay mute path (S k) eq_refl).
    change (attempts (HttpGet :: Wait socket_timeout :: ReqDestroy ::
              (SetTimeout delay :: attempt delay mute (path ++ [false]) k) ++
               SetTimeout delay :: attempt delay mute (path ++ [true]) k))
      with (S (attempts ((SetTimeout delay :: attempt delay mute (path ++ [false]) k) ++
               SetTimeout delay :: attempt delay mute (path ++ [true]) k))).
    rewrite attempts_app.
    change (attempts (SetTimeout delay :: attempt delay mute (path ++ [false]) k))
      with (attempts (attempt delay mute (path ++ [false]) k)).
    change (attempts (SetTimeout delay :: attempt delay mute (path ++ [true]) k))
      with (attempts (attempt delay mute (path ++ [true]) k)).
    rewrite !IH.
    replace (S k + 1)%nat with (S (k + 1)) by lia.
    rewrite Nat.pow_succ_r'.
    assert (1 <= 2 ^ (k + 1))%nat by (apply Nat.neq_0_lt_0, Nat.pow_nonzero; lia).
    lia.
Qed.

(** C5 (failing input).  [checkBackendHealth()] with its default arguments
    (one retry, 500 ms) when the first request runs into the socket timeout
    and the backend refuses the connections after that.  The [timeout]
    handler destroys the request and sets the timer of the retry; the
    [error] event of the destroyed request then runs the [error] handler,
    which sets a second timer: one timed-out attempt is followed by two
    attempts, three requests where one retry allows two. *)
Theorem C5_timeout_is_retried_twice :
  let env : environment :=
    fun path => match path with
                | [] => Silent
                | _ => Failed 1 (lit "connect ECONNREFUSED 127.0.0.1:8765")
                end in
  let log := checkBackendHealth 1 500 env in
  log = [HttpGet; Wait 5000; ReqDestroy;
         SetTimeout 500; HttpGet; Wait 1;
         Reject (lit "connect ECONNREFUSED 127.0.0.1:8765");
         SetTimeout 500; HttpGet; Wait 1;
         Reject (lit "connect ECONNREFUSED 127.0.0.1:8765")]
  /\ timers log = [500; 500]
  /\ attempts log = 3%nat.
Proof. vm_compute. repeat split; reflexivity. Qed.

End HealthTimeout.

(** ** Health checker: any environment, and the order of time *)

Section HealthAnyEnvironment.
Import JS Health.
Variable delay : N.
Variable env : environment.

Lemma attempt_kept_alive (path : list bool) (n : nat) (latency statusCode : N) :
  env path = KeptAlive latency statusCode ->
  attempt delay env path n =
  HttpGet :: Wait latency ::
  (if statusCode =? 200 then [Resolve]
   else match n with
        | O => [Reject (lit "Health check failed: " ++ String_of_N statusCode)]
        | S k => SetTimeout delay :: attempt delay env (path ++ [false]) k
        end) ++
  Wait socket_timeout :: ReqDestroy ::
  match n with
  | O => [Reject (lit "Health check timeout")]
  | S k => SetTimeout delay :: attempt delay env (path ++ [true]) k
  end.
Proof.
  intros E. destruct n; simpl; rewrite E; unfold on_response;
    now destruct (statusCode =? 200).
Qed.

Lemma attempt_reset (path : list bool) (n : nat) (latency statusCode later : N)
      (error : jsstring) :
  env path = Reset latency statusCode later error ->
  attempt delay env path n =
  HttpGet :: Wait latency ::
  (if statusCode =? 200 then [Resolve]
   else match n with
        | O => [Reject (lit "Health check failed: " ++ String_of_N statusCode)]
        | S k => SetTimeout delay :: attempt delay env (path ++ [false]) k
        end) ++
  Wait later ::
  match n with
  | O => [Reject error]
  | S k => SetTimeout delay :: attempt delay env (path ++ [true]) k
  end.
Proof.
  intros E. destruct n; simpl; rewrite E; unfold on_response;
    now destruct (statusCode =? 200).
Qed.

Lemma settled_app_Some (a b : list action) (r : settlement) :
  settled a = Some r -> settled (a ++ b) = Some r.
Proof.
  induction a as [|x a IH]; simpl; [discriminate|].
  destruct x; simpl; auto.
Qed.

Lemma settled_app_not_None (a b : list action) :
  settled a <> None \/ settled b <> None -> settled (a ++ b) <> None.
Proof.
  intros H. destruct (settled a) as [r|] eqn:E.
  - rewrite (settled_app_Some _ _ _ E). discriminate.
  - rewrite (settled_app_None _ _ E). destruct H as [H|H]; [congruence|exact H].
Qed.

Lemma timers_length_app (a b : list action) :
  List.length (timers (a ++ b))
  = (List.length (timers a) + List.length (timers b))%nat.
Proof. now rewrite timers_app, length_app. Qed.

(** Whatever the transport does, every attempt but the first was started by
    one timer, every timer has the [delay] of the call, some handler calls
    [resolve] or [reject], and [retries = n] bounds the requests by
    [2^(n+1) - 1]. *)
Lemma attempt_any_environment (n : nat) :
  forall path,
    let log := attempt delay env path n in
    attempts log = S (List.length (timers log))
    /\ Forall (eq delay) (timers log)
    /\ settled log <> None
    /\ (attempts log <= 2 ^ (n + 1) - 1)%nat.
Proof.
  induction n as [|k IH]; intros path log; subst log.
  - destruct (env path) as [latency statusCode|latency error| |latency statusCode
                             |latency statusCode later error] eqn:E.
    + rewrite (attempt_answered _ _ _ _ _ _ E).
      destruct (statusCode =? 200); unfold attempts; simpl;
        repeat split; auto; discriminate.
    + rewrite (attempt_failed _ _ _ _ _ _ E). unfold attempts; simpl.
      repeat split; auto; discriminate.
    + rewrite (attempt_silent _ _ _ _ E). unfold attempts; simpl.
      repeat split; auto; discriminate.
    + rewrite (attempt_kept_alive _ _ _ _ E).
      destruct (statusCode =? 200); unfold attempts; simpl;
        repeat split; auto; discriminate.
    + rewrite (attempt_reset _ _ _ _ _ _ E).
      destruct (statusCode =? 200); unfold attempts; simpl;
        repeat split; auto; discriminate.
  - assert (Hpow : (2 ^ (S k + 1) = 2 * 2 ^ (k + 1))%nat)
      by (replace (S k + 1)%nat with (S (k + 1)) by lia; apply Nat.pow_succ_r').
    assert (Hpos : (1 <= 2 ^ (k + 1))%nat)
      by (apply Nat.neq_0_lt_0, Nat.pow_nonzero; lia).
    destruct (IH (path ++ [false])) as (Ha1 & Ht1 & Hs1 & Hb1).
    destruct (IH (path ++ [true])) as (Ha2 & Ht2 & Hs2 & Hb2).
    set (A1 := attempt delay env (path ++ [false]) k) in *.
    set (A2 := attempt delay env (path ++ [true]) k) in *.
    destruct (env path) as [latency statusCode|latency error| |latency statusCode
                             |latency statusCode later error] eqn:E.
    + rewrite (attempt_answered _ _ _ _ _ _ E). fold A1.
      destruct (statusCode =? 200).
      * unfold attempts; simpl. repeat split; auto; try discriminate. lia.
      * unfold attempts in *. simpl. rewrite Ha1.
        repeat split; auto. lia.
    + rewrite (attempt_failed _ _ _ _ _ _ E). fold A1.
      unfold attempts in *. simpl. rewrite Ha1.
      repeat split; auto. lia.
    + rewrite (attempt_silent _ _ _ _ E). fold A1 A2.
      change (attempts (HttpGet :: Wait socket_timeout :: ReqDestroy ::
                (SetTimeout delay :: A1) ++ SetTimeout delay :: A2))
        with (S (attempts ((SetTimeout delay :: A1) ++ SetTimeout delay :: A2))).
      change (timers (HttpGet :: Wait socket_timeout :: ReqDestroy ::
                (SetTimeout delay :: A1) ++ SetTimeout delay :: A2))
        with (timers ((SetTimeout delay :: A1) ++ SetTimeout delay :: A2)).
      change (settled (HttpGet :: Wait socket_timeout :: ReqDestroy ::
                (SetTimeout delay :: A1) ++ SetTimeout delay :: A2))
        with (settled (A1 ++ SetTimeout delay :: A2)).
      rewrite attempts_app, timers_app.
      change (attempts (SetTimeout delay :: A1)) with (attempts A1).
      change (attempts (SetTimeout delay :: A2)) with (attempts A2).
      change (timers (SetTimeout delay :: A1)) with (delay :: timers A1).
      change (timers (SetTimeout delay :: A2)) with (delay :: timers A2).
      rewrite length_app. simpl List.length.
      split; [lia|]. split; [|split; [|lia]].
      * apply Forall_app. split; constructor; auto.
      * apply settled_app_not_None. now left.
    + rewrite (attempt_kept_alive _ _ _ _ E). fold A1 A2.
      set (first := if statusCode =? 200 then [Resolve] else SetTimeout delay :: A1).
      set (second := Wait socket_timeout :: ReqDestroy :: SetTimeout delay :: A2).
      change (attempts (HttpGet :: Wait latency :: first ++ second))
        with (S (attempts (first ++ second))).
      change (timers (HttpGet :: Wait latency :: first ++ second))
        with (timers (first ++ second)).
      change (settled (HttpGet :: Wait latency :: first ++ second))
        with (settled (first ++ second)).
      rewrite attempts_app, timers_app.
      change (attempts second) with (attempts A2).
      change (timers second) with (delay :: timers A2).
      rewrite length_app. simpl List.length.
      assert (F : attempts first = List.length (timers first)
                  /\ Forall (eq delay) (timers first)
                  /\ (attempts first <= attempts A1)%nat).
      { subst first. destruct (statusCode =? 200).
        - split; [reflexivity|]. split; [constructor|].
          unfold attempts; simpl; lia.
        - change (attempts (SetTimeout delay :: A1)) with (attempts A1).
          change (timers (SetTimeout delay :: A1)) with (delay :: timers A1).
          simpl List.length. split; [lia|]. split; [constructor; auto|lia]. }
      destruct F as (F1 & F2 & F3).
      split; [lia|]. split; [|split; [|lia]].
      * apply Forall_app. split; [exact F2|constructor; auto].
      * apply settled_app_not_None. right. exact Hs2.
    + rewrite (attempt_reset _ _ _ _ _ _ E). fold A1 A2.
      set (first := if statusCode =? 200 then [Resolve] else SetTimeout delay :: A1).
      set (second := Wait later :: SetTimeout delay :: A2).
      change (attempts (HttpGet :: Wait latency :: first ++ second))
        with (S (attempts (first ++ second))).
      change (timers (HttpGet :: Wait latency :: first ++ second))
        with (timers (first ++ second)).
      change (settled (HttpGet :: Wait latency :: first ++ second))
        with (settled (first ++ second)).
      rewrite attempts_app, timers_app.
      change (attempts second) with (attempts A2).
      change (timers second) with (delay :: timers A2).
      rewrite length_app. simpl List.length.
      assert (F : attempts first = List.length (timers first)
                  /\ Forall (eq delay) (timers first)
                  /\ (attempts first <= attempts A1)%nat).
      { subst first. destruct (statusCode =? 200).
        - split; [reflexivity|]. split; [constructor|].
          unfold attempts; simpl; lia.
        - change (attempts (SetTimeout delay :: A1)) with (attempts A1).
          change (timers (SetTimeout delay :: A1)) with (delay :: timers A1).
          simpl List.length. split; [lia|]. split; [constructor; auto|lia]. }
      destruct F as (F1 & F2 & F3).
      split; [lia|]. split; [|split; [|lia]].
      * apply Forall_app. split; [exact F2|constructor; auto].
      * apply settled_app_not_None. right. exact Hs2.
Qed.

(** Only a handler of a last attempt rejects: a log that holds a [reject]
    holds at least [retries + 1] requests. *)
Lemma reject_after_all_retries (n : nat) :
  forall path e,
    In (Reject e) (attempt delay env path n) ->
    (S n <= attempts (attempt delay env path n))%nat.
Proof.
  induction n as [|k IH]; intros path e H.
  - destruct (attempt_any_environment O path) as (Ha & _). cbv zeta in Ha.
    rewrite Ha. lia.
  - pose proof (IH (path ++ [false]) e) as I1.
    pose proof (IH (path ++ [true]) e) as I2.
    set (A1 := attempt delay env (path ++ [false]) k) in *.
    set (A2 := attempt delay env (path ++ [true]) k) in *.
    destruct (env path) as [latency statusCode|latency error| |latency statusCode
                             |latency statusCode later error] eqn:E.
    + rewrite (attempt_answered _ _ _ _ _ _ E) in *. fold A1 in H |- *.
      destruct (statusCode =? 200).
      * simpl in H. intuition discriminate.
      * simpl in H. destruct H as [H|[H|[H|H]]]; try discriminate.
        specialize (I1 H). unfold attempts in *. simpl. lia.
    + rewrite (attempt_failed _ _ _ _ _ _ E) in *. fold A1 in H |- *.
      simpl in H. destruct H as [H|[H|[H|H]]]; try discriminate.
      specialize (I1 H). unfold attempts in *. simpl. lia.
    + rewrite (attempt_silent _ _ _ _ E) in *. fold A1 A2 in H |- *.
      change (attempts (HttpGet :: Wait socket_timeout :: ReqDestroy ::
                (SetTimeout delay :: A1) ++ SetTimeout delay :: A2))
        with (S (attempts ((SetTimeout delay :: A1) ++ SetTimeout delay :: A2))).
      rewrite attempts_app.
      change (attempts (SetTimeout delay :: A1)) with (attempts A1).
      change (attempts (SetTimeout delay :: A2)) with (attempts A2).
      simpl in H. destruct H as [H|[H|[H|[H|H]]]]; try discriminate.
      apply in_app_or in H as [H|[H|H]]; try discriminate.
      * specialize (I1 H). lia.
      * specialize (I2 H). lia.
    + rewrite (attempt_kept_alive _ _ _ _ E) in *. fold A1 A2 in H |- *.
      set (first := if statusCode =? 200 then [Resolve] else SetTimeout delay :: A1) in *.
      set (second := Wait socket_timeout :: ReqDestroy :: SetTimeout delay :: A2) in *.
      change (attempts (HttpGet :: Wait latency :: first ++ second))
        with (S (attempts (first ++ second))).
      rewrite attempts_app. change (attempts second) with (attempts A2).
      simpl in H. destruct H as [H|[H|H]]; try discriminate.
      apply in_app_or in H as [H|H].
      * subst first. destruct (statusCode =? 200).
        -- simpl in H. intuition discriminate.
        -- simpl in H. destruct H as [H|H]; [discriminate|].
           specialize (I1 H).
           change (attempts (SetTimeout delay :: A1)) with (attempts A1). lia.
      * subst second. simpl in H. destruct H as [H|[H|[H|H]]]; try discriminate.
        specialize (I2 H). lia.
    + rewrite (attempt_reset _ _ _ _ _ _ E) in *. fold A1 A2 in H |- *.
      set (first := if statusCode =? 200 then [Resolve] else SetTimeout delay :: A1) in *.
      set (second := Wait later :: SetTimeout delay :: A2) in *.
      change (attempts (HttpGet :: Wait latency :: first ++ second))
        with (S (attempts (first ++ second))).
      rewrite attempts_app. change (attempts second) with (attempts A2).
      simpl in H. destruct H as [H|[H|H]]; try discriminate.
      apply in_app_or in H as [H|H].
      * subst first. destruct (statusCode =? 200).
        -- simpl in H. intuition discriminate.
        -- simpl in H. destruct H as [H|H]; [discriminate|].
           specialize (I1 H).
           change (attempts (SetTimeout delay :: A1)) with (attempts A1). lia.
      * subst second. simpl in H. destruct H as [H|[H|H]]; try discriminate.
        specialize (I2 H). lia.
Qed.

(** The timed log holds the actions of the log, in its order. *)
Lemma attempt_at_actions (n : nat) :
  forall path now,
    map snd (attempt_at delay env path n now) = attempt delay env path n.
Proof.
  assert (P : forall (time : N) (acts : list action),
             map snd (map (pair time) acts) = acts).
  { intros time acts. rewrite map_map. simpl. apply map_id. }
  induction n as [|k IH]; intros path now; simpl;
    destruct (env path) as [latency statusCode|latency error| |latency statusCode
                             |latency statusCode later error];
    simpl; rewrite ?map_app, ?P; simpl; rewrite ?P;
    repeat match goal with
           | |- context [if ?b then _ else _] => destruct b
           end;
    simpl; rewrite ?map_app, ?IH, ?P; simpl; rewrite ?IH; reflexivity.
Qed.

(** Nothing of an attempt happens before the attempt. *)
Lemma attempt_at_after (n : nat) :
  forall path now,
    Forall (fun p => now <= fst p) (attempt_at delay env path n now).
Proof.
  assert (P : forall (now time : N) (acts : list action),
             now <= time -> Forall (fun p : N * action => now <= fst p)
                                   (map (pair time) acts)).
  { intros now time acts H. apply Forall_forall. intros p Hp.
    apply in_map_iff in Hp as (a & <- & _). exact H. }
  assert (W : forall (now later : N) l,
             now <= later -> Forall (fun p : N * action => later <= fst p) l ->
             Forall (fun p : N * action => now <= fst p) l).
  { intros now later l H F. eapply Forall_impl; [|exact F].
    simpl. intros p Hp. lia. }
  induction n as [|k IH]; intros path now; simpl;
    destruct (env path) as [latency statusCode|latency error| |latency statusCode
                             |latency statusCode later error];
    repeat (apply Forall_cons; simpl; [lia|]);
    repeat first
      [ apply Forall_app; split
      | apply Forall_cons; simpl; [lia|]
      | apply Forall_nil
      | apply P; lia
      | match goal with
        | |- context [if ?b then _ else _] => destruct b
        end
      | eapply W; [|apply IH]; lia ].
Qed.

Lemma first_settled_none (l : list (N * action)) :
  settled (map snd l) = None -> first_settled l = None.
Proof.
  induction l as [|[time a] l IH]; simpl; [reflexivity|].
  destruct a; simpl; auto; discriminate.
Qed.

Lemma first_settled_some (l : list (N * action)) :
  settled (map snd l) <> None -> first_settled l <> None.
Proof.
  induction l as [|[time a] l IH]; simpl; [auto|].
  destruct a; simpl; auto; intros _;
    destruct (first_settled l) as [[time' s']|]; try discriminate;
    destruct (time' <? time); discriminate.
Qed.

(** The settlement taken was called by a handler of the log. *)
Lemma first_settled_in (l : list (N * action)) (time : N) (s : settlement) :
  first_settled l = Some (time, s) ->
  exists a, In (time, a) l /\ settlement_of a = Some s.
Proof.
  revert time s. induction l as [|[t a] l IH]; intros time s; simpl; [discriminate|].
  destruct (settlement_of a) as [s0|] eqn:Ea.
  - destruct (first_settled l) as [[t' s']|] eqn:El.
    + destruct (t' <? t).
      * intros H. injection H as <- <-.
        destruct (IH t' s' eq_refl) as (a' & I & S). exists a'. auto.
      * intros H. injection H as <- <-. exists a. auto.
    + intros H. injection H as <- <-. exists a. auto.
  - intros H. destruct (IH time s H) as (a' & I & S). exists a'. auto.
Qed.

Lemma first_settled_skip (a : list (N * action)) (b : list (N * action)) :
  settled (map snd a) = None -> first_settled (a ++ b) = first_settled b.
Proof.
  induction a as [|[time x] a IH]; simpl; [reflexivity|].
  destruct x; simpl; auto; discriminate.
Qed.

(** A settlement that nothing in the rest of the log comes before is the
    one taken. *)
Lemma first_settled_head (time : N) (x : action) (s : settlement)
      (l : list (N * action)) :
  settlement_of x = Some s ->
  Forall (fun p => time <= fst p) l ->
  first_settled ((time, x) :: l) = Some (time, s).
Proof.
  intros Hx Hl. simpl. rewrite Hx.
  destruct (first_settled l) as [[time' s']|] eqn:E; [|reflexivity].
  destruct (first_settled_in _ _ _ E) as (a & I & _).
  rewrite Forall_forall in Hl. specialize (Hl _ I). simpl in Hl.
  destruct (time' <? time) eqn:C; [|reflexivity].
  apply N.ltb_lt in C. lia.
Qed.

(** An attempt begins with its request; the handler that runs first comes
    when the latency has passed, and nothing else comes before it. *)
Lemma attempt_at_first_handler (n : nat) (path : list bool) (now : N) :
  exists rest,
    attempt_at delay env path n now
    = (now, HttpGet) :: (now, Wait (latency_of (env path))) ::
      map (pair (now + latency_of (env path)))
          (first_handler delay n (env path)) ++ rest
    /\ Forall (fun p => now + latency_of (env path) <= fst p) rest.
Proof.
  assert (P : forall (now time : N) (acts : list action),
             now <= time -> Forall (fun p : N * action => now <= fst p)
                                   (map (pair time) acts)).
  { intros t time acts H. apply Forall_forall. intros p Hp.
    apply in_map_iff in Hp as (a & <- & _). exact H. }
  assert (W : forall (now later : N) l,
             now <= later -> Forall (fun p : N * action => later <= fst p) l ->
             Forall (fun p : N * action => now <= fst p) l).
  { intros t later l H F. eapply Forall_impl; [|exact F].
    simpl. intros p Hp. lia. }
  destruct n as [|k]; simpl;
    destruct (env path) as [latency statusCode|latency error| |latency statusCode
                             |latency statusCode later error];
    simpl; rewrite <- ?app_assoc; eexists; (split; [reflexivity|]);
    repeat first
      [ apply Forall_app; split
      | apply Forall_cons; simpl; [lia|]
      | apply Forall_nil
      | apply P; lia
      | match goal with
        | |- context [if ?b then _ else _] => destruct b
        end
      | eapply W; [|apply attempt_at_after]; lia ].
Qed.

Lemma first_settled_request (now latency : N) (l : list (N * action)) :
  first_settled ((now, HttpGet) :: (now, Wait latency) :: l) = first_settled l.
Proof. reflexivity. Qed.

(** A request that gets status 200 fulfils the promise when its response
    comes, unless the promise is settled by then. *)
Lemma first_settled_ok (n : nat) (path : list bool) (now : N) :
  ok (env path) = true ->
  first_settled (attempt_at delay env path n now)
  = Some (now + latency_of (env path), Fulfilled).
Proof.
  intros H. destruct (attempt_at_first_handler n path now) as (rest & -> & F).
  rewrite first_settled_request.
  destruct (env path) as [latency statusCode|latency error| |latency statusCode
                             |latency statusCode later error];
    try discriminate; simpl in H; unfold first_handler, on_response; rewrite H;
    now apply first_settled_head.
Qed.

(** A last attempt that does not get status 200 rejects the promise with
    its reason when its first handler runs. *)
Lemma first_settled_last (path : list bool) (now : N) :
  ok (env path) = false ->
  first_settled (attempt_at delay env path 0 now)
  = Some (now + latency_of (env path), Rejected (reason (env path))).
Proof.
  intros H. destruct (attempt_at_first_handler O path now) as (rest & -> & F).
  rewrite first_settled_request.
  destruct (env path) as [latency statusCode|latency error| |latency statusCode
                             |latency statusCode later error];
    simpl in H; unfold first_handler, on_response, on_error, on_timeout;
    rewrite ?H; simpl map; cbn [app];
    try (now apply first_settled_head).
  change (first_settled ((now + latency_of Silent, ReqDestroy) ::
            (now + latency_of Silent, Reject (lit "Health check timeout")) :: rest))
    with (first_settled
            ((now + latency_of Silent, Reject (lit "Health check timeout")) :: rest)).
  apply (first_settled_head (now + latency_of Silent)
           (Reject (lit "Health check timeout"))
           (Rejected (reason Silent)) rest eq_refl F).
Qed.

(** A request with one handler that does not get status 200 and is not
    the last: the promise is left to the attempt its timer starts. *)
Lemma first_settled_retry (k : nat) (path : list bool) (now : N) :
  one_handler (env path) = true -> ok (env path) = false ->
  first_settled (attempt_at delay env path (S k) now)
  = first_settled (attempt_at delay env (path ++ [false]) k
                              (now + latency_of (env path) + delay)).
Proof.
  intros H1 H2. simpl attempt_at.
  destruct (env path) as [latency statusCode|latency error| |latency statusCode
                             |latency statusCode later error];
    try discriminate; simpl in H2; unfold on_response, on_error;
    rewrite ?H2; reflexivity.
Qed.

(** Of two logs side by side, the earlier settlement is taken, the one of
    the first log when they come together. *)
Lemma first_settled_app (a b : list (N * action)) :
  first_settled (a ++ b)
  = match first_settled a, first_settled b with
    | Some (ta, sa), Some (tb, sb) =>
        if tb <? ta then Some (tb, sb) else Some (ta, sa)
    | Some x, None => Some x
    | None, later => later
    end.
Proof.
  induction a as [|[time x] a IH]; simpl.
  - now destruct (first_settled b) as [[tb sb]|].
  - rewrite IH. destruct (settlement_of x) as [s|]; [|reflexivity].
    destruct (first_settled a) as [[ta sa]|], (first_settled b) as [[tb sb]|];
      repeat match goal with
             | |- context [?u <? ?v] => destruct (N.ltb_spec u v)
             end; try reflexivity; lia.
Qed.

(** A settlement of the first log that nothing of the second comes before
    is the one taken. *)
Lemma first_settled_app_early (a b : list (N * action)) (time : N) (s : settlement) :
  first_settled a = Some (time, s) ->
  (forall t x, In (t, x) b -> settlement_of x <> None -> time <= t) ->
  first_settled (a ++ b) = Some (time, s).
Proof.
  intros Ha Hb. rewrite first_settled_app, Ha.
  destruct (first_settled b) as [[tb sb]|] eqn:E; [|reflexivity].
  destruct (first_settled_in _ _ _ E) as (x & I & S).
  assert (time <= tb) by (apply (Hb tb x I); congruence).
  destruct (N.ltb_spec tb time); [lia|reflexivity].
Qed.

(** A request answered with another status than 200 on a connection that
    is kept alive, with retries left: its response sets the timer of one
    attempt, and 5000 ms later its [timeout] sets the timer of another. *)
Lemma attempt_at_kept_alive_retry (k : nat) (path : list bool) (now : N)
      (latency statusCode : N) :
  env path = KeptAlive latency statusCode ->
  (statusCode =? 200) = false ->
  attempt_at delay env path (S k) now
  = (now, HttpGet) :: (now, Wait latency) ::
    ((now + latency, SetTimeout delay) ::
     attempt_at delay env (path ++ [false]) k (now + latency + delay)) ++
    (now + latency, Wait socket_timeout) ::
    (now + latency + socket_timeout, ReqDestroy) ::
    (now + latency + socket_timeout, SetTimeout delay) ::
    attempt_at delay env (path ++ [true]) k (now + latency + socket_timeout + delay).
Proof.
  intros E H. simpl attempt_at. rewrite E. unfold on_response. rewrite H.
  reflexivity.
Qed.

(** A probe with one retry whose first request does not run into the
    socket timeout and is not answered on a connection that breaks, the
    first handler of the second request coming within those 5000 ms: the
    promise is fulfilled when the first request or else the second gets
    status 200, and is rejected with the reason of the second otherwise.  A
    third request, started by the [timeout] of a first request on a
    connection that is kept alive, comes too late to count. *)
Lemma promise_one_retry :
  is_silent (env []) = false ->
  is_reset (env []) = false ->
  latency_of (env [false]) <= socket_timeout ->
  promise 1 delay env
  = if ok (env []) || ok (env [false]) then Some Fulfilled
    else Some (Rejected (reason (env [false]))).
Proof.
  intros Hs Hr Hl. unfold promise, timeline.
  destruct (ok (env [])) eqn:Hok.
  - now rewrite (first_settled_ok 1 [] 0 Hok).
  - cbn [orb].
    assert (Second : forall now,
              first_settled (attempt_at delay env [false] 0 now)
              = Some (now + latency_of (env [false]),
                      if ok (env [false]) then Fulfilled
                      else Rejected (reason (env [false])))).
    { intros now. destruct (ok (env [false])) eqn:Hok1.
      - apply (first_settled_ok 0 [false] now Hok1).
      - apply (first_settled_last [false] now Hok1). }
    destruct (one_handler (env [])) eqn:Hone.
    + rewrite (first_settled_retry 0 [] 0 Hone Hok).
      change ([] ++ [false]) with [false]. rewrite Second.
      now destruct (ok (env [false])).
    + destruct (env []) as [latency statusCode|latency error| |latency statusCode
                             |latency statusCode later error] eqn:E;
        try discriminate. simpl in Hok.
      rewrite (attempt_at_kept_alive_retry 0 [] 0 latency statusCode E Hok).
      rewrite first_settled_request.
      change ([] ++ [false]) with [false]. change ([] ++ [true]) with [true].
      cbn [app].
      change (first_settled
                ((0 + latency, SetTimeout delay) ::
                 attempt_at delay env [false] 0 (0 + latency + delay) ++
                 (0 + latency, Wait socket_timeout) ::
                 (0 + latency + socket_timeout, ReqDestroy) ::
                 (0 + latency + socket_timeout, SetTimeout delay) ::
                 attempt_at delay env [true] 0 (0 + latency + socket_timeout + delay)))
        with (first_settled
                (attempt_at delay env [false] 0 (0 + latency + delay) ++
                 (0 + latency, Wait socket_timeout) ::
                 (0 + latency + socket_timeout, ReqDestroy) ::
                 (0 + latency + socket_timeout, SetTimeout delay) ::
                 attempt_at delay env [true] 0 (0 + latency + socket_timeout + delay))).
      rewrite (first_settled_app_early _ _ _ _ (Second _)).
      * now destruct (ok (env [false])).
      * pose proof (attempt_at_after 0 [true] (0 + latency + socket_timeout + delay)) as A.
        rewrite Forall_forall in A.
        intros t x [I|[I|[I|I]]] Hx;
          try (injection I as <- <-; now contradiction Hx).
        specialize (A _ I). simpl in A. lia.
Qed.

(** The promise is settled, in every environment. *)
Lemma promise_settles (n : nat) : promise n delay env <> None.
Proof.
  unfold promise, timeline.
  destruct (first_settled (attempt_at delay env [] n 0)) eqn:E; [discriminate|].
  exfalso. revert E. apply first_settled_some. rewrite attempt_at_actions.
  apply (attempt_any_environment n []).
Qed.

(** A rejected promise was rejected by a handler of the log. *)
Lemma promise_rejected_in (n : nat) (e : jsstring) :
  promise n delay env = Some (Rejected e) ->
  In (Reject e) (checkBackendHealth n delay env).
Proof.
  unfold promise, timeline, checkBackendHealth.
  destruct (first_settled (attempt_at delay env [] n 0)) as [[time s]|] eqn:E;
    [|discriminate].
  simpl. intros H. injection H as ->.
  destruct (first_settled_in _ _ _ E) as (a & I & S).
  destruct a; try discriminate. injection S as ->.
  rewrite <- (attempt_at_actions n [] 0).
  apply in_map_iff. now exists (time, Reject e).
Qed.

End HealthAnyEnvironment.

(** ** Process supervisor *)

Section SupervisorFacts.
Import JS Supervisor.

Lemma run_app (evs evs' : list event) (w : state * start_call) :
  run (evs ++ evs') w = run evs' (run evs w).
Proof. apply fold_left_app. Qed.

(** Output without marker and a [close] leave the call as it was after the
    spawn: not ready, promise pending, no health check started. *)
Lemma quiet_keeps_waiting (evs : list event) :
  forall w,
    forallb quiet evs = true ->
    isBackendReady (fst w) = false ->
    snd w = {| result := Pending; spawned := true; health_checks := [];
               awaiting := false |} ->
    isBackendReady (fst (run evs w)) = false
    /\ snd (run evs w) = {| result := Pending; spawned := true;
                            health_checks := []; awaiting := false |}.
Proof.
  induction evs as [|e evs IH]; intros [s c] Hq Hr Hc; simpl in *; [auto|].
  apply andb_prop in Hq as [He Hq]. subst c.
  apply IH; [exact Hq| |];
    destruct e as [data|data| | | |]; simpl in He; try discriminate;
    unfold step; simpl; unfold on_output;
    try (apply negb_true_iff in He; rewrite He); auto.
Qed.

(** Output without marker and a [close] leave any call as it is, and the
    flag unset. *)
Lemma quiet_keeps_call (evs : list event) :
  forall w,
    forallb quiet evs = true ->
    isBackendReady (fst w) = false ->
    isBackendReady (fst (run evs w)) = false /\ snd (run evs w) = snd w.
Proof.
  induction evs as [|e evs IH]; intros [s c] Hq Hr; simpl in *; [auto|].
  apply andb_prop in Hq as [He Hq].
  assert (S : isBackendReady (fst (step (s, c) e)) = false
              /\ snd (step (s, c) e) = c).
  { unfold step. cbn [snd]. destruct (spawned c); cbn [negb]; [|now split].
    destruct e as [data|data| | | |]; simpl in He; try discriminate;
      unfold on_output, on_close;
      try (apply negb_true_iff in He; rewrite He); now split. }
  destruct S as [S1 S2].
  destruct (IH (step (s, c) e) Hq S1) as [R1 R2].
  split; [exact R1|]. now rewrite R2.
Qed.

(** A promise that is settled stays as it is, whatever happens. *)
Lemma settled_call_stays (evs : list event) :
  forall w,
    result (snd w) <> Pending ->
    result (snd (run evs w)) = result (snd w).
Proof.
  induction evs as [|e evs IH]; intros [s c] H; simpl in *; [reflexivity|].
  assert (S : result (snd (step (s, c) e)) = result c).
  { unfold step. cbn [snd]. destruct (spawned c) eqn:Sp; cbn [negb];
      [|reflexivity].
    destruct (result c) eqn:R; [now contradiction H| |];
      destruct e as [data|data|perror| | |failure];
      unfold on_output, on_close, on_startup_timeout, on_health_settled,
             resolve, reject;
      cbn [fst snd result];
      repeat match goal with
             | |- context [if ?b then _ else _] => destruct b
             | |- context [match ?f with Some _ => _ | None => _ end] =>
                 destruct f
             end;
      cbn [fst snd result]; rewrite ?R; cbn [result]; rewrite ?R; reflexivity. }
  rewrite (IH (step (s, c) e)); [exact S|]. now rewrite S.
Qed.

(** C6, as the code has it.  The child process spawned with the readiness
    flag unset; neither a process error nor a readiness marker comes
    before the 3000 ms timer, which starts [checkBackendHealth(5, 1000)],
    nor while that check is under way; the check rejects.  Then the promise
    of [startPythonBackend] is not rejected: it resolves with [false], and
    stays so whatever happens afterwards.  The check started has five
    retries: when it rejects it has made at least six requests and at most
    63, with timers of 1000 ms. *)
Theorem C6_failed_fallback_resolves_false
        (s : state) (scriptPath : jsstring) (child : nat)
        (before between after : list event) (failure : jsstring) :
  isBackendReady s = false ->
  forallb quiet before = true ->
  forallb quiet between = true ->
  let probed := run (before ++ StartupTimeout :: between
                     ++ [HealthCheckSettled (Some failure)])
                    (startPythonBackend true scriptPath child s) in
  result (snd probed) = Resolved false
  /\ result (snd (run after probed)) = Resolved false
  /\ health_checks (snd probed) = [(5%nat, 1000)]
  /\ isBackendReady (fst probed) = false
  /\ forall env e,
       Health.promise 5 1000 env = Some (Health.Rejected e) ->
       (6 <= Health.attempts (Health.checkBackendHealth 5 1000 env) <= 63)%nat
       /\ Forall (eq 1000) (Health.timers (Health.checkBackendHealth 5 1000 env)).
Proof.
  intros Hr Hq1 Hq2 probed.
  assert (P : result (snd probed) = Resolved false
              /\ health_checks (snd probed) = [(5%nat, 1000)]
              /\ isBackendReady (fst probed) = false).
  { subst probed. rewrite run_app.
    destruct (quiet_keeps_waiting before (startPythonBackend true scriptPath child s)
                Hq1 Hr eq_refl) as [Hr1 Hc1].
    destruct (run before (startPythonBackend true scriptPath child s)) as [s1 c1].
    simpl in Hr1, Hc1. subst c1.
    change (run (StartupTimeout :: between ++ [HealthCheckSettled (Some failure)])
                (s1, {| result := Pending; spawned := true; health_checks := [];
                        awaiting := false |}))
      with (run (between ++ [HealthCheckSettled (Some failure)])
                (step (s1, {| result := Pending; spawned := true;
                              health_checks := []; awaiting := false |})
                      StartupTimeout)).
    assert (St : step (s1, {| result := Pending; spawned := true;
                              health_checks := []; awaiting := false |})
                      StartupTimeout
                 = (s1, {| result := Pending; spawned := true;
                           health_checks := [(5%nat, 1000)]; awaiting := true |})).
    { unfold step, on_startup_timeout. simpl. now rewrite Hr1. }
    rewrite St, run_app.
    destruct (quiet_keeps_call between
                (s1, {| result := Pending; spawned := true;
                        health_checks := [(5%nat, 1000)]; awaiting := true |})
                Hq2 Hr1) as [Hr2 Hc2].
    destruct (run between _) as [s2 c2].
    simpl in Hr2, Hc2. subst c2.
    unfold run. simpl. unfold step. simpl. auto. }
  destruct P as (P1 & P2 & P3).
  split; [exact P1|]. split.
  { rewrite <- P1. apply settled_call_stays. rewrite P1. discriminate. }
  split; [exact P2|]. split; [exact P3|].
  intros env e H.
  pose proof (promise_rejected_in 1000 env 5 e H) as I.
  pose proof (reject_after_all_retries 1000 env 5 [] e I) as A.
  destruct (attempt_any_environment 1000 env 5 []) as (_ & T & _ & B).
  cbv zeta in T, B. fold (Health.checkBackendHealth 5 1000 env) in A, T, B.
  split; [|exact T]. split; [exact A|]. simpl in B. lia.
Qed.

End SupervisorFacts.

Section SupervisorScenarios.
Import JS Supervisor.

Lemma C6_failed_fallback_witness :
  let s := {| pythonProcess := None; isBackendReady := false; kills := [] |} in
  let before := [Stdout (wire "Loading tools"); Stderr (wire "INFO: Waiting for database")] in
  let between := [Stderr (wire "INFO: Still waiting")] in
  let after := [Stderr (wire "INFO: Uvicorn running on http://127.0.0.1:8765")] in
  let probed := run (before ++ StartupTimeout :: between
                     ++ [HealthCheckSettled (Some (lit "connect ECONNREFUSED 127.0.0.1:8765"))])
                    (startPythonBackend true (lit "python/msconsole_server.py") 1 s) in
  isBackendReady s = false /\ forallb quiet before = true
  /\ forallb quiet between = true
  /\ result (snd probed) = Resolved false
  /\ result (snd (run after probed)) = Resolved false.
Proof.
  intros s before between after probed.
  assert (Q1 : forallb quiet before = true) by (vm_compute; reflexivity).
  assert (Q2 : forallb quiet between = true) by (vm_compute; reflexivity).
  split; [reflexivity|]. split; [exact Q1|]. split; [exact Q2|].
  destruct (C6_failed_fallback_resolves_false s (lit "python/msconsole_server.py") 1
              before between after (lit "connect ECONNREFUSED 127.0.0.1:8765")
              eq_refl Q1 Q2) as (R1 & R2 & _).
  split; [exact R1|exact R2].
Defined.

(** C6 (counterexamples).  No marker is observed within the 3000 ms and
    the fallback check fails, and yet the promise is not resolved with
    [false]: when the child process reports an error (the interpreter is
    missing, say) the promise is rejected with that error; when a marker
    arrives after the timer, while the check is under way, the promise is
    resolved with [true].  And the fallback check, five retries, makes six
    requests against an unreachable backend and 63 against one that never
    answers, not five. *)
Lemma C6_rejected_or_resolved_true :
  let s := {| pythonProcess := None; isBackendReady := false; kills := [] |} in
  let refused := lit "connect ECONNREFUSED 127.0.0.1:8765" in
  let spawn_error := [ProcessError (lit "spawn python3 ENOENT"); StartupTimeout;
                      HealthCheckSettled (Some refused)] in
  let late_marker := [Stdout (wire "Loading tools"); StartupTimeout;
                      Stderr (wire "INFO: Uvicorn running on http://127.0.0.1:8765");
                      HealthCheckSettled (Some refused)] in
  let start := startPythonBackend true (lit "python/msconsole_server.py") 1 s in
  health_checks (snd (run spawn_error start)) = [(5%nat, 1000)]
  /\ result (snd (run spawn_error start)) = Rejected (lit "spawn python3 ENOENT")
  /\ forallb quiet [Stdout (wire "Loading tools")] = true
  /\ health_checks (snd (run late_marker start)) = [(5%nat, 1000)]
  /\ result (snd (run late_marker start)) = Resolved true
  /\ Health.attempts (Health.checkBackendHealth 5 1000
       (Health.unreachable (fun _ => 1) (fun _ => refused)))
     = 6%nat
  /\ Health.attempts (Health.checkBackendHealth 5 1000 Health.mute) = 63%nat.
Proof. vm_compute. repeat split; reflexivity. Qed.

(** C7.  [stopPythonBackend] twice is [stopPythonBackend] once.  Without a
    process it changes nothing; with one it sends SIGTERM to it, once, and
    clears the handle and the readiness flag in the same call. *)
Theorem C7_stop_idempotent (s : state) :
  stopPythonBackend (stopPythonBackend s) = stopPythonBackend s
  /\ (pythonProcess s = None -> stopPythonBackend s = s)
  /\ (forall child, pythonProcess s = Some child ->
        pythonProcess (stopPythonBackend s) = None
        /\ isBackendReady (stopPythonBackend s) = false
        /\ kills (stopPythonBackend s) = kills s ++ [(child, SIGTERM)]).
Proof.
  unfold stopPythonBackend.
  destruct (pythonProcess s) as [child|] eqn:E; simpl.
  - split; [reflexivity|]. split; [discriminate|].
    intros child' H. injection H as <-. auto.
  - rewrite E. split; [reflexivity|]. split; [reflexivity|]. discriminate.
Qed.

Lemma C7_stop_witness :
  let running := {| pythonProcess := Some 4%nat; isBackendReady := true; kills := [] |} in
  let stopped := {| pythonProcess := None; isBackendReady := false;
                    kills := [(4%nat, SIGTERM)] |} in
  pythonProcess running = Some 4%nat
  /\ pythonProcess stopped = None
  /\ stopPythonBackend running = stopped
  /\ stopPythonBackend (stopPythonBackend running) = stopped
  /\ stopPythonBackend stopped = stopped.
Proof.
  intros running stopped.
  split; [reflexivity|]. split; [reflexivity|]. split; [reflexivity|].
  split.
  - rewrite (proj1 (C7_stop_idempotent running)). reflexivity.
  - apply (proj1 (proj2 (C7_stop_idempotent stopped))). reflexivity.
Defined.

End SupervisorScenarios.

(** ** Stream proxy: error status *)

Section ErrorStatus.
Import JS Json Stream.

Lemma stream_run_app (evs evs' : list event) (w : main * session) :
  run (evs ++ evs') w = run evs' (run evs w).
Proof. apply fold_left_app. Qed.

(** In the error branch the chunks are appended to [errorData] and nothing
    is sent. *)
Lemma run_error_body (chunks : list buffer) :
  forall (m : main) (c : session) (statusCode : N) (errorData : jsstring),
    res c = ErrorBody statusCode errorData ->
    run (map Data chunks) (m, c) =
    (m, with_res (ErrorBody statusCode (errorData ++ text_of chunks)) c).
Proof.
  induction chunks as [|chunk chunks IH]; intros m c statusCode errorData E.
  - unfold text_of. simpl. rewrite app_nil_r. destruct c; simpl in *; now subst.
  - change (run (map Data (chunk :: chunks)) (m, c))
      with (run (map Data chunks) (on_data chunk (m, c))).
    unfold on_data. rewrite E.
    rewrite (IH _ _ statusCode (errorData ++ toString chunk)); [|reflexivity].
    unfold text_of. simpl. now rewrite <- app_assoc.
Qed.

(** A response whose status is not 200.  The chunks of the body are read
    to the end, each decoded on its own and appended to [errorData]; then
    exactly one event is sent, an [error] whose message is the status code
    followed by [errorData], and the promise resolves with
    [success: false] and [errorData] as [error].  For a body of ASCII bytes
    [errorData] is the text of the body. *)
Lemma error_status_event (statusCode : N) (chunks : list buffer)
      (stored : option jsstring) (q : chat_request) (req : nat) (m : main) :
  statusCode <> 200 ->
  let w := run (Response statusCode :: map Data chunks ++ [End])
               (chat_stream stored q req m) in
  let errorData := text_of chunks in
  let message := lit "HTTP " ++ String_of_N statusCode ++ lit ": " ++ errorData in
  sent (fst w)
  = sent m ++ [JObject [(lit "type", JString (lit "error"));
                        (lit "message", JString message)]]
  /\ includes message (String_of_N statusCode) = true
  /\ includes message errorData = true
  /\ settled (snd w) = Some {| success := false; error := Some errorData |}
  /\ (forallb is_ascii (List.concat chunks) = true ->
      errorData = toString (List.concat chunks)).
Proof.
  intros Hs w errorData message.
  assert (E : (statusCode =? 200) = false) by now apply N.eqb_neq.
  assert (Hbody : includes message errorData = true).
  { replace message
      with ((lit "HTTP " ++ String_of_N statusCode ++ lit ": ") ++ errorData ++ []).
    - apply includes_app.
    - subst message. now rewrite app_nil_r, <- !app_assoc. }
  assert (Hstatus : includes message (String_of_N statusCode) = true)
    by apply includes_app.
  subst w.
  change (run (Response statusCode :: map Data chunks ++ [End])
              (chat_stream stored q req m))
    with (run (map Data chunks ++ [End])
              (on_response statusCode (chat_stream stored q req m))).
  unfold chat_stream, on_response. simpl res. rewrite E. cbn [negb].
  rewrite stream_run_app.
  rewrite (run_error_body chunks _ _ statusCode []); [|reflexivity].
  fold errorData. cbn [app].
  split; [reflexivity|]. split; [assumption|]. split; [assumption|].
  split; [reflexivity|].
  intros A. subst errorData. rewrite (text_of_ascii _ A).
  symmetry. apply (toString_ascii _ A).
Qed.

(** Scenario C, with the body arriving in two chunks. *)
Example scenario_C :
  let w := run [Response 500; Data (wire "Internal "); Data (wire "error"); End]
               (chat_stream None
                  {| message := lit "hello"; conversationHistory := None;
                     model := None |} 1 idle) in
  sent (fst w) = [JObject [(lit "type", JString (lit "error"));
                           (lit "message", JString (lit "HTTP 500: Internal error"))]]
  /\ includes (lit "HTTP 500: Internal error") (lit "500") = true
  /\ includes (lit "HTTP 500: Internal error") (lit "Internal error") = true
  /\ settled (snd w) = Some {| success := false; error := Some (lit "Internal error") |}.
Proof. vm_compute. repeat split; reflexivity. Qed.

(** C4 (failing input).  A response with status 500 whose body holds a
    letter of two bytes, the bytes of the body arriving in two chunks that
    part inside the letter.  Each chunk is decoded on its own when it is
    appended to [errorData], so the letter becomes two replacement
    characters: the one event sent has a message that holds the status code
    but not the text of the body, and the promise resolves with the garbled
    text as well.  The same body in one chunk gives the message with the
    text of the body. *)
Theorem C4_error_body_cut_character :
  let q := {| message := lit "hello"; conversationHistory := None; model := None |} in
  let body := wire "Cl" ++ [xc3; xa9] ++ wire " invalide" in
  let whole := run [Response 500; Data body; End] (chat_stream None q 1 idle) in
  let cut := run [Response 500; Data (firstn 3 body); Data (skipn 3 body); End]
                 (chat_stream None q 1 idle) in
  let garbled := lit "Cl" ++ [0xFFFD; 0xFFFD] ++ lit " invalide" in
  toString body = lit "Cl" ++ [0xE9] ++ lit " invalide"
  /\ firstn 3 body ++ skipn 3 body = body
  /\ sent (fst whole)
     = [JObject [(lit "type", JString (lit "error"));
                 (lit "message", JString (lit "HTTP 500: " ++ toString body))]]
  /\ sent (fst cut)
     = [JObject [(lit "type", JString (lit "error"));
                 (lit "message", JString (lit "HTTP 500: " ++ garbled))]]
  /\ includes (lit "HTTP 500: " ++ garbled) (lit "500") = true
  /\ includes (lit "HTTP 500: " ++ garbled) (toString body) = false
  /\ settled (snd cut) = Some {| success := false; error := Some garbled |}
  /\ settled (snd whole) = Some {| success := false; error := Some (toString body) |}.
Proof. vm_compute. repeat split; reflexivity. Qed.

End ErrorStatus.

(** ** Request registry and cancellation *)

Section Registry.
Import JS Json Stream.

(** C8.  [chat:cancel] with an empty registry returns [cancelled: false]
    and leaves the state as it is; with a request in the registry it
    destroys that request, empties the registry and returns
    [cancelled: true]; it sends no event. *)
Theorem C8_cancel (m : main) :
  (currentChatRequest m = None -> chat_cancel m = (m, false))
  /\ (forall req, currentChatRequest m = Some req ->
        snd (chat_cancel m) = true
        /\ currentChatRequest (fst (chat_cancel m)) = None
        /\ destroyed (fst (chat_cancel m)) = destroyed m ++ [req]
        /\ sent (fst (chat_cancel m)) = sent m).
Proof.
  unfold chat_cancel. split.
  - now intros ->.
  - intros req ->. simpl. auto.
Qed.

Lemma C8_cancel_witness :
  let busy := {| currentChatRequest := Some 3%nat; destroyed := []; sent := [] |} in
  currentChatRequest idle = None
  /\ currentChatRequest busy = Some 3%nat
  /\ chat_cancel idle = (idle, false)
  /\ snd (chat_cancel busy) = true
  /\ destroyed (fst (chat_cancel busy)) = [3%nat].
Proof.
  intros busy.
  split; [reflexivity|]. split; [reflexivity|].
  split.
  - apply (proj1 (C8_cancel idle)). reflexivity.
  - destruct (proj2 (C8_cancel busy) 3%nat eq_refl) as (H1 & _ & H3 & _).
    split; [exact H1|exact H3].
Defined.

(** What a callback sends and does to its session depends on the events
    sent so far and on the session, not on the registry. *)
Lemma step_ignores_registry (e : event) (m1 m2 : main) (c : session) :
  sent m1 = sent m2 ->
  sent (fst (step (m1, c) e)) = sent (fst (step (m2, c) e))
  /\ snd (step (m1, c) e) = snd (step (m2, c) e).
Proof.
  intros H. destruct e as [statusCode|chunk| |message|message|]; simpl.
  - destruct (res c); simpl; [destruct (negb (statusCode =? 200))|..]; auto.
  - destruct (res c) as [|statusCode errorData|b]; simpl; auto.
    destruct (pop (split LF (b ++ toString chunk))) as [last lines].
    simpl. rewrite !fold_forward. simpl. now rewrite H.
  - destruct (res c); simpl; auto. now rewrite H.
  - destruct (res c); simpl; auto. now rewrite H.
  - now rewrite H.
  - unfold chat_cancel.
    destruct (currentChatRequest m1), (currentChatRequest m2); simpl; auto.
Qed.

Lemma run_ignores_registry (evs : list event) :
  forall (m1 m2 : main) (c : session),
    sent m1 = sent m2 ->
    sent (fst (run evs (m1, c))) = sent (fst (run evs (m2, c)))
    /\ snd (run evs (m1, c)) = snd (run evs (m2, c)).
Proof.
  induction evs as [|e evs IH]; intros m1 m2 c H; [now split|].
  change (run (e :: evs) (m1, c)) with (run evs (step (m1, c) e)).
  change (run (e :: evs) (m2, c)) with (run evs (step (m2, c) e)).
  destruct (step_ignores_registry e m1 m2 c H) as [Hs Hc].
  destruct (step (m1, c) e) as [m1' c1], (step (m2, c) e) as [m2' c2].
  simpl in Hs, Hc. subst c2. now apply IH.
Qed.

(** C3, as the code has it.  [chat:cancel] on the session in flight
    destroys its request, empties the registry and sends nothing itself.  No handler
    looks at a cancellation flag: the callbacks that fire afterwards send
    exactly what they would have sent without the cancellation, and settle
    the promise in the same way. *)
Theorem C3_cancel_does_not_silence_callbacks
        (m : main) (c : session) (evs : list event) :
  currentChatRequest m = Some (request c) ->
  let m' := fst (chat_cancel m) in
  currentChatRequest m' = None
  /\ In (request c) (destroyed m')
  /\ sent m' = sent m
  /\ sent (fst (run evs (m', c))) = sent (fst (run evs (m, c)))
  /\ settled (snd (run evs (m', c))) = settled (snd (run evs (m, c))).
Proof.
  intros E m'. subst m'. unfold chat_cancel. rewrite E. simpl.
  split; [reflexivity|]. split; [apply in_or_app; right; now left|].
  split; [reflexivity|].
  destruct (run_ignores_registry evs
              {| currentChatRequest := None;
                 destroyed := destroyed m ++ [request c]; sent := sent m |}
              m c eq_refl) as [Hs Hc].
  split; [exact Hs|now rewrite Hc].
Qed.

Lemma C3_cancel_witness :
  let w := streaming {| currentChatRequest := Some 1%nat; destroyed := []; sent := [] |}
                     1 [] in
  let m' := fst (chat_cancel (fst w)) in
  currentChatRequest (fst w) = Some (request (snd w))
  /\ sent (fst (run [End] (m', snd w))) = sent (fst (run [End] w)).
Proof.
  intros w m'. split; [reflexivity|].
  exact (proj1 (proj2 (proj2 (proj2
           (C3_cancel_does_not_silence_callbacks (fst w) (snd w) [End] eq_refl))))).
Defined.

(** C3 (counterexample).  After the cancellation of a streaming session,
    the [error] callback Node fires on the response of a destroyed request
    sends an error event, and a [data] callback would send its frame. *)
Lemma C3_events_after_cancel :
  let w := streaming {| currentChatRequest := Some 1%nat; destroyed := []; sent := [] |}
                     1 [] in
  let cancelled := (fst (chat_cancel (fst w)), snd w) in
  snd (chat_cancel (fst w)) = true
  /\ sent (fst cancelled) = []
  /\ sent (fst (run [ResError (lit "aborted")] cancelled))
     = [error_event (lit "aborted")]
  /\ sent (fst (run [Data (wire "data: {'type':'token','content':'Hi'}" ++ [x0a])]
                    cancelled))
     = [token (lit "Hi")].
Proof. vm_compute. repeat split; reflexivity. Qed.

(** The handlers of the streaming branch, the [error] handler of the
    request and [chat:cancel] empty the registry. *)
Lemma listed_paths_clear (m : main) (c : session) (b message : jsstring) :
  res c = Streaming b ->
  currentChatRequest (fst (on_end (m, c))) = None
  /\ currentChatRequest (fst (on_res_error message (m, c))) = None
  /\ currentChatRequest (fst (on_req_error message (m, c))) = None
  /\ currentChatRequest (fst (chat_cancel m)) = None.
Proof.
  intros E. unfold on_end, on_res_error, on_req_error, chat_cancel. rewrite E.
  split; [reflexivity|]. split; [reflexivity|]. split; [reflexivity|].
  destruct (currentChatRequest m) eqn:H; [reflexivity|exact H].
Qed.

(** After each of them [chat:cancel] answers [cancelled: false]. *)
Lemma cancel_after_listed_paths (m : main) (c : session) (b message : jsstring) :
  res c = Streaming b ->
  snd (chat_cancel (fst (on_end (m, c)))) = false
  /\ snd (chat_cancel (fst (on_res_error message (m, c)))) = false
  /\ snd (chat_cancel (fst (on_req_error message (m, c)))) = false
  /\ snd (chat_cancel (fst (chat_cancel m))) = false.
Proof.
  intros E. unfold on_end, on_res_error, on_req_error. rewrite E.
  split; [reflexivity|]. split; [reflexivity|]. split; [reflexivity|].
  unfold chat_cancel at 2.
  destruct (currentChatRequest m) eqn:H; [reflexivity|].
  unfold chat_cancel. simpl. now rewrite H.
Qed.

(** C9 (failing input).  A session whose response has status 500: after
    its [end] the promise is resolved and the session is over, but the
    [end] handler of the error branch does not empty the registry as the
    other handlers do.  The registry still holds the finished request and
    [chat:cancel] answers [cancelled: true]. *)
Theorem C9_error_status_leaves_reference :
  let q := {| message := lit "hello"; conversationHistory := None; model := None |} in
  let w := run [Response 500; Data (wire "Internal error"); End]
               (chat_stream None q 1 idle) in
  settled (snd w) = Some (failure (lit "Internal error"))
  /\ currentChatRequest (fst w) = Some 1%nat
  /\ snd (chat_cancel (fst w)) = true.
Proof. vm_compute. repeat split; reflexivity. Qed.

End Registry.

(** ** Stream proxy: the model of the request body *)

Section RequestBody.
Import JS Json Stream.

Lemma join_snoc (sep : jsstring) (parts : list jsstring) (p : jsstring) :
  parts <> [] -> join sep (parts ++ [p]) = join sep parts ++ sep ++ p.
Proof.
  induction parts as [|x parts IH]; intros H; [contradiction|].
  destruct parts as [|y parts]; [reflexivity|].
  change (join sep ((x :: y :: parts) ++ [p]))
    with (x ++ sep ++ join sep ((y :: parts) ++ [p])).
  rewrite IH by discriminate.
  change (join sep (x :: y :: parts)) with (x ++ sep ++ join sep (y :: parts)).
  now rewrite <- !app_assoc.
Qed.

(** The text of an object ends with its last member. *)
Lemma stringify_last_member (ms : list (jsstring * json)) (k : jsstring) (v : json) :
  ms <> [] ->
  exists before,
    JSON_stringify (JObject (ms ++ [(k, v)]))
    = before ++ [44] ++ (quote k ++ 58 :: JSON_stringify v) ++ [125].
Proof.
  intros H.
  exists (123 :: join [44]
            (map (fun m => quote (fst m) ++ 58 :: JSON_stringify (snd m)) ms)).
  cbn [JSON_stringify]. rewrite map_app. cbn [map fst snd].
  rewrite join_snoc by (destruct ms; [contradiction|discriminate]).
  cbn [app]. f_equal. rewrite <- app_assoc. reflexivity.
Qed.

Lemma chosen_model_fallback (stored : option jsstring) (q : chat_request) :
  truthy (model q) = false ->
  chosen_model stored q =
  Some match stored with
       | Some (c :: s) => c :: s
       | _ => default_model
       end.
Proof.
  intros H. unfold chosen_model. unfold or_else at 2. rewrite H.
  unfold or_else. now destruct stored as [[|c s]|].
Qed.

(** C10.  When the request has no model (undefined or the empty string),
    the body posted carries the model of the configuration store, or
    [gpt-5.2] when that is empty too: the object serialised has a [model]
    member that is a non-empty string, and the body ends with it. *)
Theorem C10_model_fallback (stored : option jsstring) (q : chat_request)
        (req : nat) (m : main) :
  truthy (model q) = false ->
  let name := match stored with
              | Some (c :: s) => c :: s
              | _ => default_model
              end in
  let body := postData (snd (chat_stream stored q req m)) in
  name <> []
  /\ (truthy stored = true -> Some name = stored)
  /\ (truthy stored = false -> name = lit "gpt-5.2")
  /\ (exists members,
        payload stored q = JObject members
        /\ get (lit "model") members = Some (JString name))
  /\ exists before,
       body = before ++ lit ",'model':" ++ quote name ++ lit "}".
Proof.
  intros Hm name body.
  assert (Hp : payload stored q =
               JObject ([(lit "message", JString (message q));
                         (lit "conversation_history",
                          JArray (match conversationHistory q with
                                  | Some h => h | None => [] end))]
                        ++ [(lit "model", JString name)])).
  { unfold payload. now rewrite (chosen_model_fallback stored q Hm). }
  split; [subst name; destruct stored as [[|c s]|]; discriminate|].
  split; [subst name; destruct stored as [[|c s]|]; simpl; intros H;
          try discriminate; reflexivity|].
  split; [subst name; destruct stored as [[|c s]|]; simpl; intros H;
          try discriminate; reflexivity|].
  split; [eexists; split; [exact Hp|reflexivity]|].
  subst body.
  change (postData (snd (chat_stream stored q req m)))
    with (JSON_stringify (payload stored q)).
  rewrite Hp.
  destruct (stringify_last_member
              [(lit "message", JString (message q));
               (lit "conversation_history",
                JArray (match conversationHistory q with
                        | Some h => h | None => [] end))]
              (lit "model") (JString name)) as [before E]; [discriminate|].
  exists before. rewrite E. reflexivity.
Qed.

Lemma C10_model_fallback_witness :
  let q := {| message := lit "hello"; conversationHistory := None; model := Some [] |} in
  truthy (model q) = false
  /\ postData (snd (chat_stream (Some []) q 1 idle))
     = lit "{'message':'hello','conversation_history':[],'model':'gpt-5.2'}"
  /\ exists before,
       postData (snd (chat_stream (Some []) q 1 idle))
       = before ++ lit ",'model':" ++ quote (lit "gpt-5.2") ++ lit "}".
Proof.
  intros q. split; [reflexivity|]. split; [reflexivity|].
  exact (proj2 (proj2 (proj2 (proj2
           (C10_model_fallback (Some []) q 1 idle eq_refl))))).
Defined.

End RequestBody.

(* ===================================================================== *)
(** * Further properties of the health checker *)
(* ===================================================================== *)

Section HealthProbe.
Import JS Health.

(** Whatever the backend and the network do, a probe with [retries = n]
    makes at least one and at most [2^(n+1) - 1] requests, one more than the
    timers it sets; every timer has the fixed [delay]; and the promise is
    settled. *)
Theorem health_probe_any_environment (n : nat) (delay : N) (env : environment) :
  let log := checkBackendHealth n delay env in
  (1 <= attempts log <= 2 ^ (n + 1) - 1)%nat
  /\ attempts log = S (List.length (timers log))
  /\ Forall (eq delay) (timers log)
  /\ settled log <> None
  /\ promise n delay env <> None.
Proof.
  intros log. subst log. unfold checkBackendHealth.
  destruct (attempt_any_environment delay env n []) as (Ha & Ht & Hs & Hb).
  split; [lia|]. split; [exact Ha|]. split; [exact Ht|]. split; [exact Hs|].
  apply promise_settles.
Qed.

(** The first request that gets status 200 fulfils the promise; on a
    connection that is kept alive the attempts go on after that. *)
Lemma attempt_first_success (delay : N) (env : environment) (k : nat) :
  forall n path now,
    (k <= n)%nat ->
    (forall j, (j < k)%nat ->
       one_handler (env (path ++ repeat false j)) = true
       /\ ok (env (path ++ repeat false j)) = false) ->
    ok (env (path ++ repeat false k)) = true ->
    exists before after,
      attempt delay env path n = before ++ Resolve :: after
      /\ settled before = None
      /\ attempts before = S k
      /\ timers before = repeat delay k
      /\ first_settled (attempt_at delay env path n now)
         = Some (now + elapsed before, Fulfilled)
      /\ (one_handler (env (path ++ repeat false k)) = true -> after = [])
      /\ (one_handler (env (path ++ repeat false k)) = false ->
          (k < n)%nat -> (1 <= attempts after)%nat).
Proof.
  induction k as [|k IH]; intros n path now Hk Hbefore Hok.
  - simpl in Hok |- *. rewrite app_nil_r in Hok |- *.
    pose proof (first_settled_ok delay env n path now Hok) as Hfirst.
    destruct (env path) as [latency statusCode|latency error| |latency statusCode
                             |latency statusCode later error] eqn:E;
      try discriminate; simpl in Hok, Hfirst.
    + exists [HttpGet; Wait latency], [].
      rewrite (attempt_answered _ _ _ _ _ _ E), Hok, Hfirst.
      simpl elapsed. rewrite N.add_0_r.
      repeat split; discriminate.
    + exists [HttpGet; Wait latency].
      rewrite (attempt_kept_alive _ _ _ _ _ _ E), Hok, Hfirst.
      simpl elapsed. rewrite N.add_0_r. eexists.
      split; [reflexivity|]. split; [reflexivity|]. split; [reflexivity|].
      split; [reflexivity|]. split; [reflexivity|]. split; [discriminate|].
      intros _ Hn. destruct n as [|m]; [lia|].
      destruct (attempt_any_environment delay env m (path ++ [true])) as (Ha & _).
      cbv zeta in Ha. unfold attempts in *. simpl. rewrite Ha. lia.
    + exists [HttpGet; Wait latency].
      rewrite (attempt_reset _ _ _ _ _ _ _ _ E), Hok, Hfirst.
      simpl elapsed. rewrite N.add_0_r. eexists.
      split; [reflexivity|]. split; [reflexivity|]. split; [reflexivity|].
      split; [reflexivity|]. split; [reflexivity|]. split; [discriminate|].
      intros _ Hn. destruct n as [|m]; [lia|].
      destruct (attempt_any_environment delay env m (path ++ [true])) as (Ha & _).
      cbv zeta in Ha. unfold attempts in *. simpl. rewrite Ha. lia.
  - destruct n as [|n]; [lia|].
    destruct (Hbefore O ltac:(lia)) as [Hone Hno].
    simpl in Hone, Hno. rewrite app_nil_r in Hone, Hno.
    destruct (IH n (path ++ [false]) (now + latency_of (env path) + delay))
      as (before & after & E' & Hsb & Ha & Ht & Hf & Hafter1 & Hafter2).
    + lia.
    + intros j Hj. rewrite <- app_assoc. apply (Hbefore (S j)). lia.
    + now rewrite <- app_assoc.
    + rewrite <- app_assoc in Hafter1, Hafter2. cbn [app] in Hafter1, Hafter2.
      change (path ++ false :: repeat false k)
        with (path ++ repeat false (S k)) in Hafter1, Hafter2.
      pose proof (first_settled_retry delay env n path now Hone Hno) as Hr.
      rewrite Hf in Hr.
      exists (HttpGet :: Wait (latency_of (env path)) :: SetTimeout delay :: before),
             after.
      split.
      { destruct (env path) as [latency statusCode|latency error| |latency statusCode
                             |latency statusCode later error] eqn:E;
          try discriminate; simpl in Hno.
        - now rewrite (attempt_answered _ _ _ _ _ _ E), Hno, E'.
        - now rewrite (attempt_failed _ _ _ _ _ _ E), E'. }
      split; [exact Hsb|].
      split; [unfold attempts in *; simpl; now rewrite Ha|].
      split; [simpl; now rewrite Ht|].
      split; [|split; [exact Hafter1|intros H1 H2; apply Hafter2; [exact H1|lia]]].
      rewrite Hr. simpl elapsed. do 2 f_equal. lia.
Qed.

(** When the request number [k] (counting from 0, [k <= retries]) is the
    first to get status 200, after requests that were answered with
    another status on a connection that was then closed, or failed, the
    promise is fulfilled by it: [k + 1] requests and [k] timers come before
    the [resolve], at the time that is the sum of the latencies and the
    delays.  When the connection of that request is closed, nothing comes
    after the [resolve]; when it is kept alive and retries are left, the
    probe goes on making requests after the promise is fulfilled. *)
Theorem health_first_success (n k : nat) (delay : N) (env : environment) :
  (k <= n)%nat ->
  (forall j, (j < k)%nat ->
     one_handler (env (nth_request j)) = true /\ ok (env (nth_request j)) = false) ->
  ok (env (nth_request k)) = true ->
  let log := checkBackendHealth n delay env in
  promise n delay env = Some Fulfilled
  /\ exists before after,
       log = before ++ Resolve :: after
       /\ settled before = None
       /\ attempts before = S k
       /\ timers before = repeat delay k
       /\ first_settled (timeline n delay env) = Some (elapsed before, Fulfilled)
       /\ (one_handler (env (nth_request k)) = true -> after = [])
       /\ (one_handler (env (nth_request k)) = false -> (k < n)%nat ->
           (S (S k) <= attempts log)%nat).
Proof.
  intros Hk Hbefore Hok log. subst log. unfold checkBackendHealth, promise, timeline.
  destruct (attempt_first_success delay env k n [] 0 Hk Hbefore Hok)
    as (before & after & E & Hs & Ha & Ht & Hf & H1 & H2).
  rewrite N.add_0_l in Hf. rewrite Hf. split; [reflexivity|].
  exists before, after. rewrite E.
  split; [reflexivity|]. split; [exact Hs|]. split; [exact Ha|].
  split; [exact Ht|]. split; [reflexivity|]. split; [exact H1|].
  intros Hone Hlt. specialize (H2 Hone Hlt).
  rewrite attempts_app, Ha.
  change (attempts (Resolve :: after)) with (attempts after). lia.
Qed.

Lemma health_first_success_witness :
  let env : environment :=
    fun path => match path with
                | [] => Failed 2 (lit "connect ECONNREFUSED 127.0.0.1:8765")
                | [_] => Answered 3 503
                | _ => KeptAlive 4 200
                end in
  promise 5 1000 env = Some Fulfilled
  /\ first_settled (timeline 5 1000 env) = Some (2009, Fulfilled)
  /\ attempts (checkBackendHealth 5 1000 env) = 6%nat
  /\ timers (checkBackendHealth 5 1000 env) = [1000; 1000; 1000; 1000; 1000].
Proof.
  intros env. split; [|vm_compute; repeat split; reflexivity].
  refine (proj1 (health_first_success 5 2 1000 env _ _ _)).
  - lia.
  - intros [|[|j]] Hj; [split; reflexivity|split; reflexivity|lia].
  - reflexivity.
Defined.

(** A chain of attempts that is not fulfilled is rejected by its last
    attempt, which starts no other. *)
Lemma attempt_exhausted (delay : N) (env : environment) (n : nat) :
  forall path now,
    (forall j, (j < n)%nat ->
       one_handler (env (path ++ repeat false j)) = true
       /\ ok (env (path ++ repeat false j)) = false) ->
    ok (env (path ++ repeat false n)) = false ->
    attempts (attempt delay env path n) = S n
    /\ timers (attempt delay env path n) = repeat delay n
    /\ exists time,
         first_settled (attempt_at delay env path n now)
         = Some (time, Rejected (reason (env (path ++ repeat false n)))).
Proof.
  induction n as [|n IH]; intros path now Hbefore Hno.
  - cbn [repeat] in Hno |- *. rewrite app_nil_r in Hno |- *.
    split; [|split].
    + destruct (env path) as [latency statusCode|latency error| |latency statusCode
                             |latency statusCode later error] eqn:E;
        simpl in Hno.
      * now rewrite (attempt_answered _ _ _ _ _ _ E), Hno.
      * now rewrite (attempt_failed _ _ _ _ _ _ E).
      * now rewrite (attempt_silent _ _ _ _ E).
      * now rewrite (attempt_kept_alive _ _ _ _ _ _ E), Hno.
      * now rewrite (attempt_reset _ _ _ _ _ _ _ _ E), Hno.
    + destruct (env path) as [latency statusCode|latency error| |latency statusCode
                             |latency statusCode later error] eqn:E;
        simpl in Hno.
      * now rewrite (attempt_answered _ _ _ _ _ _ E), Hno.
      * now rewrite (attempt_failed _ _ _ _ _ _ E).
      * now rewrite (attempt_silent _ _ _ _ E).
      * now rewrite (attempt_kept_alive _ _ _ _ _ _ E), Hno.
      * now rewrite (attempt_reset _ _ _ _ _ _ _ _ E), Hno.
    + eexists. apply (first_settled_last delay env path now Hno).
  - destruct (Hbefore O ltac:(lia)) as [Hone Hnok].
    simpl in Hone, Hnok. rewrite app_nil_r in Hone, Hnok.
    destruct (IH (path ++ [false]) (now + latency_of (env path) + delay))
      as (Ha & Ht & time & Hf).
    + intros j Hj. rewrite <- app_assoc. apply (Hbefore (S j)). lia.
    + now rewrite <- app_assoc.
    + rewrite <- app_assoc in Hf. cbn [app] in Hf.
      change (path ++ false :: repeat false n)
        with (path ++ repeat false (S n)) in Hf.
      assert (E' : attempt delay env path (S n)
                   = HttpGet :: Wait (latency_of (env path)) :: SetTimeout delay ::
                     attempt delay env (path ++ [false]) n).
      { destruct (env path) as [latency statusCode|latency error| |latency statusCode
                             |latency statusCode later error] eqn:E;
          try discriminate; simpl in Hnok.
        - now rewrite (attempt_answered _ _ _ _ _ _ E), Hnok.
        - now rewrite (attempt_failed _ _ _ _ _ _ E). }
      rewrite E'. split; [unfold attempts in *; simpl; now rewrite Ha|].
      split; [simpl; now rewrite Ht|].
      exists time.
      now rewrite (first_settled_retry delay env n path now Hone Hnok).
Qed.

(** When none of the [n + 1] requests of the chain gets status 200 (each
    but the last is answered with another status on a connection that is
    then closed, or fails), the probe makes the [n + 1] requests and sets
    [n] timers, and the promise is rejected with the reason of the last
    request: its status, its connection error, or the timeout. *)
Theorem health_exhausted_reason (n : nat) (delay : N) (env : environment) :
  (forall k, (k < n)%nat ->
     one_handler (env (nth_request k)) = true /\ ok (env (nth_request k)) = false) ->
  ok (env (nth_request n)) = false ->
  let log := checkBackendHealth n delay env in
  promise n delay env = Some (Rejected (reason (env (nth_request n))))
  /\ attempts log = S n
  /\ timers log = repeat delay n
  /\ (forall latency statusCode,
        env (nth_request n) = Answered latency statusCode ->
        promise n delay env
        = Some (Rejected (lit "Health check failed: " ++ String_of_N statusCode)))
  /\ (forall latency error,
        env (nth_request n) = Failed latency error ->
        promise n delay env = Some (Rejected error))
  /\ (env (nth_request n) = Silent ->
      promise n delay env = Some (Rejected (lit "Health check timeout"))).
Proof.
  intros H Hno log. subst log. unfold checkBackendHealth.
  destruct (attempt_exhausted delay env n [] 0 H Hno) as (Ha & Ht & time & Hf).
  assert (P : promise n delay env = Some (Rejected (reason (env (nth_request n))))).
  { unfold promise, timeline. now rewrite Hf. }
  split; [exact P|]. split; [exact Ha|]. split; [exact Ht|].
  split; [|split]; intros; rewrite P;
    match goal with E : env _ = _ |- _ => now rewrite E end.
Qed.

Lemma health_exhausted_reason_witness :
  let env : environment :=
    fun path => match path with
                | [] => Failed 2 (lit "connect ECONNREFUSED 127.0.0.1:8765")
                | _ => KeptAlive 3 503
                end in
  promise 1 500 env = Some (Rejected (lit "Health check failed: 503"))
  /\ attempts (checkBackendHealth 1 500 env) = 2%nat.
Proof.
  intros env. split; [|reflexivity].
  refine (proj1 (health_exhausted_reason 1 500 env _ _)).
  - intros [|k] Hk; [split; reflexivity|lia].
  - reflexivity.
Defined.

(** In a chain of attempts the promise takes the first settlement of the
    log. *)
Lemma chain_promise (delay : N) (env : environment) (n : nat) :
  forall path now,
    (forall k, (k <= n)%nat -> one_handler (env (path ++ repeat false k)) = true) ->
    option_map snd (first_settled (attempt_at delay env path n now))
    = settled (attempt delay env path n).
Proof.
  induction n as [|n IH]; intros path now Hone;
    pose proof (Hone O (Nat.le_0_l _)) as H0; simpl in H0;
    rewrite app_nil_r in H0;
    destruct (ok (env path)) eqn:Hok.
  - rewrite (first_settled_ok delay env _ path now Hok).
    destruct (env path) as [latency statusCode|latency error| |latency statusCode
                             |latency statusCode later error] eqn:E;
      try discriminate; simpl in Hok.
    now rewrite (attempt_answered _ _ _ _ _ _ E), Hok.
  - rewrite (first_settled_last delay env path now Hok).
    destruct (env path) as [latency statusCode|latency error| |latency statusCode
                             |latency statusCode later error] eqn:E;
      try discriminate; simpl in Hok.
    + now rewrite (attempt_answered _ _ _ _ _ _ E), Hok.
    + now rewrite (attempt_failed _ _ _ _ _ _ E).
  - rewrite (first_settled_ok delay env _ path now Hok).
    destruct (env path) as [latency statusCode|latency error| |latency statusCode
                             |latency statusCode later error] eqn:E;
      try discriminate; simpl in Hok.
    now rewrite (attempt_answered _ _ _ _ _ _ E), Hok.
  - rewrite (first_settled_retry delay env n path now H0 Hok), IH.
    + destruct (env path) as [latency statusCode|latency error| |latency statusCode
                             |latency statusCode later error] eqn:E;
        try discriminate; simpl in Hok.
      * now rewrite (attempt_answered _ _ _ _ _ _ E), Hok.
      * now rewrite (attempt_failed _ _ _ _ _ _ E).
    + intros k Hk. rewrite <- app_assoc. apply (Hone (S k)). lia.
Qed.

(** As long as one handler runs on every request (each is answered on a
    connection that is then closed, or fails), the promise is fulfilled
    exactly when one of the requests the probe made got status 200. *)
Theorem health_fulfilled_iff_200 (n : nat) (delay : N) (env : environment) :
  (forall k, (k <= n)%nat -> one_handler (env (nth_request k)) = true) ->
  let log := checkBackendHealth n delay env in
  promise n delay env = Some Fulfilled <->
  exists k, (k < attempts log)%nat /\ ok (env (nth_request k)) = true.
Proof.
  intros H log. subst log. unfold promise, timeline.
  rewrite (chain_promise delay env n [] 0 H).
  exact (sequential_fulfilled_iff delay env n [] H).
Qed.

Lemma health_fulfilled_iff_200_witness :
  let env : environment :=
    fun path => match path with
                | [] => Answered 3 503
                | _ => Answered 4 200
                end in
  promise 1 500 env = Some Fulfilled.
Proof.
  intros env.
  refine (proj2 (health_fulfilled_iff_200 1 500 env _) _).
  - intros [|[|k]] Hk; [reflexivity|reflexivity|lia].
  - exists 1%nat. split; [vm_compute; lia|reflexivity].
Defined.

(** Against a healthy backend that keeps the connections alive, an attempt
    resolves at its response and, 5000 ms later, destroys its request and
    starts the next attempt or, when it is the last, rejects. *)
Lemma attempt_healthy (delay : N) (latency : list bool -> N) (n : nat) :
  forall path,
    attempt delay (healthy latency) path n =
    flat_map (fun k => [HttpGet; Wait (latency (path ++ repeat true k)); Resolve;
                        Wait socket_timeout; ReqDestroy; SetTimeout delay])
             (seq 0 n)
    ++ [HttpGet; Wait (latency (path ++ repeat true n)); Resolve;
        Wait socket_timeout; ReqDestroy; Reject (lit "Health check timeout")].
Proof.
  induction n as [|k IH]; intros path.
  - rewrite (attempt_kept_alive delay (healthy latency) path O
               (latency path) 200 eq_refl).
    simpl. now rewrite app_nil_r.
  - rewrite (attempt_kept_alive delay (healthy latency) path (S k)
               (latency path) 200 eq_refl).
    change (200 =? 200) with true. cbv iota. rewrite IH.
    rewrite <- cons_seq, <- seq_shift. cbn [flat_map repeat app].
    rewrite app_nil_r, flat_map_after_map, <- !app_assoc. cbn [app].
    do 7 f_equal. apply flat_map_ext. intros a. now rewrite <- app_assoc.
Qed.

(** Against a healthy backend that keeps the connections alive, the
    promise is fulfilled by the first response, and the probe goes on: it
    makes [retries + 1] requests in all, one every 5000 ms plus the delay
    after the response before, and all but the first of them after the
    promise is fulfilled. *)
Theorem healthy_backend_probed_again (n : nat) (delay : N) (latency : list bool -> N) :
  let log := checkBackendHealth n delay (healthy latency) in
  first_settled (timeline n delay (healthy latency)) = Some (latency [], Fulfilled)
  /\ promise n delay (healthy latency) = Some Fulfilled
  /\ attempts log = S n
  /\ timers log = repeat delay n
  /\ log = [HttpGet; Wait (latency []); Resolve] ++ skipn 3 log.
Proof.
  intros log.
  assert (F : first_settled (timeline n delay (healthy latency))
              = Some (latency [], Fulfilled)).
  { unfold timeline.
    rewrite (first_settled_ok delay (healthy latency) n [] 0 eq_refl).
    reflexivity. }
  split; [exact F|]. split; [unfold promise; now rewrite F|].
  subst log. unfold checkBackendHealth. rewrite attempt_healthy.
  split; [|split].
  - rewrite attempts_app. unfold attempts at 2. simpl.
    assert (A : forall m start,
              attempts (flat_map (fun k =>
                [HttpGet; Wait (latency ([] ++ repeat true k)); Resolve;
                 Wait socket_timeout; ReqDestroy; SetTimeout delay])
                (seq start m)) = m).
    { induction m as [|m IHm]; intros start; [reflexivity|].
      simpl. unfold attempts in *. simpl. now rewrite IHm. }
    rewrite A. lia.
  - rewrite timers_app. simpl. rewrite app_nil_r.
    assert (T : forall m start,
              timers (flat_map (fun k =>
                [HttpGet; Wait (latency ([] ++ repeat true k)); Resolve;
                 Wait socket_timeout; ReqDestroy; SetTimeout delay])
                (seq start m)) = repeat delay m).
    { induction m as [|m IHm]; intros start; [reflexivity|].
      simpl. now rewrite IHm. }
    apply T.
  - destruct n; reflexivity.
Qed.

(** Connections that are kept alive: a refused connection, then status
    503, then status 200 make ten requests and nine timers for
    [retries = 5]; status 503 and then 200 make three requests and two
    timers for [retries = 1]. *)
Example kept_alive_runs :
  let env5 : environment :=
    fun path => match path with
                | [] => Failed 2 (lit "connect ECONNREFUSED 127.0.0.1:8765")
                | [_] => KeptAlive 3 503
                | _ => KeptAlive 4 200
                end in
  let env1 : environment :=
    fun path => match path with
                | [] => KeptAlive 3 503
                | _ => KeptAlive 4 200
                end in
  attempts (checkBackendHealth 5 1000 env5) = 10%nat
  /\ List.length (timers (checkBackendHealth 5 1000 env5)) = 9%nat
  /\ promise 5 1000 env5 = Some Fulfilled
  /\ attempts (checkBackendHealth 1 500 env1) = 3%nat
  /\ timers (checkBackendHealth 1 500 env1) = [500; 500]
  /\ promise 1 500 env1 = Some Fulfilled.
Proof. vm_compute. repeat split; reflexivity. Qed.

(** Against a backend that accepts the connection and never answers, every
    request that times out is followed by two attempts: [retries = n]
    makes [2^(n+1) - 1] requests. *)
Theorem health_mute_requests (n : nat) (delay : N) :
  attempts (checkBackendHealth n delay mute) = (2 ^ (n + 1) - 1)%nat.
Proof. unfold checkBackendHealth. apply mute_attempts. Qed.

End HealthProbe.

(* ===================================================================== *)
(** * Further properties of the stream proxy and the registry *)
(* ===================================================================== *)

Section StreamFrames.
Import JS Json Stream.

Lemma complete_lines_count (text : jsstring) :
  List.length (complete_lines text) = count_occ N.eq_dec text LF.
Proof.
  induction text as [|c text IH].
  - now destruct lines_nil as [-> _].
  - simpl. destruct (N.eq_dec c LF) as [->|Hc].
    + destruct (lines_cons_LF text) as [-> _]. simpl. now rewrite IH.
    + destruct (lines_cons_other c text Hc) as [-> _].
      rewrite <- IH. now destruct (complete_lines text).
Qed.

Lemma decoded_lines_length (lines : list jsstring) :
  (List.length (flat_map decoded lines) <= List.length lines)%nat.
Proof.
  induction lines as [|l lines IH]; simpl; [lia|].
  rewrite length_app. pose proof (decoded_at_most_one l). lia.
Qed.

Lemma complete_lines_no_LF (text : jsstring) :
  ~ In LF text -> complete_lines text = [] /\ remainder text = text.
Proof. intros H. apply lines_of_snoc. now apply split_no_LF. Qed.

(** What a streaming session has done after any sequence of chunks: it has
    sent the events of the complete lines of the decoded text, in the order
    of the lines, and nothing else; its buffer is the text after the last
    line feed and holds no line feed; lines and buffer together are the
    text; registry and promise are untouched. *)
Theorem stream_forwards_complete_lines
        (chunks : list buffer) (m : main) (req : nat) (body : jsstring) :
  let text := text_of chunks in
  let w := run (map Data chunks) (streaming m req body) in
  sent (fst w) = sent m ++ flat_map decoded (complete_lines text)
  /\ res (snd w) = Streaming (remainder text)
  /\ ~ In LF (remainder text)
  /\ flat_map (fun l => l ++ [LF]) (complete_lines text) ++ remainder text = text
  /\ currentChatRequest (fst w) = currentChatRequest m
  /\ destroyed (fst w) = destroyed m
  /\ settled (snd w) = None.
Proof.
  intros text w. subst w text. unfold streaming.
  rewrite (run_chunks chunks m {| request := req; postData := body;
                                  res := Streaming []; settled := None |} []
             eq_refl (fun F => F)).
  rewrite fold_forward. simpl.
  repeat split; [apply remainder_no_LF|apply lines_round_trip].
Qed.

(** The number of events a streaming session sends is at most the number
    of line feeds it has received. *)
Theorem stream_events_bounded_by_line_feeds
        (chunks : list buffer) (m : main) (req : nat) (body : jsstring) :
  let w := run (map Data chunks) (streaming m req body) in
  (List.length (sent (fst w))
   <= List.length (sent m) + count_occ N.eq_dec (text_of chunks) LF)%nat.
Proof.
  intros w. subst w. unfold streaming.
  rewrite (run_chunks chunks m {| request := req; postData := body;
                                  res := Streaming []; settled := None |} []
             eq_refl (fun F => F)).
  rewrite fold_forward. simpl. rewrite length_app, <- complete_lines_count.
  pose proof (decoded_lines_length (complete_lines (text_of chunks))). lia.
Qed.

(** At the end of the response the buffer is not looked at: the session
    resolves with success and clears the registry, and the events sent are
    those of the lines that ended with a line feed. *)
Theorem stream_end_ignores_buffer
        (chunks : list buffer) (m : main) (req : nat) (body : jsstring) :
  let w := run (map Data chunks ++ [End]) (streaming m req body) in
  sent (fst w) = sent m ++ flat_map decoded (complete_lines (text_of chunks))
  /\ settled (snd w) = Some {| success := true; error := None |}
  /\ currentChatRequest (fst w) = None.
Proof.
  intros w. subst w. unfold streaming. rewrite stream_run_app.
  rewrite (run_chunks chunks m {| request := req; postData := body;
                                  res := Streaming []; settled := None |} []
             eq_refl (fun F => F)).
  rewrite fold_forward. simpl. now repeat split.
Qed.

(** So a body without any line feed sends nothing, whatever it holds: a
    last frame that the backend did not terminate is lost. *)
Theorem stream_unterminated_frame_lost
        (chunks : list buffer) (m : main) (req : nat) (body : jsstring) :
  ~ In LF (text_of chunks) ->
  let w := run (map Data chunks ++ [End]) (streaming m req body) in
  sent (fst w) = sent m
  /\ settled (snd w) = Some {| success := true; error := None |}.
Proof.
  intros H w. subst w. unfold streaming. rewrite stream_run_app.
  rewrite (run_chunks chunks m {| request := req; postData := body;
                                  res := Streaming []; settled := None |} []
             eq_refl (fun F => F)).
  rewrite fold_forward. simpl.
  destruct (complete_lines_no_LF _ H) as [-> _]. simpl.
  now rewrite app_nil_r.
Qed.

Lemma stream_unterminated_frame_lost_witness :
  let chunks := [wire "data: {'type':'done',"; wire "'content':'Hi'}"] in
  ~ In LF (text_of chunks)
  /\ decoded (text_of chunks) = [done (lit "Hi")]
  /\ sent (fst (run (map Data chunks ++ [End]) (streaming idle 1 []))) = [].
Proof.
  intros chunks.
  assert (H : ~ In LF (text_of chunks)).
  { vm_compute. intros F.
    repeat (destruct F as [F|F]; [discriminate F|]). exact F. }
  split; [exact H|]. split; [vm_compute; reflexivity|].
  exact (proj1 (stream_unterminated_frame_lost chunks idle 1 [] H)).
Defined.

Lemma ascii_split_invariance_witness :
  let whole := wire "data: {'type':'token','content':'Hi'}" ++ [x0a; x0a] in
  let cs := [firstn 9 whole; skipn 9 whole] in
  let ds := [firstn 30 whole; skipn 30 whole] in
  List.concat cs = List.concat ds
  /\ forallb is_ascii (List.concat cs) = true
  /\ run (map Data cs) (streaming idle 1 []) = run (map Data ds) (streaming idle 1 [])
  /\ sent (fst (run (map Data cs) (streaming idle 1 []))) = [token (lit "Hi")].
Proof.
  intros whole cs ds.
  assert (E : List.concat cs = List.concat ds) by reflexivity.
  assert (A : forallb is_ascii (List.concat cs) = true) by reflexivity.
  split; [exact E|]. split; [exact A|].
  split; [exact (ascii_split_invariance cs ds idle 1 [] E A)|].
  vm_compute. reflexivity.
Defined.

(** A second [chat:stream] call takes the place of the first in the
    registry without destroying it.  [chat:cancel] then reaches the second
    request only; and when the first response ends, its handler empties the
    registry although the second request is still in flight, which
    [chat:cancel] can no longer reach. *)
Theorem overlapping_sessions
        (stored : option jsstring) (qa qb : chat_request) (ra rb : nat)
        (chunks : list buffer) (m : main) :
  let wa := chat_stream stored qa ra m in
  let wb := chat_stream stored qb rb (fst wa) in
  let ended := run (Response 200 :: map Data chunks ++ [End]) (fst wb, snd wa) in
  currentChatRequest (fst wb) = Some rb
  /\ destroyed (fst wb) = destroyed m
  /\ destroyed (fst (chat_cancel (fst wb))) = destroyed m ++ [rb]
  /\ currentChatRequest (fst ended) = None
  /\ destroyed (fst ended) = destroyed m
  /\ settled (snd wb) = None
  /\ chat_cancel (fst ended) = (fst ended, false).
Proof.
  intros wa wb ended. subst ended wb wa.
  split; [reflexivity|]. split; [reflexivity|]. split; [reflexivity|].
  change (run (Response 200 :: map Data chunks ++ [End])
              (fst (chat_stream stored qb rb (fst (chat_stream stored qa ra m))),
               snd (chat_stream stored qa ra m)))
    with (run (map Data chunks ++ [End])
              (streaming {| currentChatRequest := Some rb;
                            destroyed := destroyed m; sent := sent m |}
                         ra (JSON_stringify (payload stored qa)))).
  unfold streaming. rewrite stream_run_app.
  rewrite (run_chunks chunks _ {| request := ra;
                                  postData := JSON_stringify (payload stored qa);
                                  res := Streaming []; settled := None |} []
             eq_refl (fun F => F)).
  rewrite fold_forward. simpl. now repeat split.
Qed.

(** [chat:cancel] a second time finds the registry empty: it answers
    [cancelled: false] and destroys nothing more. *)
Theorem cancel_twice (m : main) :
  chat_cancel (fst (chat_cancel m)) = (fst (chat_cancel m), false).
Proof.
  unfold chat_cancel at 2 3.
  destruct (currentChatRequest m) eqn:E; simpl; [reflexivity|].
  unfold chat_cancel. now rewrite E.
Qed.

End StreamFrames.

(* ===================================================================== *)
(** * Further properties of the supervisor and the backend handlers *)
(* ===================================================================== *)

Section BackendEnvironment.
Import JS Json Supervisor Backend.

Lemma eqs_true_iff (a b : jsstring) : eqs a b = true <-> a = b.
Proof.
  revert b. induction a as [|x a IH]; intros [|y b]; simpl; split;
    try discriminate; try reflexivity.
  - intros H. apply andb_prop in H as [Hx Hab].
    apply N.eqb_eq in Hx. apply IH in Hab. now subst.
  - intros H. injection H as -> ->. rewrite N.eqb_refl. now apply IH.
Qed.

Lemma or_literal_not_empty (x : option jsstring) (literal : jsstring) :
  literal <> [] -> or_literal x literal <> [].
Proof.
  intros H. unfold or_literal, or_else.
  destruct x as [[|c s]|]; simpl; auto; discriminate.
Qed.

Lemma or_literal_stored (x : option jsstring) (literal : jsstring) :
  truthy x = true -> Some (or_literal x literal) = x.
Proof.
  unfold or_literal, or_else. destruct x as [[|c s]|]; simpl; try discriminate.
  reflexivity.
Qed.

(** The environment handed to the child: the eight variables of the source
    take the place of any variable of the same name, every other variable
    of [process.env] is passed on as it is.  The port is 8765; the model and
    the five database variables are never empty, they are the setting of
    the store when that is a non-empty string. *)
Theorem child_env_variables (store process_env : variables) :
  let env := child_env store process_env in
  (forall name, includes_key child_variables name = false ->
                env name = process_env name)
  /\ env (lit "SERVER_PORT") = Some (lit "8765")
  /\ env (lit "OPENAI_API_KEY") = Some (or_literal (store (lit "openaiApiKey")) [])
  /\ (forall name setting,
        In (name, setting)
           [(lit "OPENAI_MODEL", lit "model"); (lit "MYSQL_HOST", lit "mysqlHost");
            (lit "MYSQL_PORT", lit "mysqlPort");
            (lit "MYSQL_USERNAME", lit "mysqlUsername");
            (lit "MYSQL_PASSWORD", lit "mysqlPassword");
            (lit "MYSQL_DATABASE", lit "mysqlDatabase")] ->
        exists value,
          env name = Some value /\ value <> []
          /\ (truthy (store setting) = true -> Some value = store setting)).
Proof.
  intros env. subst env. split; [|split; [|split]].
  - intros name H. unfold includes_key, child_variables in H. simpl in H.
    repeat (apply orb_false_elim in H as [?E H]).
    unfold child_env, assign.
    now rewrite E, E0, E1, E2, E3, E4, E5, E6.
  - reflexivity.
  - reflexivity.
  - intros name setting H. simpl in H.
    repeat (destruct H as [H|H]; [injection H as <- <-|]); try contradiction;
      eexists; (split; [reflexivity|]);
      (split; [apply or_literal_not_empty; discriminate|apply or_literal_stored]).
Qed.

Lemma child_env_variables_witness :
  let store : variables :=
    fun k => if eqs k (lit "model") then Some (lit "gpt-4o")
             else if eqs k (lit "mysqlHost") then Some [] else None in
  let process_env : variables :=
    fun k => if eqs k (lit "PATH") then Some (lit "/usr/bin")
             else if eqs k (lit "SERVER_PORT") then Some (lit "1") else None in
  includes_key child_variables (lit "PATH") = false
  /\ child_env store process_env (lit "PATH") = Some (lit "/usr/bin")
  /\ child_env store process_env (lit "SERVER_PORT") = Some (lit "8765")
  /\ child_env store process_env (lit "OPENAI_MODEL") = Some (lit "gpt-4o")
  /\ child_env store process_env (lit "MYSQL_HOST") = Some (lit "queryms.ucsf.edu").
Proof.
  intros store process_env.
  destruct (child_env_variables store process_env) as (H1 & H2 & _ & _).
  split; [reflexivity|]. split; [exact (H1 (lit "PATH") eq_refl)|].
  split; [exact H2|]. split; reflexivity.
Defined.

End BackendEnvironment.

Section SupervisorRaces.
Import JS Json Supervisor Backend.

Lemma resolved_stays (evs : list event) :
  forall (s : state) (c : start_call),
    forallb is_output evs = true ->
    isBackendReady s = true -> result c = Resolved true -> spawned c = true ->
    isBackendReady (fst (run evs (s, c))) = true
    /\ result (snd (run evs (s, c))) = Resolved true.
Proof.
  induction evs as [|e evs IH]; intros s c Ho Hr Hc Hs; [now split|].
  simpl in Ho. apply andb_prop in Ho as [He Ho].
  change (run (e :: evs) (s, c)) with (run evs (step (s, c) e)).
  destruct e as [data|data| | | |]; try discriminate;
    unfold step; simpl; rewrite Hs; simpl; unfold on_output;
    match goal with
    | |- context [if ?b then _ else _] => destruct b
    end;
    apply IH; auto; unfold resolve; rewrite Hc; auto.
Qed.

(** Readiness by marker is decided chunk by chunk.  After any output of the
    child, a start call that began not ready has resolved with [true], and
    set the flag, exactly when one single chunk held a marker of its
    stream; otherwise it is still pending.  A marker that arrives cut in
    two chunks is not seen. *)
Theorem marker_in_one_chunk
        (s : state) (scriptPath : jsstring) (child : nat) (evs : list event) :
  isBackendReady s = false ->
  forallb is_output evs = true ->
  let w := run evs (startPythonBackend true scriptPath child s) in
  isBackendReady (fst w) = existsb shows_marker evs
  /\ result (snd w) = if existsb shows_marker evs then Resolved true else Pending.
Proof.
  intros Hr Ho w. subst w. unfold startPythonBackend. simpl.
  set (s0 := {| pythonProcess := Some child; isBackendReady := isBackendReady s;
                kills := kills s |}).
  assert (Hr0 : isBackendReady s0 = false) by exact Hr.
  clearbody s0. clear Hr s.
  set (c0 := {| result := Pending; spawned := true; health_checks := [];
                awaiting := false |}).
  assert (Hc0 : result c0 = Pending) by reflexivity.
  assert (Hs0 : spawned c0 = true) by reflexivity.
  clearbody c0.
  revert s0 c0 Hr0 Hc0 Hs0.
  induction evs as [|e evs IH]; intros s c Hr Hc Hs; [simpl; now rewrite Hc|].
  simpl in Ho. apply andb_prop in Ho as [He Ho].
  change (run (e :: evs) (s, c)) with (run evs (step (s, c) e)).
  destruct e as [data|data| | | |]; try discriminate;
    unfold step; simpl; rewrite Hs; simpl; unfold on_output;
    match goal with
    | |- context [if ?b then _ else _] => destruct b eqn:Em
    end; simpl;
    try (apply IH; assumption);
    apply resolved_stays; auto; unfold resolve; rewrite Hc; auto.
Qed.

Lemma marker_in_one_chunk_witness :
  let s := {| pythonProcess := None; isBackendReady := false; kills := [] |} in
  let cut := [Stderr (wire "INFO:     Uvicorn run"); Stderr (wire "ning on http://127.0.0.1:8765")] in
  let whole := [Stderr (wire "INFO:     Uvicorn running on http://127.0.0.1:8765")] in
  existsb shows_marker cut = false /\ existsb shows_marker whole = true
  /\ result (snd (run cut (startPythonBackend true [] 1 s))) = Pending
  /\ result (snd (run whole (startPythonBackend true [] 1 s))) = Resolved true.
Proof.
  intros s cut whole.
  split; [vm_compute; reflexivity|]. split; [vm_compute; reflexivity|].
  split.
  - rewrite (proj2 (marker_in_one_chunk s [] 1 cut eq_refl eq_refl)).
    vm_compute. reflexivity.
  - rewrite (proj2 (marker_in_one_chunk s [] 1 whole eq_refl eq_refl)).
    vm_compute. reflexivity.
Defined.

(** The [close] handler of a start call clears the handle whatever process
    it holds.  After a restart (stop, then a new start) the [close] of the
    old process clears the handle of the new one, and [stopPythonBackend]
    then sends nothing: the only signal ever sent is the one to the old
    process. *)
Theorem stale_close_orphans_new_process
        (s : state) (scriptPath : jsstring) (old new : nat) :
  let first := startPythonBackend true scriptPath old s in
  let stopped := stopPythonBackend (fst first) in
  let second := startPythonBackend true scriptPath new stopped in
  let closed := step (fst second, snd first) Close in
  pythonProcess (fst second) = Some new
  /\ pythonProcess (fst closed) = None
  /\ stopPythonBackend (fst closed) = fst closed
  /\ kills (stopPythonBackend (fst closed)) = kills s ++ [(old, SIGTERM)].
Proof. intros first stopped second closed. repeat split. Qed.

(** [startPythonBackend] does not reset the readiness flag, and the timer
    starts the fallback health check only when the flag is false.  A start
    call that begins with the flag set and whose child shows no marker
    starts no health check and is still pending after the timer. *)
Theorem stale_ready_flag_skips_fallback
        (s : state) (scriptPath : jsstring) (child : nat) (evs : list event) :
  isBackendReady s = true ->
  forallb is_output evs = true ->
  existsb shows_marker evs = false ->
  let w := run (evs ++ [StartupTimeout]) (startPythonBackend true scriptPath child s) in
  result (snd w) = Pending
  /\ health_checks (snd w) = []
  /\ awaiting (snd w) = false.
Proof.
  intros Hr Ho Hm w. subst w. rewrite run_app.
  assert (H : isBackendReady (fst (run evs (startPythonBackend true scriptPath child s))) = true
              /\ snd (run evs (startPythonBackend true scriptPath child s))
                 = {| result := Pending; spawned := true; health_checks := [];
                      awaiting := false |}).
  { unfold startPythonBackend. simpl.
    set (s0 := {| pythonProcess := Some child; isBackendReady := isBackendReady s;
                  kills := kills s |}).
    assert (Hr0 : isBackendReady s0 = true) by exact Hr.
    clearbody s0. clear Hr s. revert s0 Hr0.
    induction evs as [|e evs IH]; intros s Hr; [now split|].
    simpl in Ho, Hm. apply andb_prop in Ho as [He Ho].
    apply orb_false_elim in Hm as [Hm1 Hm].
    change (run (e :: evs) (s, ?c)) with (run evs (step (s, c) e)).
    destruct e as [data|data| | | |]; try discriminate;
      unfold step; simpl; unfold on_output; simpl in Hm1; rewrite Hm1;
      now apply IH. }
  destruct H as [Hr' Hc'].
  destruct (run evs (startPythonBackend true scriptPath child s)) as [s' c'].
  simpl in Hr', Hc'. subst c'.
  unfold run. simpl. unfold step. simpl. rewrite Hr'. simpl. auto.
Qed.

(** The flag can be set without a process: the child closes, and the
    fallback check of its start call finds something answering on the port.
    [stopPythonBackend] then changes nothing, and the next start call is
    the one described above. *)
Lemma stale_ready_flag_witness :
  let fresh := {| pythonProcess := None; isBackendReady := false; kills := [] |} in
  let s := fst (run [Close; StartupTimeout; HealthCheckSettled None]
                    (startPythonBackend true [] 1 fresh)) in
  let evs := [Stdout (wire "Loading tools")] in
  pythonProcess s = None /\ isBackendReady s = true
  /\ stopPythonBackend s = s
  /\ forallb is_output evs = true /\ existsb shows_marker evs = false
  /\ result (snd (run (evs ++ [StartupTimeout])
                      (startPythonBackend true [] 2 (stopPythonBackend s)))) = Pending.
Proof.
  intros fresh s evs.
  split; [reflexivity|]. split; [reflexivity|]. split; [reflexivity|].
  split; [reflexivity|]. split; [vm_compute; reflexivity|].
  refine (proj1 (stale_ready_flag_skips_fallback (stopPythonBackend s) [] 2 evs _ _ _)).
  - reflexivity.
  - reflexivity.
  - vm_compute. reflexivity.
Defined.

End SupervisorRaces.

Section IpcHandlers.
Import JS Json Supervisor Backend.

(** [settings:set] restarts the backend only for one of the seven
    connection settings and only when a process is running: then it stops
    that process (one SIGTERM) and sets one timer of 1000 ms for the new
    start.  A display setting, or any setting while no process is running,
    leaves the supervisor as it is and sets no timer.  The handler returns
    [true] in every case. *)
Theorem settings_set_restart {V : Type} (key : jsstring) (value : V)
        (store : jsstring -> option V) (s : state) :
  let o := settings_set key value store s in
  returned o = true
  /\ store_after o key = Some value
  /\ (restart_timers o = [1000] \/ restart_timers o = [])
  /\ (restart_timers o = [1000] <->
      includes_key connection_keys key = true /\ pythonProcess s <> None)
  /\ (restart_timers o = [] -> state_after o = s)
  /\ (restart_timers o = [1000] -> state_after o = stopPythonBackend s)
  /\ (In key [lit "showToolCalls"; lit "streamTokens"; lit "conversations"] ->
      state_after o = s /\ restart_timers o = []).
Proof.
  intros o. subst o. unfold settings_set.
  assert (Hk : eqs key key = true) by now apply eqs_true_iff.
  destruct (includes_key connection_keys key) eqn:E;
    [destruct (pythonProcess s) eqn:P|]; simpl; rewrite ?Hk.
  - split; [reflexivity|]. split; [reflexivity|]. split; [now left|].
    split; [split; [intros _; split; [reflexivity|discriminate]|reflexivity]|].
    split; [discriminate|]. split; [reflexivity|].
    intros K. simpl in K.
    repeat (destruct K as [K|K]; [subst key; discriminate E|]). contradiction.
  - split; [reflexivity|]. split; [reflexivity|]. split; [now right|].
    split; [split; [discriminate|intros [_ K]; now contradiction K]|].
    split; [reflexivity|]. split; [discriminate|]. now split.
  - split; [reflexivity|]. split; [reflexivity|]. split; [now right|].
    split; [split; [discriminate|intros [K _]; discriminate K]|].
    split; [reflexivity|]. split; [discriminate|]. now split.
Qed.

Lemma settings_set_restart_witness :
  let s := {| pythonProcess := Some 7%nat; isBackendReady := true; kills := [] |} in
  let store : jsstring -> option json := fun _ => None in
  restart_timers (settings_set (lit "streamTokens") (JBool false) store s) = []
  /\ state_after (settings_set (lit "streamTokens") (JBool false) store s) = s
  /\ restart_timers (settings_set (lit "model") (JString (lit "gpt-4o")) store s) = [1000]
  /\ kills (state_after (settings_set (lit "model") (JString (lit "gpt-4o")) store s))
     = [(7%nat, SIGTERM)].
Proof.
  intros s store.
  destruct (settings_set_restart (lit "streamTokens") (JBool false) store s)
    as (_ & _ & _ & _ & _ & _ & H).
  destruct (H ltac:(right; left; reflexivity)) as [H1 H2].
  split; [exact H2|]. split; [exact H1|]. split; reflexivity.
Defined.

(** [backend:status] without a process handle answers [stopped] and makes
    no request.  With a handle it probes with one retry and always answers.
    When the first request does not run into the socket timeout and is not
    answered on a connection that breaks, and the first handler of the
    second comes within those 5000 ms, it answers
    [running] (with the port) exactly when the first request, or else the
    second, got status 200, and [error] with the reason of the second
    request otherwise.  The probe makes at most three requests: two when
    the connection of the first is closed after its response or fails, a
    third one, after the answer, when that connection is kept alive. *)
Theorem backend_status_reply (s : state) (env : Health.environment) :
  Health.is_silent (env []) = false ->
  Health.is_reset (env []) = false ->
  Health.latency_of (env [false]) <= Health.socket_timeout ->
  let reply := fst (backend_status s env) in
  let log := snd (backend_status s env) in
  (exists r, reply = Some r)
  /\ (Health.attempts log <= 3)%nat
  /\ (Health.one_handler (env []) = true -> (Health.attempts log <= 2)%nat)
  /\ (pythonProcess s = None ->
      option_map status reply = Some (lit "stopped") /\ log = [])
  /\ (option_map status reply = Some (lit "running") <->
      pythonProcess s <> None
      /\ (Health.ok (env []) = true \/ Health.ok (env [false]) = true))
  /\ (option_map status reply = Some (lit "running") ->
      option_map port reply = Some (Some 8765))
  /\ (pythonProcess s <> None ->
      Health.ok (env []) = false -> Health.ok (env [false]) = false ->
      reply = Some {| status := lit "error";
                      status_message := Health.reason (env [false]);
                      port := None |}).
Proof.
  intros H0 Hr H1 reply log. subst reply log. unfold backend_status.
  destruct (pythonProcess s) as [child|] eqn:P.
  - rewrite (promise_one_retry 500 env H0 Hr H1). cbn [fst snd].
    destruct (attempt_any_environment 500 env 1 []) as (_ & _ & _ & Hb).
    cbv zeta in Hb. fold (Health.checkBackendHealth 1 500 env) in Hb.
    assert (Two : Health.one_handler (env []) = true ->
                  (Health.attempts (Health.checkBackendHealth 1 500 env) <= 2)%nat).
    { intros Hone. unfold Health.checkBackendHealth.
      destruct (env []) as [l0 c0|l0 e0| |l0 c0|l0 c0 t0 e0] eqn:E0; try discriminate.
      - rewrite (attempt_answered _ _ _ _ _ _ E0).
        destruct (c0 =? 200); [unfold Health.attempts; simpl; lia|].
        destruct (attempt_any_environment 500 env 0 ([] ++ [false])) as (_ & _ & _ & B).
        cbv zeta in B. unfold Health.attempts in *. simpl in B |- *. lia.
      - rewrite (attempt_failed _ _ _ _ _ _ E0).
        destruct (attempt_any_environment 500 env 0 ([] ++ [false])) as (_ & _ & _ & B).
        cbv zeta in B. unfold Health.attempts in *. simpl in B |- *. lia. }
    destruct (Health.ok (env [])) eqn:Ok0; [|destruct (Health.ok (env [false])) eqn:Ok1];
      cbn [orb option_map status port].
    + split; [eauto|]. split; [simpl in Hb; lia|]. split; [exact Two|].
      split; [discriminate|]. split; [split; [intros _; split; [discriminate|now left]|reflexivity]|].
      split; [reflexivity|]. discriminate.
    + split; [eauto|]. split; [simpl in Hb; lia|]. split; [exact Two|].
      split; [discriminate|]. split; [split; [intros _; split; [discriminate|now right]|reflexivity]|].
      split; [reflexivity|]. discriminate.
    + split; [eauto|]. split; [simpl in Hb; lia|]. split; [exact Two|].
      split; [discriminate|].
      split; [split; [discriminate|intros [_ [F|F]]; discriminate F]|].
      split; [discriminate|]. reflexivity.
  - cbn [fst snd option_map status port].
    split; [eauto|]. split; [unfold Health.attempts; simpl; lia|].
    split; [intros _; unfold Health.attempts; simpl; lia|].
    split; [intros _; split; reflexivity|].
    split; [split; [discriminate|intros [F _]; now contradiction F]|].
    split; [discriminate|]. intros F. now contradiction F.
Qed.

Lemma backend_status_reply_witness :
  let s := {| pythonProcess := Some 7%nat; isBackendReady := false; kills := [] |} in
  let env : Health.environment :=
    fun path => match path with
                | [] => Health.KeptAlive 3 503
                | _ => Health.KeptAlive 2 200
                end in
  Health.is_silent (env []) = false /\ Health.is_reset (env []) = false
  /\ Health.latency_of (env [false]) <= Health.socket_timeout
  /\ option_map status (fst (backend_status s env)) = Some (lit "running")
  /\ Health.attempts (snd (backend_status s env)) = 3%nat.
Proof.
  intros s env. split; [reflexivity|]. split; [reflexivity|].
  assert (L : Health.latency_of (env [false]) <= Health.socket_timeout)
    by (simpl; unfold Health.socket_timeout; lia).
  split; [exact L|]. split; [|reflexivity].
  destruct (backend_status_reply s env eq_refl eq_refl L) as (_ & _ & _ & _ & H & _).
  apply H. split; [discriminate|]. right. reflexivity.
Defined.



(** [backend:restart] sends SIGTERM to the running process and starts a
    new one.  When the new child shows no marker and the fallback health
    check fails, the start call resolves with [false], and the handler
    still answers [restarted]: the answer does not say that the backend is
    ready. *)
Theorem restart_answers_restarted_when_not_ready
        (s : state) (scriptPath : jsstring) (old new : nat)
        (evs : list event) (failure : jsstring) :
  pythonProcess s = Some old ->
  forallb quiet evs = true ->
  let r := backend_restart true scriptPath new
             (evs ++ [StartupTimeout; HealthCheckSettled (Some failure)]) s in
  snd r = Some (inl (lit "restarted"))
  /\ isBackendReady (fst r) = false
  /\ kills (fst r) = kills s ++ [(old, SIGTERM)].
Proof.
  intros Hp Hq r. subst r. unfold backend_restart.
  assert (Hstop : stopPythonBackend s
                  = {| pythonProcess := None; isBackendReady := false;
                       kills := kills s ++ [(old, SIGTERM)] |})
    by (unfold stopPythonBackend; now rewrite Hp).
  rewrite Hstop, run_app.
  set (w0 := startPythonBackend true scriptPath new _).
  destruct (quiet_keeps_waiting evs w0 Hq eq_refl eq_refl) as [Hr Hc].
  assert (Hk : kills (fst (run evs w0)) = kills s ++ [(old, SIGTERM)]).
  { assert (G : forall evs w, kills (fst (run evs w)) = kills (fst w)).
    { clear. induction evs as [|e evs IH]; intros w; [reflexivity|].
      change (run (e :: evs) w) with (run evs (step w e)). rewrite IH.
      destruct w as [s c]. unfold step.
      destruct (negb (spawned (snd (s, c)))); [reflexivity|].
      destruct e; simpl; unfold on_output, on_startup_timeout, on_health_settled;
        simpl;
        repeat match goal with
               | |- context [if ?b then _ else _] => destruct b
               | |- context [match ?x with _ => _ end] => destruct x
               end; reflexivity. }
    now rewrite G. }
  destruct (run evs w0) as [s' c']. simpl in Hr, Hc, Hk. subst c'.
  unfold run. simpl. unfold step. simpl. rewrite Hr. simpl. auto.
Qed.

Lemma restart_answers_restarted_witness :
  let s := {| pythonProcess := Some 1%nat; isBackendReady := true; kills := [] |} in
  let evs := [Stdout (wire "Loading tools"); Close] in
  pythonProcess s = Some 1%nat /\ forallb quiet evs = true
  /\ snd (backend_restart true [] 2
            (evs ++ [StartupTimeout;
                     HealthCheckSettled (Some (lit "connect ECONNREFUSED 127.0.0.1:8765"))]) s)
     = Some (inl (lit "restarted")).
Proof.
  intros s evs. split; [reflexivity|]. split; [vm_compute; reflexivity|].
  refine (proj1 (restart_answers_restarted_when_not_ready s [] 1 2 evs _ eq_refl _)).
  vm_compute. reflexivity.
Defined.

End IpcHandlers.

(* ===================================================================== *)
(** * Properties of the chat view *)
(* ===================================================================== *)

Section TrimFacts.
Import JS Renderer.

Lemma trimStart_suffix (s : jsstring) :
  exists spaces, s = spaces ++ trimStart s /\ forallb is_space spaces = true.
Proof.
  induction s as [|c s (spaces & E & H)]; [now exists []|]. simpl.
  destruct (is_space c) eqn:Ec.
  - exists (c :: spaces). simpl. rewrite Ec, H. now rewrite <- E.
  - now exists [].
Qed.

Lemma trimStart_head (s : jsstring) (c : N) (r : jsstring) :
  trimStart s = c :: r -> is_space c = false.
Proof.
  induction s as [|x s IH]; simpl; [discriminate|].
  destruct (is_space x) eqn:Ex; [exact IH|].
  intros E. injection E as <- _. exact Ex.
Qed.

Lemma trimStart_blank (s : jsstring) :
  forallb is_space s = true -> trimStart s = [].
Proof.
  induction s as [|c s IH]; simpl; [reflexivity|].
  intros H. apply andb_prop in H as [-> H]. auto.
Qed.

Lemma forallb_rev {A} (f : A -> bool) (l : list A) :
  forallb f (rev l) = forallb f l.
Proof.
  induction l as [|x l IH]; simpl; [reflexivity|].
  rewrite forallb_app, IH. simpl. rewrite andb_true_r. apply andb_comm.
Qed.

(** [trim] cuts white space off both ends and nothing else. *)
Lemma trim_substring (s : jsstring) :
  exists before after,
    s = before ++ trim s ++ after
    /\ forallb is_space before = true /\ forallb is_space after = true.
Proof.
  destruct (trimStart_suffix s) as (before & E1 & H1).
  destruct (trimStart_suffix (rev (trimStart s))) as (after & E2 & H2).
  exists before, (rev after). unfold trim.
  split; [|split; [exact H1|now rewrite forallb_rev]].
  rewrite <- rev_app_distr, <- E2, rev_involutive. exact E1.
Qed.

Lemma trim_ends (s : jsstring) :
  (forall c r, trim s = c :: r -> is_space c = false)
  /\ (forall c r, trim s = r ++ [c] -> is_space c = false).
Proof.
  split; intros c r E.
  - destruct (trimStart_suffix (rev (trimStart s))) as (after & E2 & _).
    apply (f_equal (@rev N)) in E2. rewrite rev_involutive, rev_app_distr in E2.
    fold (trim s) in E2. rewrite E in E2. simpl in E2.
    now apply (trimStart_head s c (r ++ rev after)).
  - unfold trim in E. apply (f_equal (@rev N)) in E.
    rewrite rev_involutive, rev_app_distr in E. simpl in E.
    now apply (trimStart_head _ _ _ E).
Qed.

Lemma trim_blank_iff (s : jsstring) :
  nonempty (trim s) = false <-> forallb is_space s = true.
Proof.
  split.
  - intros H. destruct (trim_substring s) as (before & after & E & Hb & Ha).
    destruct (trim s); [|discriminate]. rewrite E. simpl.
    now rewrite forallb_app, Hb, Ha.
  - intros H. unfold trim. now rewrite (trimStart_blank s H).
Qed.

End TrimFacts.

Section ChatViewFacts.
Import JS Json Renderer.

Lemma receive_deaf (st : settings) (evs : list (clock * chat_event)) (v : view) :
  listening v = false -> receive st evs v = v.
Proof.
  intros H. induction evs as [|e evs IH]; [reflexivity|].
  unfold receive in *. simpl. unfold on_chat_event at 2. now rewrite H.
Qed.

(** [sendMessage] returns at once when the input is blank or a stream is
    under way.  Otherwise it shows one more message, the user's, and calls
    [chatStream] with the trimmed text, the model of the settings, and a
    history of one entry per earlier message, in order, without the new
    one. *)
Theorem send_message_guard (st : settings) (t : clock) (v : view) :
  let r := sendMessage st t v in
  (forallb is_space (inputValue v) = true \/ isStreaming v = true ->
   r = (v, None))
  /\ (forallb is_space (inputValue v) = false -> isStreaming v = false ->
      exists q,
        snd r = Some q
        /\ Stream.message q = trim (inputValue v)
        /\ Stream.message q <> []
        /\ Stream.model q = settings_model st
        /\ Stream.conversationHistory q = Some (map history_entry (shown v))
        /\ shown (fst r) = shown v ++ [user_message t (trim (inputValue v))]
        /\ isStreaming (fst r) = true /\ listening (fst r) = true).
Proof.
  intros r. subst r. unfold sendMessage. split.
  - intros [H|H].
    + apply trim_blank_iff in H. now rewrite H.
    + rewrite H. now rewrite orb_true_r.
  - intros H1 H2. rewrite H2.
    destruct (nonempty (trim (inputValue v))) eqn:E.
    + simpl. eexists. split; [reflexivity|]. simpl.
      repeat split. intros F. now rewrite F in E.
    + apply trim_blank_iff in E. congruence.
Qed.

Lemma send_message_guard_witness :
  let st := {| streamTokens := true; showToolCalls := true;
               settings_model := Some (lit "gpt-5.2") |} in
  let v := {| inputValue := lit "  How many patients?  "; isStreaming := false;
              streamingContent := []; currentToolCalls := []; shown := [];
              updatedMessages := []; fullContent := []; toolCalls := [];
              hasError := false; listening := false |} in
  forallb is_space (inputValue v) = false /\ isStreaming v = false
  /\ option_map Stream.message (snd (sendMessage st (5, 5) v))
     = Some (lit "How many patients?")
  /\ sendMessage st (6, 6) (fst (sendMessage st (5, 5) v))
     = (fst (sendMessage st (5, 5) v), None).
Proof.
  intros st v. split; [reflexivity|]. split; [reflexivity|].
  split; [reflexivity|].
  apply (proj1 (send_message_guard st (6, 6) (fst (sendMessage st (5, 5) v)))).
  right. reflexivity.
Defined.

(** The first error event ends the listening: the listener removes itself,
    and whatever arrives afterwards changes nothing. *)
Theorem nothing_after_error_event (st : settings) (t : clock) (text : jsstring)
        (evs : list (clock * chat_event)) (v : view) :
  let v' := on_chat_event st t v (Error text) in
  receive st evs v' = v'
  /\ (listening v = true ->
      shown v' = updatedMessages v ++ [error_message t (error_text_shown text)]
      /\ isStreaming v' = false /\ hasError v' = true).
Proof.
  intros v'. subst v'. split.
  - apply receive_deaf. unfold on_chat_event.
    destruct (listening v) eqn:E; simpl; [reflexivity|exact E].
  - intros H. unfold on_chat_event. rewrite H. simpl. auto.
Qed.

Lemma nothing_after_error_event_witness :
  let st := {| streamTokens := true; showToolCalls := true; settings_model := None |} in
  let v := {| inputValue := []; isStreaming := true; streamingContent := [];
              currentToolCalls := []; shown := []; updatedMessages := [];
              fullContent := []; toolCalls := []; hasError := false;
              listening := true |} in
  listening v = true
  /\ shown (receive st [((1, 1), Error (lit "aborted")); ((2, 2), Token (lit "Hi"));
                        ((3, 3), Error (lit "again"))] v)
     = [error_message (1, 1) (lit "Error: aborted. Please check your settings and try again.")].
Proof.
  intros st v. split; [reflexivity|].
  change (receive st [((1, 1), Error (lit "aborted")); ((2, 2), Token (lit "Hi"));
                      ((3, 3), Error (lit "again"))] v)
    with (receive st [((2, 2), Token (lit "Hi")); ((3, 3), Error (lit "again"))]
                  (on_chat_event st (1, 1) v (Error (lit "aborted")))).
  rewrite (proj1 (nothing_after_error_event st (1, 1) (lit "aborted") _ v)).
  reflexivity.
Defined.

End ChatViewFacts.

Section ChatReplies.
Import JS Json Renderer.

Lemma receive_cons (st : settings) (te : clock * chat_event)
      (evs : list (clock * chat_event)) (v : view) :
  receive st (te :: evs) v = receive st evs (on_chat_event st (fst te) v (snd te)).
Proof. reflexivity. Qed.

Lemma receive_app (st : settings) (evs1 evs2 : list (clock * chat_event)) (v : view) :
  receive st (evs1 ++ evs2) v = receive st evs2 (receive st evs1 v).
Proof. unfold receive. apply fold_left_app. Qed.

Lemma end_call_id (e : chat_event) (l : list tool_call) :
  map call_id (map (end_call e) l) = map call_id l.
Proof.
  rewrite map_map. apply map_ext. intros tc. unfold end_call.
  destruct e; try reflexivity. now destruct (eqs (call_id tc) tool_id).
Qed.

(** An event other than an error leaves the messages, the error flag and
    the registration of the listener as they are. *)
Lemma on_chat_event_frame (st : settings) (t : clock) (v : view) (e : chat_event) :
  is_error e = false ->
  let w := on_chat_event st t v e in
  listening w = listening v /\ hasError w = hasError v
  /\ shown w = shown v /\ updatedMessages w = updatedMessages v.
Proof.
  intros H. unfold on_chat_event.
  destruct (listening v) eqn:Hl; cbn [negb]; [|now rewrite Hl].
  destruct e; try discriminate; try (destruct (showToolCalls st));
    simpl; rewrite ?Hl; repeat split; reflexivity.
Qed.

(** While it listens and no error has arrived, the view shows what
    [sendMessage] showed; once an error has arrived it shows that error
    after the user's message and no longer listens. *)
Lemma receive_shape (st : settings) (evs : list (clock * chat_event)) (v : view) :
  listening v = true -> hasError v = false ->
  let w := receive st evs v in
  updatedMessages w = updatedMessages v
  /\ ((hasError w = false /\ listening w = true /\ shown w = shown v)
      \/ (hasError w = true /\ listening w = false
          /\ exists t text,
               shown w = updatedMessages v ++ [error_message t (error_text_shown text)])).
Proof.
  revert v. induction evs as [|[t e] evs IH]; intros v Hl He.
  - simpl. split; [reflexivity|]. left. auto.
  - rewrite receive_cons. cbn [fst snd].
    destruct (is_error e) eqn:Ee.
    + destruct e; try discriminate.
      rewrite receive_deaf; [|unfold on_chat_event; now rewrite Hl].
      unfold on_chat_event. rewrite Hl. simpl. split; [reflexivity|].
      right. split; [reflexivity|]. split; [reflexivity|]. now exists t, error_text.
    + destruct (on_chat_event_frame st t v e Ee) as (A & B & C & D).
      destruct (IH (on_chat_event st t v e)) as [U S]; [congruence..|].
      rewrite C, D in *. split; [congruence|exact S].
Qed.

(** The text of one event, added to [full]. *)
Lemma on_chat_event_text (st : settings) (t : clock) (v : view) (e : chat_event) :
  listening v = true -> is_error e = false ->
  let w := on_chat_event st t v e in
  (forall evs, text_after (fullContent v) ((t, e) :: evs)
               = text_after (fullContent w) evs)
  /\ map call_id (toolCalls w)
     = map call_id (toolCalls v)
       ++ (if showToolCalls st then started [(t, e)] else []).
Proof.
  intros Hl He. unfold on_chat_event. rewrite Hl. cbn [negb].
  destruct e; try discriminate; simpl.
  - split; [reflexivity|]. destruct (showToolCalls st); now rewrite app_nil_r.
  - destruct (showToolCalls st); simpl; split; try reflexivity.
    + now rewrite map_app.
    + now rewrite app_nil_r.
  - destruct (showToolCalls st); simpl; split; try reflexivity.
    + rewrite app_nil_r. apply (end_call_id (ToolCallEnd tool_id result)).
    + now rewrite app_nil_r.
  - split; [now destruct text as [[|c s]|]|].
    destruct (showToolCalls st); now rewrite app_nil_r.
  - split; [reflexivity|]. destruct (showToolCalls st); now rewrite app_nil_r.
Qed.

Lemma started_cons (te : clock * chat_event) (evs : list (clock * chat_event)) :
  started (te :: evs) = started [te] ++ started evs.
Proof. destruct te as [t e]. destruct e; reflexivity. Qed.

(** Without error events the listener stays registered, the text is what
    the tokens and final contents leave, and the tool calls are those the
    events start, in order (none when tool calls are not shown). *)
Lemma receive_no_error (st : settings) (evs : list (clock * chat_event)) (v : view) :
  listening v = true ->
  forallb (fun te => negb (is_error (snd te))) evs = true ->
  let w := receive st evs v in
  listening w = true /\ hasError w = hasError v
  /\ shown w = shown v /\ updatedMessages w = updatedMessages v
  /\ fullContent w = text_after (fullContent v) evs
  /\ map call_id (toolCalls w)
     = map call_id (toolCalls v) ++ (if showToolCalls st then started evs else []).
Proof.
  revert v. induction evs as [|[t e] evs IH]; intros v Hl Hn.
  - simpl. repeat split; try assumption.
    destruct (showToolCalls st); now rewrite app_nil_r.
  - simpl in Hn. apply andb_prop in Hn as [Hn1 Hn].
    apply negb_true_iff in Hn1. rewrite receive_cons. cbn [fst snd].
    destruct (on_chat_event_frame st t v e Hn1) as (A & B & C & D).
    destruct (on_chat_event_text st t v e Hl Hn1) as (E & F).
    destruct (IH (on_chat_event st t v e)) as (A' & B' & C' & D' & E' & F');
      [congruence|exact Hn|].
    split; [exact A'|]. split; [congruence|]. split; [congruence|].
    split; [congruence|]. split; [now rewrite E', <- E|].
    rewrite F', F, <- app_assoc. f_equal.
    rewrite (started_cons (t, e) evs). now destruct (showToolCalls st).
Qed.

(** One exchange shows exactly one reply.  Whatever events arrive and
    however the promise of [chatStream] settles, [sendMessage] ends with the
    earlier messages, the user's message and one message of the assistant
    (the text or one error), and with the streaming state cleared. *)
Theorem one_reply_per_message (st : settings) (t tf : clock) (v v1 : view)
        (q : Stream.chat_request) (evs : list (clock * chat_event))
        (c : completion) :
  sendMessage st t v = (v1, Some q) ->
  let v2 := finish tf c (receive st evs v1) in
  (exists reply,
     shown v2 = shown v ++ [user_message t (trim (inputValue v)); reply]
     /\ msg_role reply = Assistant)
  /\ isStreaming v2 = false /\ streamingContent v2 = []
  /\ currentToolCalls v2 = [] /\ listening v2 = false.
Proof.
  unfold sendMessage.
  destruct (negb (nonempty (trim (inputValue v))) || isStreaming v); [discriminate|].
  intros E. injection E as <- _. cbv zeta.
  split; [|repeat split].
  match goal with |- context [receive st evs ?x] => set (v1 := x) end.
  destruct (receive_shape st evs v1 eq_refl eq_refl) as [U S].
  change (updatedMessages v1) with (shown v ++ [user_message t (trim (inputValue v))]) in *.
  change (shown v1) with (shown v ++ [user_message t (trim (inputValue v))]) in *.
  unfold finish. cbn [shown]. rewrite U.
  assert (P : forall m, (shown v ++ [user_message t (trim (inputValue v))]) ++ [m]
                        = shown v ++ [user_message t (trim (inputValue v)); m])
    by (intros m; now rewrite <- app_assoc).
  destruct c as [|text].
  - destruct S as [(He & _ & _)|(He & _ & te & text & Sh)]; rewrite He; cbn [negb andb].
    + destruct (nonempty (fullContent (receive st evs v1)));
        cbn [negb]; rewrite P; eexists; split; reflexivity.
    + rewrite Sh, P. eexists; split; reflexivity.
  - rewrite P. eexists; split; reflexivity.
Qed.

Lemma one_reply_per_message_witness :
  let st := {| streamTokens := true; showToolCalls := true; settings_model := None |} in
  let v := {| inputValue := lit "Hello"; isStreaming := false;
              streamingContent := []; currentToolCalls := []; shown := [];
              updatedMessages := []; fullContent := []; toolCalls := [];
              hasError := false; listening := false |} in
  exists reply,
    shown (finish (9, 9) (StreamRejected (lit "boom"))
                  (receive st [((2, 2), Token (lit "Hi")); ((3, 3), Error (lit "x"));
                               ((4, 4), Error (lit "y"))]
                           (fst (sendMessage st (1, 1) v))))
    = shown v ++ [user_message (1, 1) (trim (inputValue v)); reply]
    /\ msg_role reply = Assistant.
Proof.
  intros st v.
  exact (proj1 (one_reply_per_message st (1, 1) (9, 9) v _ _
                  [((2, 2), Token (lit "Hi")); ((3, 3), Error (lit "x"));
                   ((4, 4), Error (lit "y"))]
                  (StreamRejected (lit "boom")) eq_refl)).
Defined.

(** When no error event arrives and the promise resolves, the reply is
    the accumulated text with the tool calls the events started, in their
    order (none when tool calls are hidden); when no text arrived at all it
    is the error [No response received]. *)
Theorem reply_without_error_events (st : settings) (t tf : clock) (v v1 : view)
        (q : Stream.chat_request) (evs : list (clock * chat_event)) :
  sendMessage st t v = (v1, Some q) ->
  forallb (fun te => negb (is_error (snd te))) evs = true ->
  let w := receive st evs v1 in
  let v2 := finish tf StreamResolved w in
  fullContent w = text_after [] evs
  /\ map call_id (toolCalls w) = (if showToolCalls st then started evs else [])
  /\ shown v2
     = shown v ++
       [user_message t (trim (inputValue v));
        if nonempty (fullContent w)
        then assistant_message tf (fullContent w) (toolCalls w)
        else error_message tf
               (lit "No response received from the assistant. Please try again.")].
Proof.
  unfold sendMessage.
  destruct (negb (nonempty (trim (inputValue v))) || isStreaming v); [discriminate|].
  intros E. injection E as <- _. intros Hn.
  match goal with |- context [receive st evs ?x] => set (v1 := x) end.
  destruct (receive_no_error st evs v1 eq_refl Hn) as (A & B & C & D & E & F).
  cbv zeta. split; [exact E|]. split; [exact F|].
  unfold finish. cbn [shown]. rewrite B, D. cbn [hasError updatedMessages v1 negb andb].
  destruct (nonempty (fullContent (receive st evs v1)));
    cbn [negb]; now rewrite <- app_assoc.
Qed.

Lemma reply_without_error_events_witness :
  let st := {| streamTokens := false; showToolCalls := true; settings_model := None |} in
  let v := {| inputValue := lit "Hello"; isStreaming := false;
              streamingContent := []; currentToolCalls := []; shown := [];
              updatedMessages := []; fullContent := []; toolCalls := [];
              hasError := false; listening := false |} in
  let evs := [((2, 2), ToolCallStart (lit "t1") (lit "query") JNull);
              ((3, 3), Token (lit "Hi")); ((4, 4), ToolCallEnd (lit "t1") JNull);
              ((5, 5), Token (lit " there")); ((6, 6), Done None)] in
  fullContent (receive st evs (fst (sendMessage st (1, 1) v))) = lit "Hi there"
  /\ map call_id (toolCalls (receive st evs (fst (sendMessage st (1, 1) v))))
     = [lit "t1"].
Proof.
  intros st v evs.
  destruct (reply_without_error_events st (1, 1) (9, 9) v _ _ evs eq_refl eq_refl)
    as (A & B & _).
  split; [exact A|exact B].
Defined.

(** Tokens are appended in their order of arrival; the content of the final
    [done] event, when it is not empty, replaces what the tokens gave, and
    is displayed even when [streamTokens] is off. *)
Theorem done_content_replaces_tokens (st : settings) (v : view)
        (texts : list (clock * jsstring)) (t : clock) (d : option jsstring) :
  listening v = true ->
  let tokens := map (fun p => (fst p, Token (snd p))) texts in
  let w := receive st tokens v in
  let w' := receive st (tokens ++ [(t, Done d)]) v in
  fullContent w = fullContent v ++ List.concat (map snd texts)
  /\ (streamTokens st = false -> streamingContent w = streamingContent v)
  /\ fullContent w' = match d with
                      | Some (c :: s) => c :: s
                      | _ => fullContent v ++ List.concat (map snd texts)
                      end
  /\ streamingContent w' = fullContent w'.
Proof.
  intros Hl tokens w w'.
  assert (G : forall v, listening v = true ->
                        listening (receive st tokens v) = true
                        /\ fullContent (receive st tokens v)
                           = fullContent v ++ List.concat (map snd texts)
                        /\ (streamTokens st = false ->
                            streamingContent (receive st tokens v) = streamingContent v)).
  { subst tokens. clear. induction texts as [|[t x] texts IH]; intros v Hl.
    - simpl. rewrite app_nil_r. auto.
    - cbn [map]. rewrite receive_cons. cbn [fst snd].
      destruct (IH (on_chat_event st t v (Token x))) as (A & B & C).
      + unfold on_chat_event. now rewrite Hl.
      + split; [exact A|]. split.
        * rewrite B. unfold on_chat_event. rewrite Hl. simpl.
          now rewrite <- app_assoc.
        * intros Hs. rewrite (C Hs). unfold on_chat_event. rewrite Hl. simpl.
          now rewrite Hs. }
  destruct (G v Hl) as (A & B & C). subst w w'.
  split; [exact B|]. split; [exact C|].
  rewrite receive_app.
  change (receive st [(t, Done d)] (receive st tokens v))
    with (on_chat_event st t (receive st tokens v) (Done d)).
  rewrite <- B. set (u := receive st tokens v) in *.
  unfold on_chat_event. rewrite A. cbn [negb].
  destruct d as [[|c s]|]; simpl; split; reflexivity.
Qed.

Lemma done_content_replaces_tokens_witness :
  let st := {| streamTokens := false; showToolCalls := true; settings_model := None |} in
  let v := {| inputValue := []; isStreaming := true; streamingContent := [];
              currentToolCalls := []; shown := []; updatedMessages := [];
              fullContent := []; toolCalls := []; hasError := false;
              listening := true |} in
  listening v = true
  /\ fullContent (receive st [((1, 1), Token (lit "par")); ((2, 2), Token (lit "tial"));
                              ((3, 3), Done (Some (lit "The whole answer.")))] v)
     = lit "The whole answer.".
Proof.
  intros st v. split; [reflexivity|].
  exact (proj1 (proj2 (proj2
    (done_content_replaces_tokens st v [((1, 1), lit "par"); ((2, 2), lit "tial")]
       (3, 3) (Some (lit "The whole answer.")) eq_refl)))).
Defined.

(** A [tool_call_end] event changes neither the number nor the order of the
    tool calls: every call with its identifier becomes complete with its
    result, every other call stays as it was, and an identifier that no
    call has changes nothing. *)
Theorem tool_call_end_completes (st : settings) (t : clock) (v : view)
        (tool_id : jsstring) (result : json) :
  listening v = true -> showToolCalls st = true ->
  let w := on_chat_event st t v (ToolCallEnd tool_id result) in
  map call_id (toolCalls w) = map call_id (toolCalls v)
  /\ currentToolCalls w = toolCalls w
  /\ (forall n tc, nth_error (toolCalls v) n = Some tc ->
        exists tc', nth_error (toolCalls w) n = Some tc'
          /\ call_name tc' = call_name tc
          /\ call_arguments tc' = call_arguments tc
          /\ (call_id tc = tool_id ->
              call_status tc' = Complete /\ call_result tc' = Some result)
          /\ (call_id tc <> tool_id -> tc' = tc)).
Proof.
  intros Hl Hs w. subst w. unfold on_chat_event. rewrite Hl, Hs. cbn [negb].
  cbn [toolCalls currentToolCalls].
  split; [apply (end_call_id (ToolCallEnd tool_id result))|].
  split; [reflexivity|].
  intros n tc H. exists (end_call (ToolCallEnd tool_id result) tc).
  split; [now rewrite nth_error_map, H|].
  unfold end_call. destruct (eqs (call_id tc) tool_id) eqn:E.
  - simpl. split; [reflexivity|]. split; [reflexivity|].
    split; [intros _; split; reflexivity|].
    intros F. apply eqs_true_iff in E. contradiction.
  - split; [reflexivity|]. split; [reflexivity|].
    split; [|reflexivity].
    intros F. apply eqs_true_iff in F. congruence.
Qed.

Lemma tool_call_end_completes_witness :
  let st := {| streamTokens := true; showToolCalls := true; settings_model := None |} in
  let running := fun i => {| call_id := i; call_name := lit "query";
                             call_arguments := JNull; call_result := None;
                             call_status := Running |} in
  let v := {| inputValue := []; isStreaming := true; streamingContent := [];
              currentToolCalls := [running (lit "a"); running (lit "b")];
              shown := []; updatedMessages := []; fullContent := [];
              toolCalls := [running (lit "a"); running (lit "b")];
              hasError := false; listening := true |} in
  map call_status (toolCalls (on_chat_event st (1, 1) v (ToolCallEnd (lit "b") JNull)))
  = [Running; Complete]
  /\ map call_id (toolCalls (on_chat_event st (1, 1) v (ToolCallEnd (lit "b") JNull)))
     = map call_id (toolCalls v).
Proof.
  intros st running v. split; [reflexivity|].
  exact (proj1 (tool_call_end_completes st (1, 1) v (lit "b") JNull eq_refl eq_refl)).
Defined.

End ChatReplies.

(* ===================================================================== *)
(** * Properties of the list of conversations *)
(* ===================================================================== *)

Section ConversationFacts.
Import JS Json Renderer App.

Lemma eqs_refl (a : jsstring) : eqs a a = true.
Proof. now apply eqs_true_iff. Qed.

Lemma eqs_false_sym (a b : jsstring) : eqs a b = false -> eqs b a = false.
Proof.
  intros H. destruct (eqs b a) eqn:E; [|reflexivity].
  apply eqs_true_iff in E. subst. now rewrite eqs_refl in H.
Qed.

Lemma has_id_map (f : conversation -> conversation) (i : jsstring)
      (l : list conversation) :
  (forall c, conv_id (f c) = conv_id c) -> has_id i (map f l) = has_id i l.
Proof.
  intros H. unfold has_id. induction l as [|c l IH]; [reflexivity|].
  simpl. now rewrite H, IH.
Qed.

Lemma has_id_filter (i j : jsstring) (l : list conversation) :
  eqs j i = false ->
  has_id i (filter (fun c => negb (eqs (conv_id c) j)) l) = has_id i l.
Proof.
  intros H. unfold has_id. induction l as [|c l IH]; [reflexivity|].
  simpl. destruct (eqs (conv_id c) j) eqn:E; simpl; rewrite IH; [|reflexivity].
  apply eqs_true_iff in E. rewrite E, H. reflexivity.
Qed.

Lemma has_id_deleted (j : jsstring) (l : list conversation) :
  has_id j (filter (fun c => negb (eqs (conv_id c) j)) l) = false.
Proof.
  unfold has_id. induction l as [|c l IH]; [reflexivity|].
  simpl. destruct (eqs (conv_id c) j) eqn:E; simpl; [exact IH|].
  now rewrite E.
Qed.

Lemma rename_ids (i n : jsstring) (a : app) :
  map conv_id (conversations (handleRenameConversation i n a))
  = map conv_id (conversations a).
Proof.
  simpl. rewrite map_map. apply map_ext. intros c.
  now destruct (eqs (conv_id c) i).
Qed.

Lemma update_ids (i : jsstring) (m : list message) (a : app) :
  map conv_id (conversations (handleUpdateMessages i m a))
  = map conv_id (conversations a).
Proof.
  simpl. rewrite map_map. apply map_ext. intros c.
  now destruct (eqs (conv_id c) i).
Qed.

Lemma has_id_ids (i : jsstring) (l l' : list conversation) :
  map conv_id l = map conv_id l' -> has_id i l = has_id i l'.
Proof.
  unfold has_id. revert l'. induction l as [|c l IH]; intros [|c' l'] H;
    try discriminate; [reflexivity|].
  simpl in *. injection H as H1 H2. now rewrite H1, (IH l' H2).
Qed.

Lemma find_has_id (i : jsstring) (l : list conversation) :
  has_id i l = true ->
  exists c, find (fun c => eqs (conv_id c) i) l = Some c
            /\ conv_id c = i /\ In c l.
Proof.
  unfold has_id. induction l as [|c l IH]; [discriminate|]. simpl.
  destruct (eqs (conv_id c) i) eqn:E.
  - intros _. exists c. apply eqs_true_iff in E. auto.
  - simpl. intros H. destruct (IH H) as (c' & F & I & M). exists c'. auto.
Qed.

(** One handler keeps the list non-empty and the active identifier in it. *)
Lemma apply_keeps_active (a : app) (op : action) :
  conversations a <> [] ->
  has_id (activeConversationId a) (conversations a) = true ->
  conversations (apply a op) <> []
  /\ has_id (activeConversationId (apply a op)) (conversations (apply a op)) = true.
Proof.
  intros Hn Ha. destruct op; cbn [apply].
  - simpl. split; [discriminate|]. unfold has_id. simpl. now rewrite eqs_refl.
  - split.
    + intros F. apply Hn. apply (f_equal (map conv_id)) in F.
      rewrite update_ids in F. now destruct (conversations a).
    + cbn [activeConversationId handleUpdateMessages].
      rewrite <- Ha. apply has_id_ids. apply update_ids.
  - split.
    + intros F. apply Hn. apply (f_equal (map conv_id)) in F.
      rewrite rename_ids in F. now destruct (conversations a).
    + cbn [activeConversationId handleRenameConversation].
      rewrite <- Ha. apply has_id_ids. apply rename_ids.
  - unfold handleDeleteConversation.
    destruct (filter _ (conversations a)) as [|first rest] eqn:F.
    + simpl. split; [discriminate|]. unfold has_id. simpl. now rewrite eqs_refl.
    + destruct (eqs conversationId (activeConversationId a)) eqn:E;
        cbn [conversations activeConversationId].
      * split; [discriminate|]. unfold has_id. simpl. now rewrite eqs_refl.
      * split; [discriminate|]. rewrite <- F. now rewrite has_id_filter.
  - unfold handleSaveEdit. destruct (nonempty (trim editName)); [|auto].
    split.
    + intros F. apply Hn. apply (f_equal (map conv_id)) in F.
      rewrite rename_ids in F. now destruct (conversations a).
    + cbn [activeConversationId handleRenameConversation].
      rewrite <- Ha. apply has_id_ids. apply rename_ids.
  - destruct (has_id conversationId (conversations a)) eqn:E; simpl; auto.
  - destruct savedConvs as [[|first rest]|]; simpl; auto.
    split; [discriminate|]. unfold has_id. simpl. now rewrite eqs_refl.
Qed.

(** Whatever the user does (new, rename, delete, select, chat) and whatever
    the store returns at start-up, the list of conversations is never empty
    and the active identifier names one of its conversations, which is the
    conversation the chat view gets. *)
Theorem active_conversation_exists (a : app) (ops : list action) :
  conversations a <> [] ->
  has_id (activeConversationId a) (conversations a) = true ->
  let b := fold_left apply ops a in
  conversations b <> []
  /\ has_id (activeConversationId b) (conversations b) = true
  /\ exists c, activeConversation b = Some c
               /\ conv_id c = activeConversationId b /\ In c (conversations b).
Proof.
  revert a. induction ops as [|op ops IH]; intros a Hn Ha.
  - simpl. split; [exact Hn|]. split; [exact Ha|].
    destruct (find_has_id _ _ Ha) as (c & F & I & M).
    exists c. unfold activeConversation. now rewrite F.
  - destruct (apply_keeps_active a op Hn Ha) as [Hn' Ha'].
    exact (IH (apply a op) Hn' Ha').
Qed.

Lemma active_conversation_exists_witness :
  let ops := [New (lit "u1") 10; Rename (lit "default") (lit "First");
              Delete (lit "u1") (lit "u2") 20; Delete (lit "default") (lit "u3") 30;
              SaveEdit (lit "u3") (lit "  Mine "); Select (lit "gone")] in
  conversations (fold_left apply ops initial) <> []
  /\ option_map conv_name (activeConversation (fold_left apply ops initial))
     = Some (lit "Mine").
Proof.
  intros ops. split; [|reflexivity].
  apply (active_conversation_exists initial ops); [discriminate|reflexivity].
Defined.

(** Storing the messages of a conversation touches nothing else: the
    identifiers, names and dates of all conversations, their order and the
    active identifier stay; the conversations with another identifier are
    unchanged; the new list is what is saved; and of two updates of one
    conversation the later one wins. *)
Theorem update_messages_frame (i : jsstring) (m m' : list message) (a : app) :
  let b := handleUpdateMessages i m a in
  map conv_id (conversations b) = map conv_id (conversations a)
  /\ map conv_name (conversations b) = map conv_name (conversations a)
  /\ map createdAt (conversations b) = map createdAt (conversations a)
  /\ activeConversationId b = activeConversationId a
  /\ saved b = Some (conversations b)
  /\ (forall n c, nth_error (conversations a) n = Some c ->
        exists c', nth_error (conversations b) n = Some c'
          /\ (conv_id c = i -> conv_messages c' = m)
          /\ (conv_id c <> i -> c' = c))
  /\ handleUpdateMessages i m' b = handleUpdateMessages i m' a.
Proof.
  intros b. subst b.
  split; [apply update_ids|].
  split; [simpl; rewrite map_map; apply map_ext; intros c;
          now destruct (eqs (conv_id c) i)|].
  split; [simpl; rewrite map_map; apply map_ext; intros c;
          now destruct (eqs (conv_id c) i)|].
  split; [reflexivity|]. split; [reflexivity|]. split.
  - intros n c H. cbn [conversations handleUpdateMessages].
    rewrite nth_error_map, H. cbn [option_map]. eexists. split; [reflexivity|].
    destruct (eqs (conv_id c) i) eqn:E.
    + split; [reflexivity|]. intros F. apply eqs_true_iff in E. contradiction.
    + split; [|reflexivity]. intros F. apply eqs_true_iff in F. congruence.
  - unfold handleUpdateMessages. cbn [conversations activeConversationId].
    rewrite map_map.
    rewrite (map_ext _ (fun conv =>
               if eqs (conv_id conv) i
               then {| conv_id := conv_id conv; conv_name := conv_name conv;
                       conv_messages := m'; createdAt := createdAt conv |}
               else conv)); [reflexivity|].
    intros c. destruct (eqs (conv_id c) i) eqn:E; simpl; now rewrite E.
Qed.

Lemma update_messages_frame_witness :
  let a := handleNewConversation (lit "u1") 10 initial in
  let m := [user_message (1, 1) (lit "Hello")] in
  map conv_messages (conversations (handleUpdateMessages (lit "default") m a))
  = [[]; m]
  /\ map conv_id (conversations (handleUpdateMessages (lit "default") m a))
     = map conv_id (conversations a).
Proof.
  intros a m. split; [reflexivity|].
  exact (proj1 (update_messages_frame (lit "default") m [] a)).
Defined.

(** Saving an edited name: a name of white space only is dropped without
    any change or save; any other name is stored trimmed (not empty, no
    white space at either end) in the conversations with the edited
    identifier, and everything else stays as it was. *)
Theorem save_edit_trims_name (i name : jsstring) (a : app) :
  let b := handleSaveEdit i name a in
  (forallb is_space name = true -> b = a)
  /\ (forallb is_space name = false ->
      trim name <> []
      /\ (forall c r, trim name = c :: r -> is_space c = false)
      /\ (forall c r, trim name = r ++ [c] -> is_space c = false)
      /\ map conv_id (conversations b) = map conv_id (conversations a)
      /\ map conv_messages (conversations b) = map conv_messages (conversations a)
      /\ activeConversationId b = activeConversationId a
      /\ saved b = Some (conversations b)
      /\ (forall n c, nth_error (conversations a) n = Some c ->
            exists c', nth_error (conversations b) n = Some c'
              /\ (conv_id c = i -> conv_name c' = trim name)
              /\ (conv_id c <> i -> c' = c))).
Proof.
  intros b. subst b. unfold handleSaveEdit. split.
  - intros H. apply trim_blank_iff in H. now rewrite H.
  - intros H. destruct (nonempty (trim name)) eqn:E;
      [|apply trim_blank_iff in E; congruence].
    split; [intros F; now rewrite F in E|].
    split; [apply trim_ends|]. split; [apply trim_ends|].
    split; [apply rename_ids|].
    split; [simpl; rewrite map_map; apply map_ext; intros c;
            now destruct (eqs (conv_id c) i)|].
    split; [reflexivity|]. split; [reflexivity|].
    intros n c Hc. cbn [conversations handleRenameConversation].
    rewrite nth_error_map, Hc. cbn [option_map]. eexists. split; [reflexivity|].
    destruct (eqs (conv_id c) i) eqn:Ei.
    + split; [reflexivity|]. intros F. apply eqs_true_iff in Ei. contradiction.
    + split; [|reflexivity]. intros F. apply eqs_true_iff in F. congruence.
Qed.

Lemma save_edit_trims_name_witness :
  forallb is_space (lit "   ") = true
  /\ handleSaveEdit (lit "default") (lit "   ") initial = initial
  /\ forallb is_space (lit "  Cohort A ") = false
  /\ map conv_name (conversations (handleSaveEdit (lit "default") (lit "  Cohort A ") initial))
     = [lit "Cohort A"]
  /\ trim (lit "  Cohort A ") <> [].
Proof.
  split; [reflexivity|].
  split; [exact (proj1 (save_edit_trims_name (lit "default") (lit "   ") initial) eq_refl)|].
  split; [reflexivity|]. split; [reflexivity|].
  exact (proj1 (proj2 (save_edit_trims_name (lit "default") (lit "  Cohort A ") initial)
                  eq_refl)).
Defined.

(** Deleting removes every conversation with the identifier and keeps the
    others in their order.  When others remain, the identifier is gone from
    the list, the active conversation stays unless it was the deleted one,
    in which case the first remaining one becomes active.  When none
    remains, one fresh empty conversation named MS Console replaces the
    list and becomes active.  The resulting list is saved. *)
Theorem delete_conversation (i uuid : jsstring) (now : N) (a : app) :
  let kept := filter (fun c => negb (eqs (conv_id c) i)) (conversations a) in
  let b := handleDeleteConversation i uuid now a in
  saved b = Some (conversations b)
  /\ conversations b <> []
  /\ (kept <> [] ->
      conversations b = kept
      /\ has_id i (conversations b) = false
      /\ (forall j, j <> i -> has_id j (conversations b) = has_id j (conversations a))
      /\ (activeConversationId a <> i ->
          activeConversationId b = activeConversationId a)
      /\ (activeConversationId a = i ->
          hd_error (map conv_id kept) = Some (activeConversationId b)))
  /\ (kept = [] ->
      conversations b = [{| conv_id := uuid; conv_name := lit "MS Console";
                            conv_messages := []; createdAt := now |}]
      /\ activeConversationId b = uuid).
Proof.
  intros kept b. subst b. unfold handleDeleteConversation. fold kept.
  assert (G : forall j, j <> i -> has_id j kept = has_id j (conversations a)).
  { intros j Hj. apply has_id_filter. destruct (eqs i j) eqn:E; [|reflexivity].
    apply eqs_true_iff in E. congruence. }
  assert (D : has_id i kept = false) by apply has_id_deleted.
  destruct kept as [|first rest] eqn:K.
  - cbn [saved conversations activeConversationId].
    split; [reflexivity|]. split; [discriminate|].
    split; [intros F; now contradiction F|]. intros _. split; reflexivity.
  - destruct (eqs i (activeConversationId a)) eqn:E;
      cbn [saved conversations activeConversationId];
      (split; [reflexivity|]); (split; [discriminate|]);
      (split; [|discriminate]); intros _;
      (split; [reflexivity|]); (split; [exact D|]); (split; [exact G|]).
    + split; [|reflexivity]. intros F. apply eqs_true_iff in E. congruence.
    + split; [reflexivity|]. intros F. rewrite F, eqs_refl in E. discriminate.
Qed.

Lemma delete_conversation_witness :
  let a := handleNewConversation (lit "u1") 10 initial in
  filter (fun c => negb (eqs (conv_id c) (lit "u1"))) (conversations a) <> []
  /\ map conv_id (conversations (handleDeleteConversation (lit "u1") (lit "u2") 20 a))
     = [lit "default"]
  /\ activeConversationId (handleDeleteConversation (lit "u1") (lit "u2") 20 a)
     = lit "default"
  /\ has_id (lit "u1")
            (conversations (handleDeleteConversation (lit "u1") (lit "u2") 20 a))
     = false.
Proof.
  intros a. split; [discriminate|]. split; [reflexivity|]. split; [reflexivity|].
  refine (proj1 (proj2 (proj1 (proj2 (proj2
            (delete_conversation (lit "u1") (lit "u2") 20 a))) _))).
  discriminate.
Defined.

Lemma has_id_false_not_in (i : jsstring) (l : list conversation) :
  has_id i l = false -> ~ In i (map conv_id l).
Proof.
  unfold has_id. induction l as [|c l IH]; simpl; [tauto|].
  intros H [F|F].
  - rewrite F, eqs_refl in H. discriminate.
  - apply orb_false_elim in H as [_ H]. now apply IH.
Qed.

(** Deleting keeps the identifiers that remain pairwise distinct. *)
Lemma kept_ids_distinct (i : jsstring) (l : list conversation) :
  NoDup (map conv_id l) ->
  NoDup (map conv_id (filter (fun c => negb (eqs (conv_id c) i)) l)).
Proof.
  intros H. induction l as [|c l IH]; [constructor|].
  apply NoDup_cons_iff in H as [Hc Hl]. cbn [filter].
  destruct (negb (eqs (conv_id c) i)); [|exact (IH Hl)].
  cbn [map]. apply NoDup_cons; [|exact (IH Hl)].
  intros F. apply Hc. apply in_map_iff in F as (y & E & I).
  apply filter_In in I as [I _]. rewrite <- E. now apply in_map.
Qed.

(** The identifiers of the conversations stay pairwise distinct, as long as
    [uuidv4] returns an identifier that is not in the list and the stored
    list has distinct identifiers. *)
Theorem ids_stay_distinct (a : app) (op : action) :
  NoDup (map conv_id (conversations a)) ->
  match op with
  | New uuid _ => has_id uuid (conversations a) = false
  | Load (Some l) => NoDup (map conv_id l)
  | _ => True
  end ->
  NoDup (map conv_id (conversations (apply a op))).
Proof.
  intros H Hop. destruct op; cbn [apply].
  - simpl. constructor; [now apply has_id_false_not_in|exact H].
  - now rewrite update_ids.
  - now rewrite rename_ids.
  - unfold handleDeleteConversation.
    destruct (filter _ (conversations a)) as [|first rest] eqn:F.
    + simpl. constructor; [tauto|constructor].
    + destruct (eqs conversationId (activeConversationId a));
        cbn [conversations]; rewrite <- F; now apply kept_ids_distinct.
  - unfold handleSaveEdit. destruct (nonempty (trim editName)); [|exact H].
    now rewrite rename_ids.
  - now destruct (has_id conversationId (conversations a)).
  - destruct savedConvs as [[|first rest]|]; simpl; auto.
Qed.

Lemma ids_stay_distinct_witness :
  NoDup (map conv_id (conversations (apply initial (New (lit "u1") 10)))).
Proof.
  apply (ids_stay_distinct initial (New (lit "u1") 10)).
  - simpl. constructor; [intros F; exact F|constructor].
  - reflexivity.
Defined.

End ConversationFacts.

(* ===================================================================== *)
(** * Properties of saving all settings *)
(* ===================================================================== *)

Section SetAllFacts.
Import JS Json Supervisor Backend.

Lemma set_entries_snoc {V} (entries : list (jsstring * V)) (kv : jsstring * V)
      (store : jsstring -> option V) (k : jsstring) :
  set_entries (entries ++ [kv]) store k
  = if eqs k (fst kv) then Some (snd kv) else set_entries entries store k.
Proof. unfold set_entries. now rewrite fold_left_app. Qed.

Lemma set_entries_other {V} (entries : list (jsstring * V))
      (store : jsstring -> option V) (k : jsstring) :
  ~ In k (map fst entries) -> set_entries entries store k = store k.
Proof.
  induction entries as [|kv entries IH] using rev_ind; [reflexivity|].
  intros H. rewrite set_entries_snoc. rewrite map_app, in_app_iff in H.
  destruct (eqs k (fst kv)) eqn:E.
  - apply eqs_true_iff in E. exfalso. apply H. right. simpl. auto.
  - apply IH. tauto.
Qed.

Lemma step_kills (w : state * start_call) (e : event) :
  kills (fst (step w e)) = kills (fst w).
Proof.
  unfold step. destruct (spawned (snd w)); [|reflexivity]. cbn [negb].
  destruct w as [s c]. destruct e; simpl; try reflexivity.
  - now destruct (stdout_marker (toString data)).
  - now destruct (stderr_marker (toString data)).
  - now destruct (isBackendReady s).
  - destruct (awaiting c); [|reflexivity]. now destruct failure.
Qed.

Lemma run_kills (evs : list event) (w : state * start_call) :
  kills (fst (run evs w)) = kills (fst w).
Proof.
  revert w. induction evs as [|e evs IH]; intros w; [reflexivity|].
  unfold run in *. simpl. now rewrite IH, step_kills.
Qed.

Lemma run_unspawned (evs : list event) (w : state * start_call) :
  spawned (snd w) = false -> run evs w = w.
Proof.
  intros H. induction evs as [|e evs IH]; [reflexivity|].
  unfold run in *. simpl. unfold step at 2. now rewrite H.
Qed.

(** Every entry of the settings object is in the store afterwards, and no
    other key of the store is touched. *)
Theorem set_all_stores_entries {V : Type} (entries : list (jsstring * V))
        (store : jsstring -> option V) (scriptExists : bool)
        (scriptPath : jsstring) (child : nat) (evs : list event)
        (env : Health.environment) (s : state) :
  NoDup (map fst entries) ->
  let o := settings_setAll entries store scriptExists scriptPath child evs env s in
  (forall key value, In (key, value) entries -> all_store o key = Some value)
  /\ (forall key, ~ In key (map fst entries) -> all_store o key = store key).
Proof.
  intros H o.
  assert (E : all_store o = set_entries entries store).
  { subst o. unfold settings_setAll. now destruct (result _). }
  rewrite E. clear E o. split; [|intros key; apply set_entries_other].
  induction entries as [|kv entries IH] using rev_ind; [intros ? ? []|].
  intros key value Hin. rewrite set_entries_snoc.
  rewrite map_app in H. apply NoDup_remove in H as [H1 H2].
  rewrite app_nil_r in *. apply in_app_or in Hin as [Hin|[->|[]]].
  - destruct (eqs key (fst kv)) eqn:E.
    + apply eqs_true_iff in E. exfalso. apply H2. rewrite <- E.
      apply in_map_iff. now exists (key, value).
    + now apply IH.
  - simpl. now rewrite eqs_refl.
Qed.

Lemma set_all_stores_entries_witness :
  let entries := [(lit "model", JString (lit "gpt-4o"));
                  (lit "streamTokens", JBool false)] in
  let o := settings_setAll entries (fun _ => Some JNull) false [] 1%nat []
                           (fun _ => Health.Silent)
                           {| pythonProcess := None; isBackendReady := false;
                              kills := [] |} in
  all_store o (lit "model") = Some (JString (lit "gpt-4o"))
  /\ all_store o (lit "mysqlHost") = Some JNull.
Proof.
  intros entries o.
  assert (N : NoDup (map fst entries)).
  { simpl. constructor; [intros [F|[]]; discriminate F|].
    constructor; [intros []|constructor]. }
  split.
  - apply (proj1 (set_all_stores_entries entries (fun _ => Some JNull) false []
                    1%nat [] (fun _ => Health.Silent) _ N)).
    left. reflexivity.
  - apply (proj2 (set_all_stores_entries entries (fun _ => Some JNull) false []
                    1%nat [] (fun _ => Health.Silent) _ N)).
    simpl. intros [F|[F|[]]]; discriminate F.
Defined.

(** Saving all settings always stops the running backend first, and its
    answer never tells whether the restart worked: it is [true] when the
    start is rejected (no probe is made then) as well as when the start
    resolves and the probe settles either way; it is never [false].  When
    the backend script is missing, the answer is [true] and no backend is
    left running. *)
Theorem set_all_reply {V : Type} (entries : list (jsstring * V))
        (store : jsstring -> option V) (scriptExists : bool)
        (scriptPath : jsstring) (child : nat) (evs : list event)
        (env : Health.environment) (s : state) :
  let started := run evs (startPythonBackend scriptExists scriptPath child
                                             (stopPythonBackend s)) in
  let o := settings_setAll entries store scriptExists scriptPath child evs env s in
  all_returned o <> Some false
  /\ kills (all_state o) = kills (stopPythonBackend s)
  /\ (forall old, pythonProcess s = Some old ->
        kills (all_state o) = kills s ++ [(old, SIGTERM)])
  /\ (forall e, result (snd started) = Rejected e ->
        all_returned o = Some true /\ all_health o = [])
  /\ (forall b, result (snd started) = Resolved b ->
        all_health o = Health.checkBackendHealth 3 1000 env
        /\ (Health.settled (all_health o) <> None -> all_returned o = Some true))
  /\ (scriptExists = false ->
        all_returned o = Some true /\ pythonProcess (all_state o) = None).
Proof.
  intros started o.
  assert (S : all_state o = fst started).
  { subst o started. unfold settings_setAll. now destruct (result _). }
  assert (K : kills (all_state o) = kills (stopPythonBackend s)).
  { rewrite S. subst started. rewrite run_kills.
    unfold startPythonBackend. now destruct scriptExists. }
  split.
  { subst o started. unfold settings_setAll. destruct (result _); simpl;
      try discriminate. now destruct (Health.settled _). }
  split; [exact K|]. split.
  { intros old H. rewrite K. unfold stopPythonBackend. now rewrite H. }
  split.
  { intros e H. subst o. unfold settings_setAll. fold started. now rewrite H. }
  split.
  { intros b H. subst o. unfold settings_setAll. fold started. rewrite H.
    cbn [all_health all_returned]. split; [reflexivity|].
    destruct (Health.settled _); [reflexivity|]. intros F. now contradiction F. }
  intros ->. rewrite S. subst o started. unfold settings_setAll.
  rewrite run_unspawned by reflexivity. cbn.
  unfold stopPythonBackend. destruct (pythonProcess s) eqn:P; cbn.
  - split; reflexivity.
  - split; [reflexivity|exact P].
Qed.

Lemma set_all_reply_witness :
  let s := {| pythonProcess := Some 7%nat; isBackendReady := true; kills := [] |} in
  let o := settings_setAll [(lit "model", JString (lit "gpt-4o"))] (fun _ => None)
                           false (lit "server.py") 8%nat [] (fun _ => Health.Silent) s in
  all_returned o = Some true
  /\ pythonProcess (all_state o) = None
  /\ kills (all_state o) = [(7%nat, SIGTERM)].
Proof.
  intros s o.
  destruct (set_all_reply [(lit "model", JString (lit "gpt-4o"))] (fun _ => None)
              false (lit "server.py") 8%nat [] (fun _ => Health.Silent) s)
    as (_ & _ & K & _ & _ & M).
  destruct (M eq_refl) as [R P].
  split; [exact R|]. split; [exact P|]. exact (K 7%nat eq_refl).
Defined.

End SetAllFacts.
